(** * Puffing language: lexer, parser and tree-walking interpreter

    A shallow embedding of [src/lexer.py], [src/parser.py] and
    [src/interpreter.py], with the properties of the language specification
    stated and settled against it.

    Conventions of the embedding.
    - Python [str] is [string]; a character is an [ascii] read as the code
      point 0..255 (Latin-1), and the [str] predicates ([isspace],
      [isdigit], [isalpha], [isalnum]) are the host's tables on that range.
    - Python [int] is [Z]; Python [float] is IEEE binary64, given by
      [spec_float] with precision 53 and maximal exponent 1024.
    - Python exceptions are results: every function that can raise returns
      a sum of a value and the exception raised. *)

From Stdlib Require Import ZArith Bool Lia Ascii String.
From Stdlib Require Import SpecFloat Sorted.
From stdpp Require Import gmap strings list pretty.

Open Scope Z_scope.

(* ===================================================================== *)
(** * Host characters and numbers *)
(* ===================================================================== *)

Module Host.

(** The exceptions of the host that the program itself never raises on
    purpose; none of them is a [PuffingError]. *)
Inductive exception : Set :=
| TypeError
| ValueError
| OverflowError
| ZeroDivisionError
| IndexError
| AttributeError
| RecursionError.

Definition code (c : ascii) : nat := nat_of_ascii c.

Definition between (lo hi n : nat) : bool := (lo <=? n)%nat && (n <=? hi)%nat.

(** [str.isspace] on code points below 256. *)
Definition isspace (c : ascii) : bool :=
  let n := code c in
  between 9 13 n || between 28 32 n || (n =? 133)%nat || (n =? 160)%nat.

(** [str.isdecimal]: the digits [int()] and [float()] accept. *)
Definition isdecimal (c : ascii) : bool := between 48 57 (code c).

(** [str.isdigit]: also the superscripts two, three and one. *)
Definition isdigit (c : ascii) : bool :=
  let n := code c in
  between 48 57 n || between 178 179 n || (n =? 185)%nat.

(** [str.isalpha]. *)
Definition isalpha (c : ascii) : bool :=
  let n := code c in
  between 65 90 n || between 97 122 n || (n =? 170)%nat || (n =? 181)%nat
  || (n =? 186)%nat || between 192 214 n || between 216 246 n
  || between 248 255 n.

(** [str.isalnum]: letters, digits and the vulgar fractions. *)
Definition isalnum (c : ascii) : bool :=
  isalpha c || isdigit c || between 188 190 (code c).

(** Binary64 arithmetic of the host. *)
Definition prec : Z := 53.
Definition emax : Z := 1024.

Definition float_of_Z (z : Z) : spec_float := binary_normalize prec emax z 0 false.

(** Value of a run of decimal digits, most significant first. *)
Fixpoint digits_value (acc : Z) (s : string) : option Z :=
  match s with
  | EmptyString => Some acc
  | String c r =>
      if isdecimal c
      then digits_value (10 * acc + Z.of_nat (code c) - 48) r
      else None
  end.

(** The host converts between [int] and decimal text up to this number
    of digits ([sys.get_int_max_str_digits()]) and raises [ValueError]
    beyond it. *)
Definition max_str_digits : nat := 4300.

(** [int(s)] for a non-empty run of [isdigit] characters: [None] stands
    for the host's [ValueError] (a superscript digit is not decimal, and
    a run of more than [max_str_digits] characters is refused). *)
Definition int_of_digits (s : string) : option Z :=
  if (max_str_digits <? String.length s)%nat then None else digits_value 0 s.

(** The least integer with more than [max_str_digits] digits,
    [10 ^ 4300], computed once. *)
Definition max_str_bound : Z := Eval vm_compute in 10 ^ 4300.

(** Whether [str(n)] succeeds: [n] has at most [max_str_digits] digits. *)
Definition int_text_fits (n : Z) : bool := Z.abs n <? max_str_bound.

(** The correctly rounded quotient of two integers, as [float(n) / d] is
    when both are exact; used for decimal literals [n / 10^k]. *)
Definition float_quotient (n d : Z) : spec_float :=
  match n, d with
  | Zpos pn, Zpos pd =>
      SFdiv prec emax (S754_finite false pn 0) (S754_finite false pd 0)
  | Z0, _ => S754_zero false
  | _, _ => S754_nan
  end.

(** [float(s)] for [s = int_part ++ "." ++ frac_part], both runs of
    [isdigit] characters; [None] is the host's [ValueError]. *)
Definition float_of_decimal (int_part frac_part : string) : option spec_float :=
  match digits_value 0 (int_part +:+ frac_part) with
  | Some n => Some (float_quotient n (10 ^ Z.of_nat (String.length frac_part)))
  | None => None
  end.

(** [int(f)]: truncation toward zero; [None] is the [OverflowError] or
    [ValueError] that an infinity or a NaN raises. *)
Definition int_of_float (f : spec_float) : option Z :=
  match f with
  | S754_zero _ => Some 0
  | S754_finite s m e =>
      let magnitude := if 0 <=? e then Zpos m * 2 ^ e else Zpos m / 2 ^ (- e) in
      Some (if s then - magnitude else magnitude)
  | S754_infinity _ | S754_nan => None
  end.

End Host.

(* ===================================================================== *)
(** * Lexer ([src/lexer.py]) *)
(* ===================================================================== *)

Module Lexer.

(** [class TokenType(Enum)]. *)
Inductive TokenType : Set :=
| T_LET | T_LOCK | T_AS | T_IF | T_ELIF | T_ELSE | T_PRINT | T_INPUT
| T_LIB | T_FOR | T_IN | T_WHILE | T_DO | T_BREAK | T_CONTINUE
| T_INT | T_FLOAT | T_STR | T_BOOL
| T_IDENT | T_NUMBER | T_STRING | T_TRUE | T_FALSE
| T_PLUS | T_MINUS | T_MULTIPLY | T_DIVIDE | T_MODULO | T_POWER
| T_INCREMENT | T_DECREMENT
| T_EQUAL | T_NOT_EQUAL | T_LESS | T_GREATER | T_LESS_EQUAL
| T_GREATER_EQUAL | T_NOT | T_AND | T_OR
| T_SEMICOLON | T_LPAREN | T_RPAREN | T_LBRACE | T_RBRACE | T_LBRACKET
| T_RBRACKET | T_DOT | T_DOLLAR | T_COMMA | T_COLON | T_HASH
| T_FUN | T_LAMB | T_RETURN | T_ARROW | T_EOF.

Definition TokenType_index (t : TokenType) : positive :=
  match t with
  | T_LET => 1 | T_LOCK => 2 | T_AS => 3 | T_IF => 4 | T_ELIF => 5
  | T_ELSE => 6 | T_PRINT => 7 | T_INPUT => 8 | T_LIB => 9 | T_FOR => 10
  | T_IN => 11 | T_WHILE => 12 | T_DO => 13 | T_BREAK => 14
  | T_CONTINUE => 15 | T_INT => 16 | T_FLOAT => 17 | T_STR => 18
  | T_BOOL => 19 | T_IDENT => 20 | T_NUMBER => 21 | T_STRING => 22
  | T_TRUE => 23 | T_FALSE => 24 | T_PLUS => 25 | T_MINUS => 26
  | T_MULTIPLY => 27 | T_DIVIDE => 28 | T_MODULO => 29 | T_POWER => 30
  | T_INCREMENT => 31 | T_DECREMENT => 32 | T_EQUAL => 33
  | T_NOT_EQUAL => 34 | T_LESS => 35 | T_GREATER => 36
  | T_LESS_EQUAL => 37 | T_GREATER_EQUAL => 38 | T_NOT => 39 | T_AND => 40
  | T_OR => 41 | T_SEMICOLON => 42 | T_LPAREN => 43 | T_RPAREN => 44
  | T_LBRACE => 45 | T_RBRACE => 46 | T_LBRACKET => 47 | T_RBRACKET => 48
  | T_DOT => 49 | T_DOLLAR => 50 | T_COMMA => 51 | T_COLON => 52
  | T_HASH => 53 | T_FUN => 54 | T_LAMB => 55 | T_RETURN => 56
  | T_ARROW => 57 | T_EOF => 58
  end%positive.

(** [a == b] on enum members. *)
Definition TokenType_eqb (a b : TokenType) : bool :=
  Pos.eqb (TokenType_index a) (TokenType_index b).

(** The payload of a token: nothing, an [int], a [float] or a [str]. *)
Inductive literal : Set :=
| LitNone
| LitInt (n : Z)
| LitFloat (f : spec_float)
| LitStr (s : string).

(** [class Token]: [Token(type_, value=None)]. *)
Record Token : Set := mkToken { type_ : TokenType; value : literal }.

Definition tok (t : TokenType) : Token := mkToken t LitNone.

(** What [tokenize] can raise: the lexer's own [LexerError] (the message
    with the character, line and column it interpolates), or an
    exception of the host that no handler of the lexer catches. *)
Inductive lex_exception : Set :=
| LexerError (message : string) (char : option ascii) (line column : nat)
| LexHost (e : Host.exception).

Inductive lex_result (A : Type) : Type :=
| LexOk (a : A)
| LexRaise (e : lex_exception)
| LexOutOfFuel.
Arguments LexOk {A} a.
Arguments LexRaise {A} e.
Arguments LexOutOfFuel {A}.

(** The state of [class Lexer].  [rest] is [self.text[self.pos:]]: its
    head is [self.current_char] ([None] when it is empty) and its second
    character is [self.peek()]. *)
Record lexer : Set := mkLexer { rest : string; line : nat; column : nat }.

Definition init (text : string) : lexer := mkLexer text 1 1.

Definition current_char (lx : lexer) : option ascii :=
  match rest lx with
  | String c _ => Some c
  | EmptyString => None
  end.

Definition peek (lx : lexer) : option ascii :=
  match rest lx with
  | String _ (String c _) => Some c
  | _ => None
  end.

Definition newline : ascii := "010"%char.
Definition tab : ascii := "009"%char.
Definition quote : ascii := "034"%char.
Definition backslash : ascii := "092"%char.

Definition ascii_eqb (a b : ascii) : bool := Ascii.eqb a b.

(** [advance]: a newline under the cursor starts a new line. *)
Definition advance (lx : lexer) : lexer :=
  match rest lx with
  | String c r =>
      if ascii_eqb c newline
      then mkLexer r (S (line lx)) 1
      else mkLexer r (line lx) (S (column lx))
  | EmptyString => mkLexer EmptyString (line lx) (S (column lx))
  end.

(** The loop [while self.current_char and p(self.current_char):
    result += self.current_char; self.advance()]. *)
Fixpoint scan_from (p : ascii -> bool) (s : string) (ln col : nat)
  : string * lexer :=
  match s with
  | String c r =>
      if p c
      then let lx := advance (mkLexer s ln col) in
           let '(acc, lx') := scan_from p r (line lx) (column lx) in
           (String c acc, lx')
      else (EmptyString, mkLexer s ln col)
  | EmptyString => (EmptyString, mkLexer s ln col)
  end.

Definition scan (p : ascii -> bool) (lx : lexer) : string * lexer :=
  scan_from p (rest lx) (line lx) (column lx).

Definition skip_whitespace (lx : lexer) : lexer := snd (scan Host.isspace lx).

(** [skip_single_line_comment]: from [?] to the end of the line. *)
Definition skip_single_line_comment (lx : lexer) : lexer :=
  let lx := advance lx in
  let lx := snd (scan (fun c => negb (ascii_eqb c newline)) lx) in
  match current_char lx with
  | Some _ => advance lx
  | None => lx
  end.

(** [skip_block_comment]: the loop after the opening [?-] has been
    skipped; it ends at the first [-?] or when the text ends. *)
Fixpoint block_comment_from (s : string) (ln col : nat) : lexer :=
  match s with
  | String c r =>
      let lx := mkLexer s ln col in
      if ascii_eqb c "-" &&
         match peek lx with Some c' => ascii_eqb c' "?" | None => false end
      then advance (advance lx)
      else let lx' := advance lx in block_comment_from r (line lx') (column lx')
  | EmptyString => mkLexer s ln col
  end.

Definition skip_block_comment (lx : lexer) : lexer :=
  let lx := advance (advance lx) in
  block_comment_from (rest lx) (line lx) (column lx).

(** [number]: digits, then a fraction when a dot is followed by a
    digit.  [int(result)] and [float(result)] raise the host's
    [ValueError] on a digit that is not decimal. *)
Definition number (lx : lexer) : lex_result (Token * lexer) :=
  let '(int_part, lx1) := scan Host.isdigit lx in
  let fraction :=
    match current_char lx1, peek lx1 with
    | Some c, Some c' => ascii_eqb c "." && Host.isdigit c'
    | _, _ => false
    end in
  if fraction then
    let lx2 := advance lx1 in
    let '(frac_part, lx3) := scan Host.isdigit lx2 in
    match Host.float_of_decimal int_part frac_part with
    | Some f => LexOk (mkToken T_NUMBER (LitFloat f), lx3)
    | None => LexRaise (LexHost Host.ValueError)
    end
  else
    match Host.int_of_digits int_part with
    | Some n => LexOk (mkToken T_NUMBER (LitInt n), lx1)
    | None => LexRaise (LexHost Host.ValueError)
    end.

(** The character an escape sequence stands for. *)
Definition unescape (c : ascii) : ascii :=
  if ascii_eqb c "n" then newline
  else if ascii_eqb c "t" then tab
  else if ascii_eqb c quote then quote
  else if ascii_eqb c backslash then backslash
  else c.

(** The loop of [string] after the opening quote.  It stops at a
    closing quote (left under the cursor) and raises at the end of the
    text; a backslash that ends the text makes [result +=
    self.current_char] add [None] to a [str], the host's [TypeError]. *)
Fixpoint string_from (s : string) (ln col : nat) : lex_result (string * lexer) :=
  match s with
  | EmptyString =>
      LexRaise (LexerError "Unterminated string at line {self.line}, column {self.column}"
                           None ln col)
  | String c r =>
      let lx := mkLexer s ln col in
      if ascii_eqb c quote then LexOk (EmptyString, lx)
      else if ascii_eqb c backslash then
        let lx1 := advance lx in
        match r with
        | EmptyString => LexRaise (LexHost Host.TypeError)
        | String e r' =>
            let lx2 := advance lx1 in
            match string_from r' (line lx2) (column lx2) with
            | LexOk (acc, lx') => LexOk (String (unescape e) acc, lx')
            | LexRaise x => LexRaise x
            | LexOutOfFuel => LexOutOfFuel
            end
        end
      else
        let lx1 := advance lx in
        match string_from r (line lx1) (column lx1) with
        | LexOk (acc, lx') => LexOk (String c acc, lx')
        | LexRaise x => LexRaise x
        | LexOutOfFuel => LexOutOfFuel
        end
  end.

Definition string_ (lx : lexer) : lex_result (Token * lexer) :=
  let lx := advance lx in
  match string_from (rest lx) (line lx) (column lx) with
  | LexOk (result, lx') => LexOk (mkToken T_STRING (LitStr result), advance lx')
  | LexRaise x => LexRaise x
  | LexOutOfFuel => LexOutOfFuel
  end.

(** The keyword table of [identifier]. *)
Definition keywords : list (string * TokenType) :=
  [ ("let", T_LET); ("lock", T_LOCK); ("as", T_AS); ("if", T_IF);
    ("elif", T_ELIF); ("else", T_ELSE); ("print", T_PRINT);
    ("input", T_INPUT); ("lib", T_LIB); ("for", T_FOR); ("in", T_IN);
    ("while", T_WHILE); ("do", T_DO); ("break", T_BREAK);
    ("continue", T_CONTINUE); ("int", T_INT); ("float", T_FLOAT);
    ("str", T_STR); ("bool", T_BOOL); ("true", T_TRUE); ("false", T_FALSE);
    ("and", T_AND); ("or", T_OR); ("fun", T_FUN); ("lamb", T_LAMB);
    ("return", T_RETURN) ]%string.

Fixpoint lookup_keyword (name : string) (table : list (string * TokenType))
  : option TokenType :=
  match table with
  | [] => None
  | (k, t) :: table' => if String.eqb name k then Some t else lookup_keyword name table'
  end.

Definition identifier (lx : lexer) : Token * lexer :=
  let '(result, lx') := scan (fun c => Host.isalnum c || ascii_eqb c "_") lx in
  match lookup_keyword result keywords with
  | Some t => (tok t, lx')
  | None => (mkToken T_IDENT (LitStr result), lx')
  end.

(** The two-character operators, tried before the single characters. *)
Definition two_char_operator (c c' : ascii) : option TokenType :=
  if ascii_eqb c "*" && ascii_eqb c' "*" then Some T_POWER
  else if ascii_eqb c "+" && ascii_eqb c' "+" then Some T_INCREMENT
  else if ascii_eqb c "-" && ascii_eqb c' "-" then Some T_DECREMENT
  else if ascii_eqb c "<" && ascii_eqb c' "=" then Some T_LESS_EQUAL
  else if ascii_eqb c ">" && ascii_eqb c' "=" then Some T_GREATER_EQUAL
  else if ascii_eqb c "!" && ascii_eqb c' "=" then Some T_NOT_EQUAL
  else if ascii_eqb c "=" && ascii_eqb c' ">" then Some T_ARROW
  else None.

Definition one_char_operator (c : ascii) : option TokenType :=
  if ascii_eqb c "+" then Some T_PLUS
  else if ascii_eqb c "-" then Some T_MINUS
  else if ascii_eqb c "*" then Some T_MULTIPLY
  else if ascii_eqb c "/" then Some T_DIVIDE
  else if ascii_eqb c "%" then Some T_MODULO
  else if ascii_eqb c "=" then Some T_EQUAL
  else if ascii_eqb c "<" then Some T_LESS
  else if ascii_eqb c ">" then Some T_GREATER
  else if ascii_eqb c "!" then Some T_NOT
  else if ascii_eqb c ";" then Some T_SEMICOLON
  else if ascii_eqb c "(" then Some T_LPAREN
  else if ascii_eqb c ")" then Some T_RPAREN
  else if ascii_eqb c "{" then Some T_LBRACE
  else if ascii_eqb c "}" then Some T_RBRACE
  else if ascii_eqb c "[" then Some T_LBRACKET
  else if ascii_eqb c "]" then Some T_RBRACKET
  else if ascii_eqb c "." then Some T_DOT
  else if ascii_eqb c "$" then Some T_DOLLAR
  else if ascii_eqb c "," then Some T_COMMA
  else if ascii_eqb c ":" then Some T_COLON
  else if ascii_eqb c "#" then Some T_HASH
  else None.

(** The main loop of [tokenize]; [tokens] is the list built so far, in
    order.  Every turn consumes at least one character, so a fuel above
    the length of the text is never used up. *)
Fixpoint tokenize_loop (fuel : nat) (lx : lexer) (tokens : list Token)
  : lex_result (list Token) :=
  match current_char lx with
  | None => LexOk (tokens ++ [tok T_EOF])
  | Some c =>
      match fuel with
      | O => LexOutOfFuel
      | S fuel =>
          if Host.isspace c then tokenize_loop fuel (skip_whitespace lx) tokens
          else if ascii_eqb c "?" then
            match peek lx with
            | Some "-"%char => tokenize_loop fuel (skip_block_comment lx) tokens
            | _ => tokenize_loop fuel (skip_single_line_comment lx) tokens
            end
          else if Host.isdigit c then
            match number lx with
            | LexOk (t, lx') => tokenize_loop fuel lx' (tokens ++ [t])
            | LexRaise x => LexRaise x
            | LexOutOfFuel => LexOutOfFuel
            end
          else if ascii_eqb c quote then
            match string_ lx with
            | LexOk (t, lx') => tokenize_loop fuel lx' (tokens ++ [t])
            | LexRaise x => LexRaise x
            | LexOutOfFuel => LexOutOfFuel
            end
          else if Host.isalpha c || ascii_eqb c "_" then
            let '(t, lx') := identifier lx in
            tokenize_loop fuel lx' (tokens ++ [t])
          else
            match match peek lx with
                  | Some c' => two_char_operator c c'
                  | None => None
                  end with
            | Some t => tokenize_loop fuel (advance (advance lx)) (tokens ++ [tok t])
            | None =>
                match one_char_operator c with
                | Some t => tokenize_loop fuel (advance lx) (tokens ++ [tok t])
                | None =>
                    LexRaise (LexerError
                      "Unknown character '{char}' at line {self.line}, column {self.column}"
                      (Some c) (line lx) (column lx))
                end
            end
      end
  end.

(** [Lexer(text).tokenize()]. *)
Definition tokenize (text : string) : lex_result (list Token) :=
  tokenize_loop (S (String.length text)) (init text) [].

End Lexer.

(* ===================================================================== *)
(** * Syntax trees ([src/ast_nodes.py]) *)
(* ===================================================================== *)

Module Ast.
Import Lexer.
#[local] Set Warnings "-register-all".

(** The value of a [NumberNode]: an [int] or a [float]. *)
Inductive number : Set :=
| NInt (n : Z)
| NFloat (f : spec_float).

(** The [name] of a [FunctionCallNode]: the callee's identifier, the
    [LambdaNode] of an immediately invoked lambda, or [str(node)] for any
    other callee expression. *)
Inductive callee (N : Type) : Type :=
| CalleeName (name : string)
| CalleeLambda (params : list string) (body : N) (is_expression : bool)
| CalleeRepr (n : N).
Arguments CalleeName {N} name.
Arguments CalleeLambda {N} params body is_expression.
Arguments CalleeRepr {N} n.

(** One constructor per node class, with the fields of its
    [__init__]. *)
Inductive node : Type :=
| NumberNode (value : number)
| StringNode (value : string)
| BoolNode (value : bool)
| ArrayNode (elements : list node)
| SetNode (elements : list node)
| DictNode (pairs : list (node * node))
| IndexAccessNode (container_node key_node : node)
| IndexAssignNode (container_node : node) (key_node : option node) (value_node : node)
| VarAssignNode (name : string) (value_node : node) (constant : bool)
| VarReassignNode (name : string) (value_node : node)
| CompoundAssignNode (name : string) (value_node : node) (operator : TokenType)
| IncrementNode (name : string) (operator : TokenType) (prefix : bool)
| VarAccessNode (name : string)
| BinaryOpNode (left : node) (op : TokenType) (right : node)
| UnaryOpNode (op : TokenType) (operand : node)
| TypeCastNode (node_ : node) (target_type : TokenType)
| FormatNode (node_ : node) (precision : Z)
| PrintNode (value_nodes : list node)
| InputNode (input_type : option TokenType)
| IfNode (condition_node true_block : node) (elif_blocks : list (node * node))
         (false_block : option node)
| ForLoopNode (var_name : string) (iterable_node body : node)
| RangeNode (start_node : node) (stop_node step_node : option node)
| WhileLoopNode (condition_node body : node)
| DoWhileLoopNode (body condition_node : node)
| BreakNode
| ContinueNode
| BlockNode (statements : list node)
| LibImportNode (module_path : string)
| FunctionCallNode (name : callee node) (args : list node)
| FunctionDefNode (name : string) (params : list string) (body : node)
| LambdaNode (params : list string) (body : node) (is_expression : bool)
| ReturnNode (value_node : option node)
| DestructureAssignNode (var_names : list string) (value_node : node) (constant : bool).

End Ast.

(* ===================================================================== *)
(** * Parser ([src/parser.py]) *)
(* ===================================================================== *)

Module Parser.
Import Lexer Ast.

(** What the parser can raise: [ParserError] with its message (and the
    token types an [expect] interpolates), or a host exception. *)
Inductive parse_exception : Type :=
| ParserError (message : string) (expected : option TokenType) (got : option Token)
| ParseHost (e : Host.exception).

Inductive parse_result (A : Type) : Type :=
| ParseOk (a : A)
| ParseRaise (e : parse_exception)
| ParseOutOfFuel.
Arguments ParseOk {A} a.
Arguments ParseRaise {A} e.
Arguments ParseOutOfFuel {A}.

(** [class Parser]: the token list, [self.pos] and
    [self.current_token]. *)
Record parser : Type := mkParser {
  tokens : list Token;
  pos : nat;
  current_token : Token
}.

(** A method of the parser: it reads and updates [self] and returns or
    raises. *)
Definition P (A : Type) : Type := parser -> parse_result (A * parser).

Definition ret {A} (a : A) : P A := fun p => ParseOk (a, p).
Definition raise {A} (e : parse_exception) : P A := fun _ => ParseRaise e.
Definition out_of_fuel {A} : P A := fun _ => ParseOutOfFuel.
Definition bind {A B} (m : P A) (k : A -> P B) : P B :=
  fun p =>
    match m p with
    | ParseOk (a, p') => k a p'
    | ParseRaise e => ParseRaise e
    | ParseOutOfFuel => ParseOutOfFuel
    end.
Definition get : P parser := fun p => ParseOk (p, p).

Notation "'do' x <- m ; k" := (bind m (fun x => k))
  (at level 10, x name, m at level 100, k at level 200).
Notation "'do_' m ; k" := (bind m (fun _ => k))
  (at level 10, m at level 100, k at level 200).

(** [advance]: past the last token [current_token] stays as it is. *)
Definition advance : P unit :=
  fun p =>
    let pos' := S (pos p) in
    match tokens p !! pos' with
    | Some t => ParseOk (tt, mkParser (tokens p) pos' t)
    | None => ParseOk (tt, mkParser (tokens p) pos' (current_token p))
    end.

Definition peek (offset : nat) : P (option Token) :=
  fun p => ParseOk (tokens p !! (pos p + offset)%nat, p).

(** [self.current_token.type] and [self.current_token.value]. *)
Definition cur_type : P TokenType := fun p => ParseOk (type_ (current_token p), p).
Definition cur_value : P literal := fun p => ParseOk (value (current_token p), p).

Definition is_type (t : TokenType) : P bool :=
  do ty <- cur_type; ret (TokenType_eqb ty t).

Definition expect (token_type : TokenType) : P unit :=
  do p <- get;
  if TokenType_eqb (type_ (current_token p)) token_type
  then advance
  else raise (ParserError
    "Expected token {token_type}, got {self.current_token.type} with value {self.current_token.value}"
    (Some token_type) (Some (current_token p))).

Definition error {A} (message : string) : P A := raise (ParserError message None None).

(** The entry points that the methods reach through [self] in a cycle;
    every call through this record descends one level of fuel. *)
Record methods : Type := mkMethods {
  m_statement : P node;
  m_expr : P node;
  m_unary : P node;
  m_power : P node
}.

Definition type_in (ty : TokenType) (ts : list TokenType) : bool :=
  existsb (TokenType_eqb ty) ts.

Definition cur_in (ts : list TokenType) : P bool :=
  do ty <- cur_type; ret (type_in ty ts).

(** The identifier carried by an [IDENT] token ([tokenize] always gives
    such a token a [str] payload). *)
Definition ident_name (v : literal) : string :=
  match v with
  | LitStr s => s
  | _ => EmptyString
  end.

(** A bound on the turns of a loop that consumes a token per turn. *)
Definition loop_fuel : P nat := fun p => ParseOk (S (length (tokens p)), p).

(** [names.append(self.current_token.value); self.advance()] after the
    check that the current token is an identifier. *)
Definition expect_name (message : string) : P string :=
  do ty <- cur_type;
  if TokenType_eqb ty T_IDENT
  then do v <- cur_value; do_ advance; ret (ident_name v)
  else error message.

(** [while self.current_token.type == COMMA: self.advance(); ...name...] *)
Fixpoint names_loop (fuel : nat) (message : string) (acc : list string)
  : P (list string) :=
  match fuel with
  | O => out_of_fuel
  | S fuel =>
      do comma <- is_type T_COMMA;
      if comma
      then do_ advance;
           do name <- expect_name message;
           names_loop fuel message (acc ++ [name])
      else ret acc
  end.

(** A parameter list or destructuring pattern up to its [closing]
    token, which is left under the cursor. *)
Definition names_until (closing : TokenType) (message : string) : P (list string) :=
  do closed <- is_type closing;
  if closed then ret []
  else do name <- expect_name message;
       do fuel <- loop_fuel;
       names_loop fuel message [name].

(** [while COMMA: advance(); items.append(item())]; with
    [trailing = Some t] the loop breaks when [t] follows a comma. *)
Fixpoint items_loop {A} (fuel : nat) (item : P A) (trailing : option TokenType)
    (acc : list A) : P (list A) :=
  match fuel with
  | O => out_of_fuel
  | S fuel =>
      do comma <- is_type T_COMMA;
      if comma
      then do_ advance;
           do stop <- match trailing with
                      | Some t => is_type t
                      | None => ret false
                      end;
           if stop then ret acc
           else do x <- item; items_loop fuel item trailing (acc ++ [x])
      else ret acc
  end.

(** The items of a bracketed list up to its [closing] token. *)
Definition items_until {A} (closing : TokenType) (item : P A)
    (trailing : option TokenType) : P (list A) :=
  do closed <- is_type closing;
  if closed then ret []
  else do x <- item;
       do fuel <- loop_fuel;
       items_loop fuel item trailing [x].

Definition input_statement : P node :=
  do_ expect T_INPUT;
  do_ expect T_LPAREN;
  do ty <- cur_type;
  do input_type <-
    (if type_in ty [T_INT; T_FLOAT; T_STR; T_BOOL]
     then do_ advance; ret (Some ty)
     else ret None);
  do_ expect T_RPAREN;
  ret (InputNode input_type).

Definition array_literal (self : methods) : P node :=
  do_ expect T_LBRACKET;
  do elements <- items_until T_RBRACKET (m_expr self) (Some T_RBRACKET);
  do_ expect T_RBRACKET;
  ret (ArrayNode elements).

Definition set_literal (self : methods) : P node :=
  do_ expect T_HASH;
  do_ expect T_LBRACE;
  do elements <- items_until T_RBRACE (m_expr self) (Some T_RBRACE);
  do_ expect T_RBRACE;
  ret (SetNode elements).

Definition dict_pair (self : methods) : P (node * node) :=
  do key_node <- m_expr self;
  do_ expect T_COLON;
  do value_node <- m_expr self;
  ret (key_node, value_node).

Definition dict_literal (self : methods) : P node :=
  do_ expect T_LBRACE;
  do pairs <- items_until T_RBRACE (dict_pair self) (Some T_RBRACE);
  do_ expect T_RBRACE;
  ret (DictNode pairs).

(** [block]: [{ statement* }]. *)
Fixpoint block_loop (fuel : nat) (self : methods) (statements : list node)
  : P (list node) :=
  match fuel with
  | O => out_of_fuel
  | S fuel =>
      do ty <- cur_type;
      if TokenType_eqb ty T_RBRACE then ret statements
      else if TokenType_eqb ty T_EOF then error "Unexpected EOF, expected '}'"
      else do stmt <- m_statement self;
           block_loop fuel self (statements ++ [stmt])
  end.

Definition block (self : methods) : P node :=
  do_ expect T_LBRACE;
  do fuel <- loop_fuel;
  do statements <- block_loop fuel self [];
  do_ expect T_RBRACE;
  ret (BlockNode statements).

Definition lambda_func (self : methods) : P node :=
  do_ expect T_LAMB;
  do_ expect T_LPAREN;
  do params <- names_until T_RPAREN "Expected parameter name in lambda";
  do_ expect T_RPAREN;
  do_ expect T_ARROW;
  do braced <- is_type T_LBRACE;
  if braced
  then do body <- block self; ret (LambdaNode params body false)
  else do body <- m_expr self; ret (LambdaNode params body true).

Definition cast_types : list TokenType := [T_INT; T_FLOAT; T_STR; T_BOOL].

(** The lookahead shared by [primary] and [call]: the tokens after the
    open parenthesis are a type keyword and a close parenthesis. *)
Definition cast_ahead : P bool :=
  do next_token <- peek 1;
  match next_token with
  | Some t1 =>
      if type_in (type_ t1) cast_types
      then do peek_after <- peek 2;
           match peek_after with
           | Some t2 => ret (TokenType_eqb (type_ t2) T_RPAREN)
           | None => ret false
           end
      else ret false
  | None => ret false
  end.

(** The scan of [primary] that tells a dictionary literal from a block:
    at most 15 tokens ahead, looking for a colon outside any bracket. *)
Fixpoint dict_scan (fuel : nat) (toks : list Token) (bound temp_pos : nat)
    (paren_depth bracket_depth brace_depth : Z) : bool :=
  match fuel with
  | O => false
  | S fuel =>
      if (temp_pos <? bound)%nat then
        match toks !! temp_pos with
        | None => false
        | Some t =>
            let next := dict_scan fuel toks bound (S temp_pos) in
            match type_ t with
            | T_LPAREN => next (paren_depth + 1) bracket_depth brace_depth
            | T_RPAREN => next (paren_depth - 1) bracket_depth brace_depth
            | T_LBRACKET => next paren_depth (bracket_depth + 1) brace_depth
            | T_RBRACKET => next paren_depth (bracket_depth - 1) brace_depth
            | T_LBRACE => next paren_depth bracket_depth (brace_depth + 1)
            | T_RBRACE =>
                if 0 <? brace_depth
                then next paren_depth bracket_depth (brace_depth - 1)
                else false
            | T_COLON =>
                if (paren_depth =? 0) && (bracket_depth =? 0) && (brace_depth =? 0)
                then true
                else next paren_depth bracket_depth brace_depth
            | T_SEMICOLON => false
            | _ => next paren_depth bracket_depth brace_depth
            end
        end
      else false
  end.

Definition found_colon : P bool :=
  fun p => ParseOk (dict_scan 15 (tokens p) (pos p + 15) (pos p + 1) 0 0 0, p).

Definition number_of_literal (v : literal) : number :=
  match v with
  | LitFloat f => NFloat f
  | LitInt n => NInt n
  | _ => NInt 0
  end.

Definition primary (self : methods) : P node :=
  do p <- get;
  let token := current_token p in
  match type_ token with
  | T_LAMB => lambda_func self
  | T_LPAREN =>
      do cast <- cast_ahead;
      if cast then
        do_ advance;
        do target_type <- cur_type;
        do_ advance;
        do_ expect T_RPAREN;
        do e <- m_unary self;
        ret (TypeCastNode e target_type)
      else
        do_ advance;
        do e <- m_expr self;
        do_ expect T_RPAREN;
        ret e
  | T_NUMBER => do_ advance; ret (NumberNode (number_of_literal (value token)))
  | T_STRING => do_ advance; ret (StringNode (ident_name (value token)))
  | T_TRUE => do_ advance; ret (BoolNode true)
  | T_FALSE => do_ advance; ret (BoolNode false)
  | T_LBRACKET => array_literal self
  | T_LBRACE =>
      do next_token <- peek 1;
      match next_token with
      | Some t1 =>
          if TokenType_eqb (type_ t1) T_RBRACE then dict_literal self
          else do colon <- found_colon;
               if colon then dict_literal self
               else error "Unexpected '{' in expression context"
      | None => error "Unexpected '{' in expression context"
      end
  | T_HASH => set_literal self
  | T_INPUT => input_statement
  | T_IDENT => do_ advance; ret (VarAccessNode (ident_name (value token)))
  | _ => raise (ParserError "Unexpected token in expression: {token}" None (Some token))
  end.

(** [int(self.current_token.value)] for the precision of a format
    suffix. *)
Definition precision_of (v : literal) : P Z :=
  match v with
  | LitInt n => ret n
  | LitFloat f =>
      match Host.int_of_float f with
      | Some n => ret n
      | None => raise (ParseHost Host.OverflowError)
      end
  | _ => ret 0
  end.

(** The node a parenthesised argument list turns its callee into. *)
Definition make_call (callee_node : node) (args : list node) : P node :=
  match callee_node with
  | VarAccessNode name =>
      if String.eqb name "range" then
        match args with
        | [a] => ret (RangeNode (NumberNode (NInt 1)) (Some a) (Some (NumberNode (NInt 1))))
        | [a; b] => ret (RangeNode a (Some b) (Some (NumberNode (NInt 1))))
        | [a; b; c] => ret (RangeNode a (Some b) (Some c))
        | _ => error "range() takes 1, 2, or 3 arguments"
        end
      else ret (FunctionCallNode (CalleeName name) args)
  | LambdaNode params body is_expression =>
      ret (FunctionCallNode (CalleeLambda params body is_expression) args)
  | _ => ret (FunctionCallNode (CalleeRepr callee_node) args)
  end.

(** The [while True] loop of [call]: casts, argument lists and format
    suffixes after a primary. *)
Fixpoint call_loop (fuel : nat) (self : methods) (nd : node) : P node :=
  match fuel with
  | O => out_of_fuel
  | S fuel =>
      do ty <- cur_type;
      if TokenType_eqb ty T_LPAREN then
        do next_token <- peek 1;
        match next_token with
        | Some _ =>
            do cast <- cast_ahead;
            if cast then
              do_ advance;
              do target_type <- cur_type;
              do_ advance;
              do_ expect T_RPAREN;
              call_loop fuel self (TypeCastNode nd target_type)
            else
              do_ advance;
              do args <- items_until T_RPAREN (m_expr self) None;
              do_ expect T_RPAREN;
              do nd' <- make_call nd args;
              call_loop fuel self nd'
        | None => ret nd
        end
      else if TokenType_eqb ty T_DOT then
        do next_token <- peek 1;
        match next_token with
        | Some t1 =>
            if TokenType_eqb (type_ t1) T_NUMBER then
              do_ advance;
              do v <- cur_value;
              do precision <- precision_of v;
              do_ advance;
              do p <- get;
              if TokenType_eqb (type_ (current_token p)) T_IDENT
                 && match value (current_token p) with
                    | LitStr s => String.eqb s "f"
                    | _ => false
                    end
              then do_ advance; call_loop fuel self (FormatNode nd precision)
              else error "Expected 'f' after decimal precision"
            else ret nd
        | None => ret nd
        end
      else ret nd
  end.

Definition call (self : methods) : P node :=
  do nd <- primary self;
  do fuel <- loop_fuel;
  call_loop fuel self nd.

(** [postfix]: a chain of index accesses. *)
Fixpoint postfix_loop (fuel : nat) (self : methods) (nd : node) : P node :=
  match fuel with
  | O => out_of_fuel
  | S fuel =>
      do bracket <- is_type T_LBRACKET;
      if bracket then
        do_ advance;
        do index_node <- m_expr self;
        do_ expect T_RBRACKET;
        postfix_loop fuel self (IndexAccessNode nd index_node)
      else ret nd
  end.

Definition postfix (self : methods) : P node :=
  do nd <- call self;
  do fuel <- loop_fuel;
  postfix_loop fuel self nd.

Definition unary (self : methods) : P node :=
  do ty <- cur_type;
  if type_in ty [T_MINUS; T_NOT] then
    do_ advance;
    do operand <- m_unary self;
    ret (UnaryOpNode ty operand)
  else postfix self.

(** [power]: right associative through the recursive call. *)
Definition power (self : methods) : P node :=
  do left <- unary self;
  do pow <- is_type T_POWER;
  if pow then
    do_ advance;
    do right <- m_power self;
    ret (BinaryOpNode left T_POWER right)
  else ret left.

(** The loop shared by the left-associative levels: [while
    self.current_token.type in ops: op = ...; self.advance(); right =
    operand(); left = BinaryOpNode(left, op, right)]. *)
Fixpoint binary_loop (fuel : nat) (ops : list TokenType) (operand : P node)
    (left : node) : P node :=
  match fuel with
  | O => out_of_fuel
  | S fuel =>
      do op <- cur_type;
      if type_in op ops then
        do_ advance;
        do right <- operand;
        binary_loop fuel ops operand (BinaryOpNode left op right)
      else ret left
  end.

Definition binary_level (ops : list TokenType) (operand : P node) : P node :=
  do left <- operand;
  do fuel <- loop_fuel;
  binary_loop fuel ops operand left.

Definition term (self : methods) : P node :=
  binary_level [T_MULTIPLY; T_DIVIDE; T_MODULO] (power self).

Definition arith_expr (self : methods) : P node :=
  binary_level [T_PLUS; T_MINUS] (term self).

Definition comparison (self : methods) : P node :=
  binary_level [T_EQUAL; T_NOT_EQUAL; T_LESS; T_GREATER; T_LESS_EQUAL;
                T_GREATER_EQUAL] (arith_expr self).

Definition and_expr (self : methods) : P node :=
  binary_level [T_AND] (comparison self).

Definition or_expr (self : methods) : P node :=
  binary_level [T_OR] (and_expr self).

Definition expr (self : methods) : P node := or_expr self.

Definition function_def (self : methods) : P node :=
  do_ expect T_FUN;
  do func_name <- expect_name "Expected function name after 'fun'";
  do_ expect T_LPAREN;
  do params <- names_until T_RPAREN "Expected parameter name";
  do_ expect T_RPAREN;
  do body <- block self;
  ret (FunctionDefNode func_name params body).

Definition return_statement (self : methods) : P node :=
  do_ expect T_RETURN;
  do bare <- is_type T_SEMICOLON;
  if bare then do_ advance; ret (ReturnNode None)
  else do v <- expr self;
       do_ expect T_SEMICOLON;
       ret (ReturnNode (Some v)).

Definition index_assign (self : methods) : P node :=
  do index_chain <- postfix self;
  match index_chain with
  | IndexAccessNode _ _ =>
      do_ expect T_AS;
      do value_node <- expr self;
      do_ expect T_SEMICOLON;
      ret (IndexAssignNode index_chain None value_node)
  | _ => error "Expected index access before 'as'"
  end.

Definition prefix_increment : P node :=
  do operator <- cur_type;
  do_ advance;
  do var_name <- expect_name "Expected variable name after prefix increment/decrement";
  do_ expect T_SEMICOLON;
  ret (IncrementNode var_name operator true).

Definition postfix_increment : P node :=
  do var_name <- expect_name "Expected variable name";
  do operator <- cur_type;
  do_ advance;
  do_ expect T_SEMICOLON;
  ret (IncrementNode var_name operator false).

Definition compound_assign (self : methods) : P node :=
  do operator <- cur_type;
  do_ advance;
  do value_node <- primary self;
  do var_name <- expect_name "Expected variable name in compound assignment";
  do_ expect T_SEMICOLON;
  ret (CompoundAssignNode var_name value_node operator).

(** [while self.current_token.type == DOT: ...] of [lib_import]. *)
Fixpoint module_path_loop (fuel : nat) (module_path : string) : P string :=
  match fuel with
  | O => out_of_fuel
  | S fuel =>
      do dot <- is_type T_DOT;
      if dot then
        do_ advance;
        do name <- expect_name "Expected module name after '.'";
        module_path_loop fuel (module_path +:+ "." +:+ name)
      else ret module_path
  end.

Definition lib_import : P node :=
  do_ expect T_LIB;
  do_ expect T_DOLLAR;
  do lib_name <- expect_name "Expected library name after '$'";
  do fuel <- loop_fuel;
  do module_path <- module_path_loop fuel lib_name;
  do_ expect T_SEMICOLON;
  ret (LibImportNode module_path).

Definition var_assign (self : methods) (constant : bool) : P node :=
  do_ expect (if constant then T_LOCK else T_LET);
  do bracket <- is_type T_LBRACKET;
  if bracket then
    do_ advance;
    do var_names <- names_until T_RBRACKET
                      "Expected variable name in destructuring pattern";
    do_ expect T_RBRACKET;
    do_ expect T_AS;
    do value_node <- expr self;
    do_ expect T_SEMICOLON;
    ret (DestructureAssignNode var_names value_node constant)
  else
    do var_name <- expect_name "Expected variable name after 'let'/'lock'";
    do_ expect T_AS;
    do value_node <- expr self;
    do_ expect T_SEMICOLON;
    ret (VarAssignNode var_name value_node constant).

Definition var_reassign (self : methods) : P node :=
  do var_name <- expect_name "Expected variable name";
  do_ expect T_AS;
  do value_node <- expr self;
  do_ expect T_SEMICOLON;
  ret (VarReassignNode var_name value_node).

Definition for_loop (self : methods) : P node :=
  do_ expect T_FOR;
  do var_name <- expect_name "Expected variable name after 'for'";
  do_ expect T_IN;
  do iterable <- expr self;
  do body <- block self;
  ret (ForLoopNode var_name iterable body).

Definition while_loop (self : methods) : P node :=
  do_ expect T_WHILE;
  do condition <- expr self;
  do body <- block self;
  ret (WhileLoopNode condition body).

Definition do_while_loop (self : methods) : P node :=
  do_ expect T_DO;
  do body <- block self;
  do_ expect T_WHILE;
  do condition <- expr self;
  do_ expect T_SEMICOLON;
  ret (DoWhileLoopNode body condition).

Definition print_statement (self : methods) : P node :=
  do_ expect T_PRINT;
  do_ expect T_LPAREN;
  do values <- items_until T_RPAREN (expr self) None;
  do_ expect T_RPAREN;
  do_ expect T_SEMICOLON;
  ret (PrintNode values).

Fixpoint elif_loop (fuel : nat) (self : methods) (elif_blocks : list (node * node))
  : P (list (node * node)) :=
  match fuel with
  | O => out_of_fuel
  | S fuel =>
      do more <- is_type T_ELIF;
      if more then
        do_ expect T_ELIF;
        do elif_condition <- expr self;
        do elif_block <- block self;
        elif_loop fuel self (elif_blocks ++ [(elif_condition, elif_block)])
      else ret elif_blocks
  end.

Definition if_statement (self : methods) : P node :=
  do_ expect T_IF;
  do condition <- expr self;
  do true_block <- block self;
  do fuel <- loop_fuel;
  do elif_blocks <- elif_loop fuel self [];
  do has_else <- is_type T_ELSE;
  do false_block <-
    (if has_else
     then do_ expect T_ELSE; do b <- block self; ret (Some b)
     else ret None);
  ret (IfNode condition true_block elif_blocks false_block).

(** The inner loop of the index-assignment lookahead: skip to the
    bracket that closes the one just opened. *)
Fixpoint skip_bracket_pair (fuel : nat) (toks : list Token)
    (temp_pos bracket_count : nat) : nat :=
  match fuel with
  | O => temp_pos
  | S fuel =>
      match toks !! temp_pos with
      | Some t =>
          if (0 <? bracket_count)%nat then
            let bracket_count :=
              if TokenType_eqb (type_ t) T_LBRACKET then S bracket_count
              else if TokenType_eqb (type_ t) T_RBRACKET then Nat.pred bracket_count
              else bracket_count in
            skip_bracket_pair fuel toks (S temp_pos) bracket_count
          else temp_pos
      | None => temp_pos
      end
  end.

(** The outer loop: skip every bracket pair that follows the name. *)
Fixpoint skip_bracket_chain (fuel : nat) (toks : list Token) (temp_pos : nat) : nat :=
  match fuel with
  | O => temp_pos
  | S fuel =>
      match toks !! temp_pos with
      | Some t =>
          if TokenType_eqb (type_ t) T_LBRACKET
          then skip_bracket_chain fuel toks
                 (skip_bracket_pair (length toks) toks (S temp_pos) 1)
          else temp_pos
      | None => temp_pos
      end
  end.

(** Whether [as] follows the whole chain of brackets after the name. *)
Definition as_after_brackets : P bool :=
  fun p =>
    let toks := tokens p in
    let temp_pos := skip_bracket_chain (length toks) toks (pos p + 1) in
    ParseOk (match toks !! temp_pos with
             | Some t => TokenType_eqb (type_ t) T_AS
             | None => false
             end, p).

Definition expression_statement (self : methods) : P node :=
  do e <- expr self;
  do_ expect T_SEMICOLON;
  ret e.

(** [statement]: dispatch on the current token, with the lookahead of
    the identifier case. *)
Definition statement (self : methods) : P node :=
  do ty <- cur_type;
  match ty with
  | T_FUN => function_def self
  | T_RETURN => return_statement self
  | T_LIB => lib_import
  | T_LET => var_assign self false
  | T_LOCK => var_assign self true
  | T_PRINT => print_statement self
  | T_IF => if_statement self
  | T_FOR => for_loop self
  | T_WHILE => while_loop self
  | T_DO => do_while_loop self
  | T_BREAK => do_ advance; do_ expect T_SEMICOLON; ret BreakNode
  | T_CONTINUE => do_ advance; do_ expect T_SEMICOLON; ret ContinueNode
  | T_INCREMENT | T_DECREMENT => prefix_increment
  | T_PLUS | T_MINUS | T_MULTIPLY | T_DIVIDE | T_MODULO | T_POWER =>
      compound_assign self
  | T_IDENT =>
      do next_token <- peek 1;
      match next_token with
      | Some t1 =>
          if type_in (type_ t1) [T_INCREMENT; T_DECREMENT] then postfix_increment
          else
            do indexed <- (if TokenType_eqb (type_ t1) T_LBRACKET
                           then as_after_brackets else ret false);
            if indexed then index_assign self
            else if TokenType_eqb (type_ t1) T_AS then var_reassign self
            else expression_statement self
      | None => expression_statement self
      end
  | _ => expression_statement self
  end.

(** The methods with [fuel] levels of nested calls left. *)
Fixpoint methods_at (fuel : nat) : methods :=
  match fuel with
  | O => mkMethods out_of_fuel out_of_fuel out_of_fuel out_of_fuel
  | S fuel =>
      let self := methods_at fuel in
      mkMethods (statement self) (expr self) (unary self) (power self)
  end.

(** The loop of [parse]: statements up to the end-of-input token. *)
Fixpoint parse_loop (fuel : nat) (self : methods) (statements : list node)
  : P (list node) :=
  match fuel with
  | O => out_of_fuel
  | S fuel =>
      do eof <- is_type T_EOF;
      if eof then ret statements
      else do stmt <- m_statement self;
           parse_loop fuel self (statements ++ [stmt])
  end.

(** [Parser(tokens).parse()], with [fuel] bounding the nesting of the
    recursive descent.  An empty token list leaves [current_token] at
    [None], and reading its type raises the host's [AttributeError]. *)
Definition parse (fuel : nat) (toks : list Token) : parse_result node :=
  match toks with
  | [] => ParseRaise (ParseHost Host.AttributeError)
  | t :: _ =>
      match parse_loop (S (length toks)) (methods_at fuel) [] (mkParser toks 0 t) with
      | ParseOk (statements, _) => ParseOk (BlockNode statements)
      | ParseRaise e => ParseRaise e
      | ParseOutOfFuel => ParseOutOfFuel
      end
  end.

End Parser.

(* ===================================================================== *)
(** * Interpreter ([src/interpreter.py]) *)
(* ===================================================================== *)

Module Interpreter.
Import Lexer Ast.

(** ** Values, exceptions and the interpreter state *)

(** A list object lives in the heap and a value refers to it, so that
    two bindings can alias one array. *)
Definition loc : Set := nat.

(** The objects a program of the modelled fragment computes with.  A
    [PuffingFunction] and a [PuffingLambda] carry the identity [id] of
    the object, which [==] compares.  Dictionaries, sets and the native
    functions of the two libraries are outside the embedding. *)
Inductive value : Type :=
| VNone
| VBool (b : bool)
| VInt (n : Z)
| VFloat (f : spec_float)
| VStr (s : string)
| VList (l : loc)
| VFunction (id : nat) (name : string) (params : list string) (body : node)
| VLambda (id : nat) (params : list string) (body : node) (is_expression : bool).

(** The exceptions that travel through the evaluator: the two classes of
    [src/errors.py] that it raises, the three control-flow signals of
    [src/interpreter.py], and exceptions of the host.
    [PuffingRuntimeError] is [errors.RuntimeError]; its [message] is the
    text of the source with the interpolated [args] kept aside. *)
Inductive exn : Type :=
| PuffingRuntimeError (message : string) (args : list value)
| VariableNotDefinedError (var_name : string)
| BreakException
| ContinueException
| ReturnException (v : value)
| HostException (e : Host.exception).

(** [isinstance(e, PuffingRuntimeError)]: what [except
    PuffingRuntimeError] in a caller of [run] catches. *)
Definition is_runtime_error (e : exn) : bool :=
  match e with
  | PuffingRuntimeError _ _ | VariableNotDefinedError _ => true
  | _ => false
  end.

(** [class Interpreter]: [self.variables], [self.constants], the heap of
    list objects, the next object identity, and the text written to
    standard output. *)
Record interp : Type := mkInterp {
  variables : gmap string value;
  constants : gset string;
  heap : list (list value);
  next_id : nat;
  stdout : string
}.

(** [Interpreter()]. *)
Definition new_interp : interp := mkInterp ∅ ∅ [] 0 EmptyString.

Definition set_variables (vars : gmap string value) (st : interp) : interp :=
  mkInterp vars (constants st) (heap st) (next_id st) (stdout st).
Definition set_constants (cs : gset string) (st : interp) : interp :=
  mkInterp (variables st) cs (heap st) (next_id st) (stdout st).
Definition set_heap (h : list (list value)) (st : interp) : interp :=
  mkInterp (variables st) (constants st) h (next_id st) (stdout st).
Definition set_stdout (out : string) (st : interp) : interp :=
  mkInterp (variables st) (constants st) (heap st) (next_id st) out.

(** How a computation ends: it returns, it raises, the fuel of the
    embedding runs out, or it reaches a host facility that the embedding
    does not describe (named by [what]). *)
Inductive result (A : Type) : Type :=
| Ok (a : A)
| Raise (e : exn)
| OutOfFuel
| Unmodelled (what : string).
Arguments Ok {A} a.
Arguments Raise {A} e.
Arguments OutOfFuel {A}.
Arguments Unmodelled {A} what.

(** A computation of the interpreter: the state is threaded through and
    is there after an exception too, as [finally] clauses and the
    caller of [run] see it. *)
Definition M (A : Type) : Type := interp -> result A * interp.

Definition ret {A} (a : A) : M A := fun st => (Ok a, st).
Definition raise {A} (e : exn) : M A := fun st => (Raise e, st).
Definition host_raise {A} (e : Host.exception) : M A := raise (HostException e).
Definition error {A} (message : string) (args : list value) : M A :=
  raise (PuffingRuntimeError message args).
Definition out_of_fuel {A} : M A := fun st => (OutOfFuel, st).
Definition unmodelled {A} (what : string) : M A := fun st => (Unmodelled what, st).

Definition bind {A B} (m : M A) (k : A -> M B) : M B :=
  fun st =>
    match m st with
    | (Ok a, st') => k a st'
    | (Raise e, st') => (Raise e, st')
    | (OutOfFuel, st') => (OutOfFuel, st')
    | (Unmodelled w, st') => (Unmodelled w, st')
    end.

Notation "'do' x <- m ; k" := (bind m (fun x => k))
  (at level 10, x name, m at level 100, k at level 200).
Notation "'do_' m ; k" := (bind m (fun _ => k))
  (at level 10, m at level 100, k at level 200).

Definition get : M interp := fun st => (Ok st, st).
Definition modify (f : interp -> interp) : M unit := fun st => (Ok tt, f st).

(** [try: m finally: cleanup], for a [cleanup] that cannot raise. *)
Definition try_finally {A} (m : M A) (cleanup : interp -> interp) : M A :=
  fun st => let '(r, st') := m st in (r, cleanup st').

(** [try: m except ReturnException as e: return e.value]. *)
Definition catch_return (m : M value) : M value :=
  fun st =>
    match m st with
    | (Raise (ReturnException v), st') => (Ok v, st')
    | other => other
    end.

(** A frame at depth [depth] calls a method: the host refuses the call
    with [RecursionError] when [limit] frames are in use, and otherwise
    the method runs one frame deeper. *)
Definition enter {A} (limit depth : nat) (method : nat -> M A) : M A :=
  if (limit <=? depth)%nat then host_raise Host.RecursionError
  else method (S depth).

Definition lookup_var (name : string) : M (option value) :=
  fun st => (Ok (variables st !! name), st).
Definition store_var (name : string) (v : value) : M unit :=
  modify (fun st => set_variables (<[name := v]> (variables st)) st).
Definition is_constant (name : string) : M bool :=
  fun st => (Ok (bool_decide (name ∈ constants st)), st).

(** Allocation of a list object, and reads and writes through a
    reference. *)
Definition alloc_list (xs : list value) : M value :=
  fun st => (Ok (VList (length (heap st))), set_heap (heap st ++ [xs]) st).
Definition read_list (l : loc) : M (list value) :=
  fun st => (Ok (default [] (heap st !! l)), st).
Definition write_list (l : loc) (xs : list value) : M unit :=
  modify (fun st => set_heap (<[l := xs]> (heap st)) st).
Definition fresh_id : M nat :=
  fun st => (Ok (next_id st),
             mkInterp (variables st) (constants st) (heap st) (S (next_id st)) (stdout st)).

(** ** The host's operators on values *)

(** The numeric tower: [bool] is a subclass of [int]. *)
Inductive num : Set :=
| NumInt (n : Z)
| NumFloat (f : spec_float).

Definition as_num (v : value) : option num :=
  match v with
  | VBool b => Some (NumInt (Z.b2z b))
  | VInt n => Some (NumInt n)
  | VFloat f => Some (NumFloat f)
  | _ => None
  end.

(** [isinstance(v, int)], with the integer [v] stands for. *)
Definition as_int (v : value) : option Z :=
  match v with
  | VBool b => Some (Z.b2z b)
  | VInt n => Some n
  | _ => None
  end.

(** [float(n)] for an [int]: too large a value is an [OverflowError]. *)
Definition float_of_int (n : Z) : M spec_float :=
  match Host.float_of_Z n with
  | S754_infinity _ => host_raise Host.OverflowError
  | f => ret f
  end.

Definition float_of_num (x : num) : M spec_float :=
  match x with
  | NumInt n => float_of_int n
  | NumFloat f => ret f
  end.

Definition float_is_zero (f : spec_float) : bool :=
  match f with
  | S754_zero _ => true
  | _ => false
  end.

(** Exact comparison of an [int] with a [float]. *)
Definition compare_int_float (n : Z) (f : spec_float) : option comparison :=
  match f with
  | S754_nan => None
  | S754_infinity s => Some (if s then Gt else Lt)
  | S754_zero _ => Some (n ?= 0)
  | S754_finite s m e =>
      let signed := if s then Zneg m else Zpos m in
      Some (if 0 <=? e then n ?= signed * 2 ^ e
            else n * 2 ^ (- e) ?= signed)
  end.

(** Comparison of two numbers; [None] when a NaN is involved. *)
Definition num_compare (a b : num) : option comparison :=
  match a, b with
  | NumInt x, NumInt y => Some (x ?= y)
  | NumFloat x, NumFloat y => SFcompare x y
  | NumInt x, NumFloat y => compare_int_float x y
  | NumFloat x, NumInt y => option_map CompOpp (compare_int_float y x)
  end.

(** [+], [-] and [*] on two numbers: exact on integers, binary64 as
    soon as a float is involved. *)
Definition num_arith (int_op : Z -> Z -> Z)
    (float_op : spec_float -> spec_float -> spec_float) (a b : num) : M value :=
  match a, b with
  | NumInt x, NumInt y => ret (VInt (int_op x y))
  | _, _ =>
      do x <- float_of_num a;
      do y <- float_of_num b;
      ret (VFloat (float_op x y))
  end.

(** [x / y] on integers with [y] not zero: the correctly rounded
    quotient, or [OverflowError]. *)
Definition int_truediv (x y : Z) : M value :=
  let quotient :=
    match x, y with
    | Z0, _ => S754_zero (y <? 0)
    | _, Z0 => S754_nan
    | _, _ => SFdiv Host.prec Host.emax
                (S754_finite (x <? 0) (Z.to_pos (Z.abs x)) 0)
                (S754_finite (y <? 0) (Z.to_pos (Z.abs y)) 0)
    end in
  match quotient with
  | S754_infinity _ => host_raise Host.OverflowError
  | q => ret (VFloat q)
  end.

(** C's [fmod] on binary64, for a divisor that is not zero: the exact
    remainder, with the sign of the dividend. *)
Definition fmod (x y : spec_float) : spec_float :=
  match x, y with
  | S754_nan, _ | _, S754_nan => S754_nan
  | S754_infinity _, _ => S754_nan
  | _, S754_infinity _ => x
  | S754_zero _, _ => x
  | S754_finite _ _ _, S754_zero _ => S754_nan
  | S754_finite sx mx ex, S754_finite _ my ey =>
      let e := Z.min ex ey in
      let r := (Zpos mx * 2 ^ (ex - e)) mod (Zpos my * 2 ^ (ey - e)) in
      if r =? 0 then S754_zero sx
      else binary_normalize Host.prec Host.emax (if sx then - r else r) e false
  end.

Definition float_negative (f : spec_float) : bool :=
  SFltb f (S754_zero false).

(** [float.__mod__]: the remainder takes the sign of the divisor. *)
Definition float_mod (vx wx : spec_float) : M value :=
  if float_is_zero wx then host_raise Host.ZeroDivisionError
  else
    let m := fmod vx wx in
    if float_is_zero m
    then ret (VFloat (S754_zero (match wx with
                                 | S754_finite s _ _ | S754_infinity s => s
                                 | _ => false
                                 end)))
    else if xorb (float_negative wx) (float_negative m)
         then ret (VFloat (SFadd Host.prec Host.emax m wx))
         else ret (VFloat m).

Fixpoint repeat_string (n : nat) (s : string) : string :=
  match n with
  | O => EmptyString
  | S n => s +:+ repeat_string n s
  end.

Fixpoint repeat_list {A} (n : nat) (xs : list A) : list A :=
  match n with
  | O => []
  | S n => xs ++ repeat_list n xs
  end.

(** Python's [a + b]. *)
Definition py_add (a b : value) : M value :=
  match as_num a, as_num b with
  | Some x, Some y => num_arith Z.add (SFadd Host.prec Host.emax) x y
  | _, _ =>
      match a, b with
      | VStr s1, VStr s2 => ret (VStr (s1 +:+ s2))
      | VList l1, VList l2 =>
          do xs <- read_list l1;
          do ys <- read_list l2;
          alloc_list (xs ++ ys)
      | _, _ => host_raise Host.TypeError
      end
  end.

(** Python's [a - b]. *)
Definition py_sub (a b : value) : M value :=
  match as_num a, as_num b with
  | Some x, Some y => num_arith Z.sub (SFsub Host.prec Host.emax) x y
  | _, _ => host_raise Host.TypeError
  end.

(** Python's [a * b]: a sequence times an integer repeats it. *)
Definition py_mul (a b : value) : M value :=
  match as_num a, as_num b with
  | Some x, Some y => num_arith Z.mul (SFmul Host.prec Host.emax) x y
  | _, _ =>
      match a, as_int b, as_int a, b with
      | VStr s, Some n, _, _ | _, _, Some n, VStr s =>
          ret (VStr (repeat_string (Z.to_nat n) s))
      | VList l, Some n, _, _ | _, _, Some n, VList l =>
          do xs <- read_list l;
          alloc_list (repeat_list (Z.to_nat n) xs)
      | _, _, _, _ => host_raise Host.TypeError
      end
  end.

(** Python's [a / b]: true division. *)
Definition py_truediv (a b : value) : M value :=
  match as_num a, as_num b with
  | Some (NumInt x), Some (NumInt y) =>
      if y =? 0 then host_raise Host.ZeroDivisionError else int_truediv x y
  | Some x, Some y =>
      do fx <- float_of_num x;
      do fy <- float_of_num y;
      if float_is_zero fy then host_raise Host.ZeroDivisionError
      else ret (VFloat (SFdiv Host.prec Host.emax fx fy))
  | _, _ => host_raise Host.TypeError
  end.

(** Python's [a % b].  With a [str] on the left it is printf-style
    formatting, which the embedding leaves out. *)
Definition py_mod (a b : value) : M value :=
  match as_num a, as_num b with
  | Some (NumInt x), Some (NumInt y) =>
      if y =? 0 then host_raise Host.ZeroDivisionError else ret (VInt (x mod y))
  | Some x, Some y =>
      do fx <- float_of_num x;
      do fy <- float_of_num y;
      float_mod fx fy
  | _, _ =>
      match a with
      | VStr _ => unmodelled "str % value"
      | _ => host_raise Host.TypeError
      end
  end.

(** Python's [a ** b]: exact for an integer raised to a natural power;
    every other numeric case is the [pow] of the host's C library. *)
Definition py_pow (a b : value) : M value :=
  match as_num a, as_num b with
  | Some (NumInt x), Some (NumInt y) =>
      if 0 <=? y then ret (VInt (x ^ y)) else unmodelled "float pow"
  | Some _, Some _ => unmodelled "float pow"
  | _, _ => host_raise Host.TypeError
  end.

(** Python's [- a]. *)
Definition py_neg (a : value) : M value :=
  match as_num a with
  | Some (NumInt x) => ret (VInt (- x))
  | Some (NumFloat f) => ret (VFloat (SFopp f))
  | None => host_raise Host.TypeError
  end.

(** Python's [a == b].  Lists are compared element by element, an
    element that is the same object on both sides counting as equal;
    functions and lambdas are equal to themselves only.  (The identity
    of an immutable scalar is not part of the embedding: a NaN stored
    in a list is compared by value.) *)
Fixpoint py_eq (fuel : nat) (a b : value) : M bool :=
  match fuel with
  | O => out_of_fuel
  | S fuel =>
      match as_num a, as_num b with
      | Some x, Some y =>
          ret (match num_compare x y with Some Eq => true | _ => false end)
      | _, _ =>
          match a, b with
          | VNone, VNone => ret true
          | VStr s1, VStr s2 => ret (String.eqb s1 s2)
          | VList l1, VList l2 =>
              if (l1 =? l2)%nat then ret true
              else
                do xs <- read_list l1;
                do ys <- read_list l2;
                if (length xs =? length ys)%nat then
                  (fix all_eq (xs ys : list value) : M bool :=
                     match xs, ys with
                     | x :: xs', y :: ys' =>
                         do e <- py_eq fuel x y;
                         if e then all_eq xs' ys' else ret false
                     | _, _ => ret true
                     end) xs ys
                else ret false
          | VFunction i _ _ _, VFunction j _ _ _ => ret (i =? j)%nat
          | VLambda i _ _ _, VLambda j _ _ _ => ret (i =? j)%nat
          | _, _ => ret false
          end
      end
  end.

(** The ordering operators [<], [>], [<=] and [>=]. *)
Inductive cmp_op : Set := CmpLt | CmpGt | CmpLe | CmpGe.

Definition cmp_holds (op : cmp_op) (c : option comparison) : bool :=
  match op, c with
  | CmpLt, Some Lt | CmpGt, Some Gt => true
  | CmpLe, Some (Lt | Eq) | CmpGe, Some (Gt | Eq) => true
  | _, _ => false
  end.

(** Python's ordering of two values: numbers by value (nothing holds for
    a NaN), strings by code points, lists lexicographically; anything
    else is a [TypeError]. *)
Fixpoint py_compare (fuel : nat) (op : cmp_op) (a b : value) : M bool :=
  match fuel with
  | O => out_of_fuel
  | S fuel =>
      match as_num a, as_num b with
      | Some x, Some y => ret (cmp_holds op (num_compare x y))
      | _, _ =>
          match a, b with
          | VStr s1, VStr s2 => ret (cmp_holds op (Some (String.compare s1 s2)))
          | VList l1, VList l2 =>
              do xs <- read_list l1;
              do ys <- read_list l2;
              (fix lexicographic (xs ys : list value) : M bool :=
                 match xs, ys with
                 | x :: xs', y :: ys' =>
                     do e <- py_eq fuel x y;
                     if e then lexicographic xs' ys' else py_compare fuel op x y
                 | _, _ =>
                     ret (cmp_holds op (Some (Nat.compare (length xs) (length ys))))
                 end) xs ys
          | _, _ => host_raise Host.TypeError
          end
      end
  end.

(** [is_truthy]. *)
Definition is_truthy (v : value) : M bool :=
  match v with
  | VNone => ret false
  | VBool b => ret b
  | VInt n => ret (negb (n =? 0))
  | VFloat f => ret (negb (float_is_zero f))
  | VStr s => ret (negb (String.eqb s EmptyString))
  | VList l => do xs <- read_list l; ret (negb (length xs =? 0)%nat)
  | VFunction _ _ _ _ | VLambda _ _ _ _ => ret true
  end.

(** Python's [str(v)].  The shortest-digits text of a float and the
    [repr] of the elements of a list are left out. *)
Definition py_str (v : value) : M string :=
  match v with
  | VNone => ret "None"
  | VBool b => ret (if b then "True" else "False")
  | VInt n => if Host.int_text_fits n then ret (pretty n) else host_raise Host.ValueError
  | VStr s => ret s
  | VFloat _ => unmodelled "str(float)"
  | VList _ => unmodelled "str(list)"
  | VFunction _ name _ _ => ret ("<function " +:+ name +:+ ">")
  | VLambda _ params _ _ =>
      ret ("<lambda (" +:+ pretty (length params) +:+ " params)>")
  end.

(** Whether the host can build the text of a value, as [str(v)] and a
    field [{v}] of an f-string do: the text of an integer of more than
    [Host.max_str_digits] digits is refused, also where the integer is
    an item of a list, at any depth.  The lists in [active] are the ones
    whose text is being built, which the host writes as [[...]] when it
    meets them again.  [None]: the fuel of the embedding ran out. *)
Fixpoint text_fits (fuel : nat) (h : list (list value)) (active : list loc) (v : value)
  : option bool :=
  match v with
  | VInt n => Some (Host.int_text_fits n)
  | VList l =>
      if bool_decide (l ∈ active) then Some true
      else
        match fuel with
        | O => None
        | S fuel =>
            (fix each (items : list value) : option bool :=
               match items with
               | [] => Some true
               | x :: items' =>
                   match text_fits fuel h (l :: active) x with
                   | Some true => each items'
                   | other => other
                   end
               end) (default [] (h !! l))
        end
  | _ => Some true
  end.

(** A field [{v}] of an f-string, evaluated for its effect: the text is
    kept aside (see [PuffingRuntimeError]), the [ValueError] of the host
    is not. *)
Definition format_field (fuel : nat) (v : value) : M unit :=
  fun st =>
    match text_fits fuel (heap st) [] v with
    | Some true => (Ok tt, st)
    | Some false => (Raise (HostException Host.ValueError), st)
    | None => (OutOfFuel, st)
    end.

(** Python's [int(v)]. *)
Definition py_int (v : value) : M Z :=
  match v with
  | VBool b => ret (Z.b2z b)
  | VInt n => ret n
  | VFloat f =>
      match Host.int_of_float f with
      | Some n => ret n
      | None => host_raise (match f with
                            | S754_nan => Host.ValueError
                            | _ => Host.OverflowError
                            end)
      end
  | VStr _ => unmodelled "int(str)"
  | _ => host_raise Host.TypeError
  end.

(** Python's [float(v)]. *)
Definition py_float (v : value) : M spec_float :=
  match as_num v with
  | Some x => float_of_num x
  | None =>
      match v with
      | VStr _ => unmodelled "float(str)"
      | _ => host_raise Host.TypeError
      end
  end.

(** [list(range(start, stop, step))]. *)
Definition py_range (start stop step : Z) : M (list Z) :=
  if step =? 0 then host_raise Host.ValueError
  else
    let count :=
      if 0 <? step
      then (stop - start + step - 1) / step
      else (start - stop - step - 1) / (- step) in
    ret (map (fun i => start + Z.of_nat i * step) (seq 0 (Z.to_nat count))).

(** ** Sequences and indices *)

(** [xs[i]] for a Python index: a negative [i] counts from the end;
    [None] is the host's [IndexError]. *)
Definition py_index {A} (xs : list A) (i : Z) : option A :=
  if i <? 0 then
    if 0 <=? Z.of_nat (length xs) + i
    then xs !! Z.to_nat (Z.of_nat (length xs) + i)
    else None
  else xs !! Z.to_nat i.

(** [xs[i] = v] for a Python index. *)
Definition py_set_index {A} (xs : list A) (i : Z) (v : A) : option (list A) :=
  let n := Z.of_nat (length xs) in
  let j := if i <? 0 then n + i else i in
  if (0 <=? j) && (j <? n) then Some (<[Z.to_nat j := v]> xs) else None.

(** [xs.insert(i, v)]: the position is clipped to the list. *)
Definition py_insert {A} (xs : list A) (i : Z) (v : A) : list A :=
  let n := Z.of_nat (length xs) in
  let j := if i <? 0 then Z.max 0 (n + i) else Z.min i n in
  take (Z.to_nat j) xs ++ v :: drop (Z.to_nat j) xs.

(** [xs.pop(i)]: the list without slot [i]. *)
Definition py_pop {A} (xs : list A) (i : Z) : option (list A) :=
  let n := Z.of_nat (length xs) in
  let j := if i <? 0 then n + i else i in
  if (0 <=? j) && (j <? n) then Some (delete (Z.to_nat j) xs) else None.

(** [xs[a:b]] for [0 <= a]. *)
Definition py_slice {A} (xs : list A) (a b : Z) : list A :=
  let n := Z.of_nat (length xs) in
  let b := if b <? 0 then Z.max 0 (n + b) else Z.min b n in
  take (Z.to_nat (b - a)) (drop (Z.to_nat a) xs).

(** The characters of a string, each as a string of length one. *)
Fixpoint chars (s : string) : list value :=
  match s with
  | EmptyString => []
  | String c r => VStr (String c EmptyString) :: chars r
  end.

(** The items of an array or of a text. *)
Definition items_of (container_value : value) : M (list value) :=
  match container_value with
  | VList l => read_list l
  | VStr s => ret (chars s)
  | _ => ret []
  end.

(** The [IndexAccessNode] branch of [eval], once the container and the
    key are evaluated.  The message of an index out of range holds the
    text of the key, which the host builds first ([py_str]); the other
    messages hold the name of a type, or the text of the key zero. *)
Definition index_access (container_value key : value) : M value :=
  match container_value with
  | VList _ | VStr _ =>
      do items <- items_of container_value;
      match as_int key with
      | None =>
          error "Array/string index must be an integer, got {type(key).__name__}" [key]
      | Some k =>
          if k <? 0 then
            match py_index items k with
            | Some v => ret v
            | None =>
                do_ py_str key;
                error "Index {key} out of range for {type(container_value).__name__} of length {len(container_value)}"
                      [key; container_value]
            end
          else
            let zero_based_index := k - 1 in
            if zero_based_index <? 0
            then error "Index {key} is invalid (indices start at 1)" [key]
            else
              match items !! Z.to_nat zero_based_index with
              | Some v => ret v
              | None =>
                  do_ py_str key;
                  error "Index {key} out of range for {type(container_value).__name__} of length {len(container_value)}"
                        [key; container_value]
              end
      end
  | _ =>
      error "Cannot index {type(container_value).__name__} (only arrays, strings, and dictionaries are indexable)"
            [container_value]
  end.

(** One step of the navigation of [IndexAssignNode]: [target =
    target[key]] for a key before the last. *)
Definition navigate (target key : value) : M value :=
  match target with
  | VList l =>
      do items <- read_list l;
      match as_int key with
      | None => error "Array index must be an integer, got {type(key).__name__}" [key]
      | Some k =>
          if k <? 0 then
            match py_index items k with
            | Some v => ret v
            | None =>
                do_ py_str key;
                error "Index {key} out of range for array of length {len(target)}" [key; target]
            end
          else
            let zero_based_idx := k - 1 in
            if zero_based_idx <? 0
            then error "Index {key} is invalid (indices start at 1)" [key]
            else
              match items !! Z.to_nat zero_based_idx with
              | Some v => ret v
              | None =>
                  do_ py_str key;
                  error "Index {key} out of range for array of length {len(target)}"
                        [key; target]
              end
      end
  | _ =>
      error "Cannot index {type(target).__name__} (expected array or dictionary for nested indexing)"
            [target]
  end.

(** The assignment [target[key] = new_value] of [IndexAssignNode], the
    same code for a single key and for the last key of a chain. *)
Definition assign_item (target key new_value : value) : M value :=
  match target with
  | VList l =>
      do items <- read_list l;
      match as_int key with
      | None => error "Array index must be an integer, got {type(key).__name__}" [key]
      | Some k =>
          if k <? 0 then
            match py_set_index items k new_value with
            | Some items' => do_ write_list l items'; ret new_value
            | None =>
                do_ py_str key;
                error "Index {key} out of range for array of length {len(target)}" [key; target]
            end
          else
            let zero_based_idx := k - 1 in
            if zero_based_idx <? 0
            then error "Index {key} is invalid (indices start at 1)" [key]
            else
              match py_set_index items zero_based_idx new_value with
              | Some items' => do_ write_list l items'; ret new_value
              | None =>
                  do_ py_str key;
                  error "Index {key} out of range for array of length {len(target)}"
                        [key; target]
              end
      end
  | _ =>
      error "Cannot assign to index/key of {type(target).__name__} (only arrays and dictionaries support assignment)"
            [target]
  end.

(** [for key in path[:-1]: target = target[key]], then the assignment
    to [path[-1]]; an empty path makes [path[-1]] an [IndexError]. *)
Fixpoint assign_path (target : value) (path : list value) (new_value : value) : M value :=
  match path with
  | [] => host_raise Host.IndexError
  | [final_key] => assign_item target final_key new_value
  | key :: path' =>
      do target' <- navigate target key;
      assign_path target' path' new_value
  end.

(** ** The methods of the evaluator *)

Section Methods.

(** The host's recursion limit, counted in frames. *)
Variable limit : nat.

(** [self.eval] running in a frame of the given depth: the recursive
    knot, tied by [eval] below. *)
Variable self_eval : nat -> node -> M value.

(** The fuel left for the turns of a loop and for the comparison of
    nested lists. *)
Variable fuel : nat.

(** The call [self.eval(nd)] made from a frame at depth [depth]. *)
Definition call_eval (depth : nat) (nd : node) : M value :=
  enter limit depth (fun depth' => self_eval depth' nd).

(** [[self.eval(x) for x in nodes]]. *)
Fixpoint eval_all (depth : nat) (nodes : list node) : M (list value) :=
  match nodes with
  | [] => ret []
  | x :: nodes' =>
      do v <- call_eval depth x;
      do vs <- eval_all depth nodes';
      ret (v :: vs)
  end.

(** [for param, arg in zip(self.params, args):
    self.interpreter.variables[param] = arg]. *)
Fixpoint bind_params (params : list string) (args : list value) : M unit :=
  match params, args with
  | param :: params', arg :: args' =>
      do_ store_var param arg; bind_params params' args'
  | _, _ => ret tt
  end.

(** [PuffingFunction.call], running in a frame at depth [depth]. *)
Definition PuffingFunction_call (depth : nat) (name : string)
    (params : list string) (body : node) (args : list value) : M value :=
  if negb (length args =? length params)%nat then
    error "Function '{self.name}' expects {len(self.params)} arguments, got {len(args)}"
          [VStr name; VInt (Z.of_nat (length params)); VInt (Z.of_nat (length args))]
  else
    do st <- get;
    let saved_vars := variables st in
    try_finally
      (catch_return (do_ bind_params params args; call_eval depth body))
      (set_variables saved_vars).

(** [PuffingLambda.call]: both branches on [self.is_expression]
    evaluate the body in the same way. *)
Definition PuffingLambda_call (depth : nat) (params : list string)
    (body : node) (is_expression : bool) (args : list value) : M value :=
  if negb (length args =? length params)%nat then
    error "Lambda expects {len(self.params)} arguments, got {len(args)}"
          [VInt (Z.of_nat (length params)); VInt (Z.of_nat (length args))]
  else
    do st <- get;
    let saved_vars := variables st in
    try_finally
      (catch_return
         (do_ bind_params params args;
          if is_expression then call_eval depth body else call_eval depth body))
      (set_variables saved_vars).

(** The first argument of a mutating builtin: a bare variable is
    looked up (it must be bound and must not be a constant), any other
    expression is evaluated. *)
Definition resolve_target (depth : nat) (arg : node) : M value :=
  match arg with
  | VarAccessNode var_name =>
      do bound <- lookup_var var_name;
      match bound with
      | None =>
          raise (VariableNotDefinedError ("Variable '" +:+ var_name +:+ "' not defined"))
      | Some v =>
          do locked <- is_constant var_name;
          if locked
          then error "Cannot modify constant '{var_name}'" [VStr var_name]
          else ret v
      end
  | _ => call_eval depth arg
  end.

(** A builtin on sets or dictionaries, in a program that has neither:
    after the check of the argument count its arguments are obtained
    in [steps], and the check of the container's kind then fails. *)
Definition needs_container (arity_ok : bool) (arity_message : string)
    (steps : list (M value)) (kind_message : string) : M value :=
  if arity_ok then
    (fix run (steps : list (M value)) : M value :=
       match steps with
       | [] => error kind_message []
       | step :: steps' => do_ step; run steps'
       end) steps
  else error arity_message [].

(** [node.args[i]]; the argument count is checked before any use. *)
Definition arg (args : list node) (i : nat) : node := nth i args BreakNode.

(** [isinstance(elem, (str, int, float, bool, type(None)))]. *)
Definition hashable (v : value) : bool :=
  match v with
  | VNone | VBool _ | VInt _ | VFloat _ | VStr _ => true
  | _ => false
  end.

(** The builtins of [eval_function_call] on sets and dictionaries, by
    name; [None] when [func_name] is none of them. *)
Definition container_builtin (depth : nat) (func_name : string)
    (args : list node) : option (M value) :=
  let n := length args in
  let target := resolve_target depth (arg args 0) in
  let a i := call_eval depth (arg args i) in
  let named s := String.eqb func_name s in
  if named "set_add" then Some (needs_container (n =? 2)%nat
    "set_add() takes exactly 2 arguments (set, value)" [target; a 1%nat]
    "set_add() requires a set")
  else if named "set_remove" then Some (needs_container (n =? 2)%nat
    "set_remove() takes exactly 2 arguments (set, value)" [target; a 1%nat]
    "set_remove() requires a set")
  else if named "set_discard" then Some (needs_container (n =? 2)%nat
    "set_discard() takes exactly 2 arguments (set, value)" [target; a 1%nat]
    "set_discard() requires a set")
  else if named "set_clear" then Some (needs_container (n =? 1)%nat
    "set_clear() takes exactly 1 argument" [target]
    "set_clear() requires a set")
  else if named "set_contains" then Some (needs_container (n =? 2)%nat
    "set_contains() takes exactly 2 arguments (set, value)" [a 0%nat; a 1%nat]
    "set_contains() requires a set")
  else if named "set_union" then Some (needs_container (2 <=? n)%nat
    "set_union() takes at least 2 arguments" [a 0%nat]
    "set_union() requires all arguments to be sets")
  else if named "set_intersection" then Some (needs_container (2 <=? n)%nat
    "set_intersection() takes at least 2 arguments" [a 0%nat]
    "set_intersection() requires all arguments to be sets")
  else if named "set_difference" then Some (needs_container (2 <=? n)%nat
    "set_difference() takes at least 2 arguments" [a 0%nat]
    "set_difference() requires all arguments to be sets")
  else if named "set_symmetric_difference" then Some (needs_container (n =? 2)%nat
    "set_symmetric_difference() takes exactly 2 arguments" [a 0%nat; a 1%nat]
    "set_symmetric_difference() requires both arguments to be sets")
  else if named "set_is_subset" then Some (needs_container (n =? 2)%nat
    "set_is_subset() takes exactly 2 arguments" [a 0%nat; a 1%nat]
    "set_is_subset() requires both arguments to be sets")
  else if named "set_is_superset" then Some (needs_container (n =? 2)%nat
    "set_is_superset() takes exactly 2 arguments" [a 0%nat; a 1%nat]
    "set_is_superset() requires both arguments to be sets")
  else if named "set_is_disjoint" then Some (needs_container (n =? 2)%nat
    "set_is_disjoint() takes exactly 2 arguments" [a 0%nat; a 1%nat]
    "set_is_disjoint() requires both arguments to be sets")
  else if named "set_copy" then Some (needs_container (n =? 1)%nat
    "set_copy() takes exactly 1 argument" [a 0%nat]
    "set_copy() requires a set")
  else if named "set_to_array" then Some (needs_container (n =? 1)%nat
    "set_to_array() takes exactly 1 argument" [a 0%nat]
    "set_to_array() requires a set")
  else if named "keys" then Some (needs_container (n =? 1)%nat
    "keys() takes exactly 1 argument" [a 0%nat] "keys() requires a dictionary")
  else if named "values" then Some (needs_container (n =? 1)%nat
    "values() takes exactly 1 argument" [a 0%nat] "values() requires a dictionary")
  else if named "items" then Some (needs_container (n =? 1)%nat
    "items() takes exactly 1 argument" [a 0%nat] "items() requires a dictionary")
  else if named "has_key" then Some (needs_container (n =? 2)%nat
    "has_key() takes exactly 2 arguments (dict, key)" [a 0%nat; a 1%nat]
    "has_key() requires a dictionary")
  else if named "set" then Some (needs_container (n =? 3)%nat
    "set() takes exactly 3 arguments (dict, key, value)" [target; a 1%nat; a 2%nat]
    "set() requires a dictionary")
  else if named "get" then Some (needs_container ((2 <=? n)%nat && (n <=? 3)%nat)
    "get() takes 2 or 3 arguments (dict, key, [default])"
    (if (n =? 3)%nat then [a 0%nat; a 1%nat; a 2%nat] else [a 0%nat; a 1%nat])
    "get() requires a dictionary")
  else if named "delete_key" then Some (needs_container (n =? 2)%nat
    "delete_key() takes exactly 2 arguments (dict, key)" [target; a 1%nat]
    "delete_key() requires a dictionary")
  else if named "clear_dict" then Some (needs_container (n =? 1)%nat
    "clear_dict() takes exactly 1 argument" [target]
    "clear_dict() requires a dictionary")
  else if named "update" then Some (needs_container (n =? 2)%nat
    "update() takes exactly 2 arguments (dict, other_dict)" [target; a 1%nat]
    "update() requires a dictionary")
  else if named "copy_dict" then Some (needs_container (n =? 1)%nat
    "copy_dict() takes exactly 1 argument" [a 0%nat]
    "copy_dict() requires a dictionary")
  else if named "merge" then Some (needs_container (2 <=? n)%nat
    "merge() takes at least 2 arguments" [a 0%nat]
    "merge() requires all arguments to be dictionaries")
  else None.

(** [try: m except TypeError as e: raise PuffingRuntimeError(...)]. *)
Definition catch_type_error {A} (m : M A) (message : string) : M A :=
  fun st =>
    match m st with
    | (Raise (HostException Host.TypeError), st') =>
        (Raise (PuffingRuntimeError message []), st')
    | other => other
    end.

(** [value in array]: the first item equal to [value] decides. *)
Fixpoint py_contains (items : list value) (v : value) : M bool :=
  match items with
  | [] => ret false
  | x :: items' =>
      do e <- py_eq fuel x v;
      if e then ret true else py_contains items' v
  end.

(** [array.index(value)]; [None] is the host's [ValueError]. *)
Fixpoint py_list_index (items : list value) (v : value) (i : Z) : M (option Z) :=
  match items with
  | [] => ret None
  | x :: items' =>
      do e <- py_eq fuel x v;
      if e then ret (Some i) else py_list_index items' v (i + 1)
  end.

(** [min(array)] and [max(array)] for a list that is not empty: a
    later item replaces the best one when it compares strictly. *)
Fixpoint py_extremum (op : cmp_op) (best : value) (items : list value) : M value :=
  match items with
  | [] => ret best
  | x :: items' =>
      do better <- py_compare fuel op x best;
      py_extremum op (if better then x else best) items'
  end.

(** [sum(array)]: the items added to [0] from the left. *)
Fixpoint py_sum (acc : value) (items : list value) : M value :=
  match items with
  | [] => ret acc
  | x :: items' => do acc' <- py_add acc x; py_sum acc' items'
  end.

(** [separator.join(str(item) for item in array)]. *)
Fixpoint py_join (separator : string) (items : list value) : M string :=
  match items with
  | [] => ret EmptyString
  | [x] => py_str x
  | x :: items' =>
      do s <- py_str x;
      do r <- py_join separator items';
      ret (s +:+ separator +:+ r)
  end.

(** [array.sort()] is described for a list of at most one item, for
    numbers without a NaN, and for strings: the stable sort.  For any
    other list the order in which the host compares, and what it
    leaves behind when a comparison raises, are not described. *)
Fixpoint insert_sorted {A} (lt : A -> A -> bool) (x : A) (sorted : list A) : list A :=
  match sorted with
  | [] => [x]
  | y :: sorted' => if lt x y then x :: y :: sorted' else y :: insert_sorted lt x sorted'
  end.

Definition stable_sort {A} (lt : A -> A -> bool) (xs : list A) : list A :=
  fold_left (fun sorted x => insert_sorted lt x sorted) xs [].

Definition sortable_number (v : value) : bool :=
  match as_num v with
  | Some (NumFloat S754_nan) | None => false
  | Some _ => true
  end.

Definition number_lt (a b : value) : bool :=
  match as_num a, as_num b with
  | Some x, Some y => cmp_holds CmpLt (num_compare x y)
  | _, _ => false
  end.

Definition string_lt (a b : value) : bool :=
  match a, b with
  | VStr s1, VStr s2 => String.ltb s1 s2
  | _, _ => false
  end.

Definition is_str (v : value) : bool :=
  match v with VStr _ => true | _ => false end.

Definition py_sort (items : list value) : M (list value) :=
  if (length items <=? 1)%nat then ret items
  else if forallb sortable_number items then ret (stable_sort number_lt items)
  else if forallb is_str items then ret (stable_sort string_lt items)
  else unmodelled "list.sort".

(** The checks that the target of an array builtin is a list. *)
Definition expect_list (v : value) (message : string) : M loc :=
  match v with
  | VList l => ret l
  | _ => error message []
  end.

Definition wrong_count {A} (message : string) : M A := error message [].

(** [_handle_array_functions], in a frame at depth [depth]. *)
Definition handle_array_functions (depth : nat) (func_name : string)
    (args : list node) : M value :=
  let n := length args in
  let target := resolve_target depth (arg args 0) in
  let a i := call_eval depth (arg args i) in
  let named s := String.eqb func_name s in
  if named "unshift" then
    if negb (n =? 2)%nat then wrong_count "unshift() takes exactly 2 arguments (array, value)"
    else
      do array <- target;
      do v <- a 1%nat;
      do l <- expect_list array "unshift() requires an array";
      do items <- read_list l;
      do_ write_list l (py_insert items 0 v);
      ret array
  else if named "insert" then
    if negb (n =? 3)%nat
    then wrong_count "insert() takes exactly 3 arguments (array, index, value)"
    else
      do array <- target;
      do index <- a 1%nat;
      do v <- a 2%nat;
      do l <- expect_list array "insert() requires an array";
      match as_int index with
      | None => error "insert() index must be an integer" []
      | Some i =>
          do items <- read_list l;
          if i <? 0 then do_ write_list l (py_insert items i v); ret array
          else
            let zero_based_index := i - 1 in
            if zero_based_index <? 0
            then error "Index {index} is invalid (indices start at 1)" [index]
            else do_ write_list l (py_insert items zero_based_index v); ret array
      end
  else if named "remove" then
    if negb (n =? 2)%nat then wrong_count "remove() takes exactly 2 arguments (array, index)"
    else
      do array <- target;
      do index <- a 1%nat;
      do l <- expect_list array "remove() requires an array";
      match as_int index with
      | None => error "remove() index must be an integer" []
      | Some i =>
          do items <- read_list l;
          if i <? 0 then
            match py_pop items i with
            | Some items' => do_ write_list l items'; ret array
            | None => do_ py_str index; error "Index {index} out of range" [index]
            end
          else
            let zero_based_index := i - 1 in
            if (zero_based_index <? 0) || (Z.of_nat (length items) <=? zero_based_index)
            then do_ py_str index; error "Index {index} out of range" [index]
            else
              match py_pop items zero_based_index with
              | Some items' => do_ write_list l items'; ret array
              | None => host_raise Host.IndexError
              end
      end
  else if named "clear" then
    if negb (n =? 1)%nat then wrong_count "clear() takes exactly 1 argument"
    else
      do array <- target;
      do l <- expect_list array "clear() requires an array";
      do_ write_list l [];
      ret array
  else if named "reverse" then
    if negb (n =? 1)%nat then wrong_count "reverse() takes exactly 1 argument"
    else
      do array <- target;
      do l <- expect_list array "reverse() requires an array";
      do items <- read_list l;
      do_ write_list l (rev items);
      ret array
  else if named "sort" then
    if negb (n =? 1)%nat then wrong_count "sort() takes exactly 1 argument"
    else
      do array <- target;
      do l <- expect_list array "sort() requires an array";
      do items <- read_list l;
      do sorted <- py_sort items;
      do_ write_list l sorted;
      ret array
  else if named "contains" then
    if negb (n =? 2)%nat
    then wrong_count "contains() takes exactly 2 arguments (array, value)"
    else
      do array <- a 0%nat;
      do v <- a 1%nat;
      do l <- expect_list array "contains() requires an array";
      do items <- read_list l;
      do found <- py_contains items v;
      ret (VBool found)
  else if named "index_of" then
    if negb (n =? 2)%nat
    then wrong_count "index_of() takes exactly 2 arguments (array, value)"
    else
      do array <- a 0%nat;
      do v <- a 1%nat;
      do l <- expect_list array "index_of() requires an array";
      do items <- read_list l;
      do found <- py_list_index items v 0;
      ret (VInt (match found with Some i => i + 1 | None => -1 end))
  else if named "slice" then
    if negb ((2 <=? n)%nat && (n <=? 3)%nat)
    then wrong_count "slice() takes 2 or 3 arguments (array, start, [end])"
    else
      do array <- a 0%nat;
      do start <- a 1%nat;
      do stop <- (if (n =? 3)%nat then a 2%nat
                  else match array with
                       | VList _ | VStr _ =>
                           do items <- items_of array;
                           ret (VInt (Z.of_nat (length items) + 1))
                       | _ => host_raise Host.TypeError
                       end);
      do l <- expect_list array "slice() requires an array";
      match as_int start, as_int stop with
      | Some s, Some e =>
          let zero_start := s - 1 in
          let zero_end := e - 1 in
          let zero_start := if zero_start <? 0 then 0 else zero_start in
          do items <- read_list l;
          alloc_list (py_slice items zero_start (zero_end + 1))
      | _, _ => error "slice() indices must be integers" []
      end
  else if named "join" then
    if negb (n =? 2)%nat
    then wrong_count "join() takes exactly 2 arguments (array, separator)"
    else
      do array <- a 0%nat;
      do separator <- a 1%nat;
      do l <- expect_list array "join() requires an array";
      match separator with
      | VStr sep =>
          do items <- read_list l;
          do s <- py_join sep items;
          ret (VStr s)
      | _ => error "join() separator must be a string" []
      end
  else if named "sum" then
    if negb (n =? 1)%nat then wrong_count "sum() takes exactly 1 argument"
    else
      do array <- a 0%nat;
      do l <- expect_list array "sum() requires an array";
      do items <- read_list l;
      catch_type_error (py_sum (VInt 0) items) "Cannot sum array: {e}"
  else if named "min" then
    if negb (n =? 1)%nat then wrong_count "min() takes exactly 1 argument"
    else
      do array <- a 0%nat;
      do l <- expect_list array "min() requires an array";
      do items <- read_list l;
      match items with
      | [] => error "min() from empty array" []
      | x :: items' => catch_type_error (py_extremum CmpLt x items') "Cannot find min: {e}"
      end
  else if named "max" then
    if negb (n =? 1)%nat then wrong_count "max() takes exactly 1 argument"
    else
      do array <- a 0%nat;
      do l <- expect_list array "max() requires an array";
      do items <- read_list l;
      match items with
      | [] => error "max() from empty array" []
      | x :: items' => catch_type_error (py_extremum CmpGt x items') "Cannot find max: {e}"
      end
  else ret VNone.

(** The builtins of [eval_function_call], tried when the name is not
    bound to a function or lambda of the program; [bound] is what the name
    is bound to.  The last lines are the call of a library function: the
    libraries are outside the embedding, so a bound name is bound to
    something that cannot be called. *)
Definition builtin_call (depth : nat) (func_name : string) (args : list node)
    (bound : option value) : M value :=
  let n := length args in
  let target := resolve_target depth (arg args 0) in
  let a i := call_eval depth (arg args i) in
  let named s := String.eqb func_name s in
  if named "len" then
    if negb (n =? 1)%nat then wrong_count "len() takes exactly 1 argument"
    else
      do v <- a 0%nat;
      match v with
      | VList _ | VStr _ =>
          do items <- items_of v; ret (VInt (Z.of_nat (length items)))
      | _ => error "Object of type {type(value).__name__} has no len()" [v]
      end
  else
  match container_builtin depth func_name args with
  | Some m => m
  | None =>
  if named "array_to_set" then
    if negb (n =? 1)%nat
    then wrong_count "array_to_set() takes exactly 1 argument"
    else
      do array_val <- a 0%nat;
      do l <- expect_list array_val "array_to_set() requires an array";
      do items <- read_list l;
      match filter (fun x => negb (hashable x)) items with
      | elem :: _ =>
          error "Cannot convert array to set: elements must be immutable, got {type(elem).__name__}"
                [elem]
      | [] => unmodelled "set"
      end
  else if named "push" then
    if negb (n =? 2)%nat
    then wrong_count "push() takes exactly 2 arguments (array, value)"
    else
      do array <- target;
      do v <- a 1%nat;
      do l <- expect_list array "push() requires an array";
      do items <- read_list l;
      do_ write_list l (items ++ [v]);
      ret array
  else if named "pop" then
    if negb (n =? 1)%nat then wrong_count "pop() takes exactly 1 argument"
    else
      do array <- target;
      do l <- expect_list array "pop() requires an array";
      do items <- read_list l;
      if (length items =? 0)%nat then error "pop() from empty array" []
      else do_ write_list l (removelast items); ret array
  else if named "shift" then
    if negb (n =? 1)%nat then wrong_count "shift() takes exactly 1 argument"
    else
      do array <- target;
      do l <- expect_list array "shift() requires an array";
      do items <- read_list l;
      if (length items =? 0)%nat then error "shift() from empty array" []
      else do_ write_list l (tail items); ret array
  else if existsb named
            ["unshift"; "insert"; "remove"; "clear"; "reverse"; "sort";
             "contains"; "index_of"; "slice"; "join"; "sum"; "min"; "max"]
  then enter limit depth (fun d => handle_array_functions d func_name args)
  else
    match bound with
    | None => error "Function '{func_name}' not defined" [VStr func_name]
    | Some _ => error "'{func_name}' is not a function" [VStr func_name]
    end
  end.

(** [eval_function_call], in a frame at depth [depth].  A callee that
    is neither a name nor a lambda was turned by the parser into the
    text [str(node)], which is no identifier: it is bound to nothing
    and names no builtin. *)
Definition eval_function_call (depth : nat) (name : callee node)
    (args : list node) : M value :=
  match name with
  | CalleeLambda params body is_expression =>
      do _ <- fresh_id;
      do vs <- eval_all depth args;
      catch_return
        (enter limit depth
           (fun d => PuffingLambda_call d params body is_expression vs))
  | CalleeRepr _ => error "Function '{func_name}' not defined" []
  | CalleeName func_name =>
      do bound <- lookup_var func_name;
      match bound with
      | Some (VFunction _ fname params body) =>
          do vs <- eval_all depth args;
          catch_return
            (enter limit depth (fun d => PuffingFunction_call d fname params body vs))
      | Some (VLambda _ params body is_expression) =>
          do vs <- eval_all depth args;
          catch_return
            (enter limit depth
               (fun d => PuffingLambda_call d params body is_expression vs))
      | _ => builtin_call depth func_name args bound
      end
  end.

(** The operator of a [BinaryOpNode] applied to the values of its
    operands: the chain of comparisons of [eval_binary_op]. *)
Definition apply_binary_op (op : TokenType) (left right : value) : M value :=
  match op with
  | T_PLUS =>
      if is_str left || is_str right then
        do l <- py_str left;
        do r <- py_str right;
        ret (VStr (l +:+ r))
      else py_add left right
  | T_MINUS => py_sub left right
  | T_MULTIPLY => py_mul left right
  | T_DIVIDE =>
      do zero <- py_eq fuel right (VInt 0);
      if zero then error "Division by zero" []
      else py_truediv left right
  | T_MODULO => py_mod left right
  | T_POWER => py_pow left right
  | T_EQUAL => do e <- py_eq fuel left right; ret (VBool e)
  | T_NOT_EQUAL => do e <- py_eq fuel left right; ret (VBool (negb e))
  | T_LESS => do c <- py_compare fuel CmpLt left right; ret (VBool c)
  | T_GREATER => do c <- py_compare fuel CmpGt left right; ret (VBool c)
  | T_LESS_EQUAL => do c <- py_compare fuel CmpLe left right; ret (VBool c)
  | T_GREATER_EQUAL => do c <- py_compare fuel CmpGe left right; ret (VBool c)
  | T_AND =>
      do l <- is_truthy left;
      if l then do r <- is_truthy right; ret (VBool r) else ret (VBool false)
  | T_OR =>
      do l <- is_truthy left;
      if l then ret (VBool true) else do r <- is_truthy right; ret (VBool r)
  | _ => error "Unknown binary operator: {op}" []
  end.

(** [eval_binary_op], in a frame at depth [depth]: both operands are
    evaluated before the operator is looked at. *)
Definition eval_binary_op (depth : nat) (left_node : node) (op : TokenType)
    (right_node : node) : M value :=
  do left <- call_eval depth left_node;
  do right <- call_eval depth right_node;
  apply_binary_op op left right.

(** [eval_unary_op]. *)
Definition eval_unary_op (depth : nat) (op : TokenType) (operand_node : node)
  : M value :=
  do operand <- call_eval depth operand_node;
  match op with
  | T_MINUS => py_neg operand
  | T_NOT => do t <- is_truthy operand; ret (VBool (negb t))
  | _ => error "Unknown unary operator: {op}" []
  end.

(** [try: m except (ValueError, TypeError) as e: raise
    PuffingRuntimeError(f"Cannot cast {value} to {target_type}: {e}")]:
    the handler builds the text of [value] before it raises. *)
Definition catch_cast_error (m : M value) (v : value) : M value :=
  fun st =>
    match m st with
    | (Raise (HostException (Host.ValueError | Host.TypeError)), st') =>
        (do_ format_field fuel v;
         error "Cannot cast {value} to {target_type}: {e}" [v]) st'
    | other => other
    end.

(** [eval_type_cast]. *)
Definition eval_type_cast (depth : nat) (nd : node) (target_type : TokenType)
  : M value :=
  do v <- call_eval depth nd;
  match target_type with
  | T_INT => catch_cast_error (do n <- py_int v; ret (VInt n)) v
  | T_FLOAT => catch_cast_error (do f <- py_float v; ret (VFloat f)) v
  | T_STR => catch_cast_error (do s <- py_str v; ret (VStr s)) v
  | T_BOOL => catch_cast_error (do b <- is_truthy v; ret (VBool b)) v
  | _ => error "Unknown type: {target_type}" []
  end.

(** [eval_format]: the fixed-point text of a number is the host's. *)
Definition eval_format (depth : nat) (nd : node) (precision : Z) : M value :=
  do v <- call_eval depth nd;
  match as_num v with
  | Some _ => unmodelled "format(value, '.Nf')"
  | None => do_ format_field fuel v; error "Cannot format non-numeric value: {value}" [v]
  end.

(** [eval_input] reads a line of standard input. *)
Definition eval_input (input_type : option TokenType) : M value :=
  unmodelled "input()".

(** [import_library]: the two tables hold native functions of the
    host. *)
Definition import_library (module_path : string) : M unit :=
  if String.eqb module_path "math.main" then unmodelled "math library"
  else if String.eqb module_path "string.main" then unmodelled "string library"
  else error "Unknown library: {module_path}" [VStr module_path].

(** The text [PrintNode] writes for one value. *)
Definition print_text (v : value) : M string :=
  match v with
  | VList l =>
      do items <- read_list l;
      do parts <-
        (fix format (items : list value) : M (list string) :=
           match items with
           | [] => ret []
           | elem :: items' =>
               do s <- match elem with
                       | VStr s => ret (String quote (s +:+ String quote EmptyString))
                       | _ => py_str elem
                       end;
               do r <- format items';
               ret (s :: r)
           end) items;
      ret ("[" +:+ String.concat ", " parts +:+ "]")
  | _ => py_str v
  end.

(** [except ContinueException]: the turn of the loop ends and
    [result] keeps its value. *)
Definition on_continue (m : M value) (result : value) : M value :=
  fun st =>
    match m st with
    | (Raise ContinueException, st') => (Ok result, st')
    | other => other
    end.

(** [except BreakException: pass], followed by [return result]. *)
Definition on_break (m : M value) (result : value) : M value :=
  fun st =>
    match m st with
    | (Raise BreakException, st') => (Ok result, st')
    | other => other
    end.

(** The [while] loop, with [turns] turns of fuel. *)
Fixpoint while_loop (turns depth : nat) (condition_node body : node)
    (result : value) : M value :=
  match turns with
  | O => out_of_fuel
  | S turns =>
      on_break
        (do c <- call_eval depth condition_node;
         do t <- is_truthy c;
         if t then
           do r <- on_continue (call_eval depth body) result;
           while_loop turns depth condition_node body r
         else ret result)
        result
  end.

(** The [do]-[while] loop. *)
Fixpoint do_while_loop (turns depth : nat) (body condition_node : node)
    (result : value) : M value :=
  match turns with
  | O => out_of_fuel
  | S turns =>
      on_break
        (do r <- on_continue (call_eval depth body) result;
         on_break
           (do c <- call_eval depth condition_node;
            do t <- is_truthy c;
            if t then do_while_loop turns depth body condition_node r
            else ret r)
           r)
        result
  end.

(** The item a [for] loop takes at its [i]-th turn: the iterator of a
    list reads the list as it is at that moment. *)
Definition next_item (iterable : value) (i : nat) : M (option value) :=
  match iterable with
  | VList l => do items <- read_list l; ret (items !! i)
  | VStr s => ret (chars s !! i)
  | _ => ret None
  end.

(** The turns of a [for] loop from the [i]-th item on. *)
Fixpoint for_loop (turns depth : nat) (var_name : string) (body : node)
    (iterable : value) (i : nat) (result : value) : M value :=
  match turns with
  | O => out_of_fuel
  | S turns =>
      on_break
        (do item <- next_item iterable i;
         match item with
         | None => ret result
         | Some v =>
             do r <- on_continue
                       (do_ store_var var_name v; call_eval depth body) result;
             for_loop turns depth var_name body iterable (S i) r
         end)
        result
  end.

(** The [finally] clause of the [for] loop: the loop variable gets its
    old binding back, or is removed when it had none. *)
Definition restore_var (var_name : string) (old_var : option value)
    (st : interp) : interp :=
  set_variables
    (match old_var with
     | Some v => <[var_name := v]> (variables st)
     | None => delete var_name (variables st)
     end) st.

(** [for stmt in node.statements: result = self.eval(stmt)]. *)
Fixpoint eval_statements (depth : nat) (statements : list node) (result : value)
  : M value :=
  match statements with
  | [] => ret result
  | stmt :: statements' =>
      do r <- call_eval depth stmt;
      eval_statements depth statements' r
  end.

(** The [elif] chain of [IfNode]. *)
Fixpoint eval_elifs (depth : nat) (elif_blocks : list (node * node))
    (false_block : option node) : M value :=
  match elif_blocks with
  | (elif_condition, elif_block) :: elif_blocks' =>
      do c <- call_eval depth elif_condition;
      do t <- is_truthy c;
      if t then call_eval depth elif_block
      else eval_elifs depth elif_blocks' false_block
  | [] =>
      match false_block with
      | Some b => call_eval depth b
      | None => ret VNone
      end
  end.

(** The keys of an index chain, outermost first as the loop of
    [IndexAssignNode] evaluates them, and the node the chain starts
    from; [path] is returned innermost first. *)
Fixpoint eval_path (depth : nat) (current : node) (path : list value)
  : M (list value * node) :=
  match current with
  | IndexAccessNode container_node key_node =>
      do key <- call_eval depth key_node;
      eval_path depth container_node (key :: path)
  | _ => ret (path, current)
  end.

(** [for i, var_name in enumerate(node.var_names)] of
    [DestructureAssignNode]. *)
Fixpoint destructure (var_names : list string) (value_list : list value)
    (constant : bool) : M unit :=
  match var_names, value_list with
  | var_name :: var_names', v :: value_list' =>
      do_ store_var var_name v;
      do_ (if constant
           then modify (fun st => set_constants ({[var_name]} ∪ constants st) st)
           else ret tt);
      destructure var_names' value_list' constant
  | _, _ => ret tt
  end.

(** The operator of a [CompoundAssignNode] applied to the current value
    of the variable and to the value of the operand. *)
Definition apply_compound_op (operator : TokenType)
    (current_value compound_value : value) : M value :=
  match operator with
  | T_PLUS => py_add current_value compound_value
  | T_MINUS => py_sub current_value compound_value
  | T_MULTIPLY => py_mul current_value compound_value
  | T_DIVIDE =>
      do zero <- py_eq fuel compound_value (VInt 0);
      if zero then error "Division by zero" []
      else py_truediv current_value compound_value
  | T_MODULO => py_mod current_value compound_value
  | T_POWER => py_pow current_value compound_value
  | _ => error "Unknown compound operator: {node.operator}" []
  end.

(** The body of [Interpreter.eval], in a frame at depth [depth]: one
    branch per node class, in the order of the source. *)
Definition eval_node (depth : nat) (nd : node) : M value :=
  let ev := call_eval depth in
  match nd with
  | FunctionDefNode name params body =>
      do id <- fresh_id;
      let func := VFunction id name params body in
      do_ store_var name func;
      ret func
  | LambdaNode params body is_expression =>
      do id <- fresh_id;
      ret (VLambda id params body is_expression)
  | ReturnNode value_node =>
      do v <- match value_node with
              | Some n => ev n
              | None => ret VNone
              end;
      raise (ReturnException v)
  | NumberNode (NInt n) => ret (VInt n)
  | NumberNode (NFloat f) => ret (VFloat f)
  | StringNode s => ret (VStr s)
  | BoolNode b => ret (VBool b)
  | ArrayNode elements =>
      do vs <- eval_all depth elements;
      alloc_list vs
  | SetNode _ => unmodelled "set"
  | DictNode _ => unmodelled "dict"
  | IndexAccessNode container_node key_node =>
      do container_value <- ev container_node;
      do key <- ev key_node;
      index_access container_value key
  | IndexAssignNode left_expr _ value_node =>
      do new_value <- ev value_node;
      do found <- eval_path depth left_expr [];
      let '(path, current) := found in
      match current with
      | VarAccessNode var_name =>
          do bound <- lookup_var var_name;
          match bound with
          | None => raise (VariableNotDefinedError var_name)
          | Some target =>
              do locked <- is_constant var_name;
              if locked then error "Cannot modify constant '{var_name}'" [VStr var_name]
              else assign_path target path new_value
          end
      | _ => error "Can only assign to variable indices/keys" []
      end
  | LibImportNode module_path =>
      do_ import_library module_path;
      ret VNone
  | VarAssignNode name value_node constant =>
      do v <- ev value_node;
      do_ store_var name v;
      do_ (if constant
           then modify (fun st => set_constants ({[name]} ∪ constants st) st)
           else ret tt);
      ret v
  | DestructureAssignNode var_names value_node constant =>
      do v <- ev value_node;
      match v with
      | VList _ | VStr _ =>
          do value_list <- items_of v;
          if (length value_list <? length var_names)%nat then
            error "Not enough values to unpack: expected {len(node.var_names)}, got {len(value_list)}"
                  [VInt (Z.of_nat (length var_names)); VInt (Z.of_nat (length value_list))]
          else
            do_ destructure var_names value_list constant;
            alloc_list value_list
      | _ => error "Cannot destructure {type(value).__name__} (expected array or iterable)" [v]
      end
  | VarReassignNode name value_node =>
      do bound <- lookup_var name;
      match bound with
      | None => raise (VariableNotDefinedError name)
      | Some _ =>
          do locked <- is_constant name;
          if locked then error "Cannot reassign constant '{node.name}'" [VStr name]
          else
            do v <- ev value_node;
            do_ store_var name v;
            ret v
      end
  | CompoundAssignNode name value_node operator =>
      do bound <- lookup_var name;
      match bound with
      | None => raise (VariableNotDefinedError name)
      | Some current_value =>
          do locked <- is_constant name;
          if locked then error "Cannot reassign constant '{node.name}'" [VStr name]
          else
            do compound_value <- ev value_node;
            do new_value <- apply_compound_op operator current_value compound_value;
            do_ store_var name new_value;
            ret new_value
      end
  | IncrementNode name operator prefix =>
      do bound <- lookup_var name;
      match bound with
      | None => raise (VariableNotDefinedError name)
      | Some current_value =>
          do locked <- is_constant name;
          if locked then error "Cannot modify constant '{node.name}'" [VStr name]
          else
            do new_value <-
              match operator with
              | T_INCREMENT => py_add current_value (VInt 1)
              | T_DECREMENT => py_sub current_value (VInt 1)
              | _ => error "Unknown increment operator: {node.operator}" []
              end;
            do_ store_var name new_value;
            ret (if prefix then new_value else current_value)
      end
  | VarAccessNode name =>
      do bound <- lookup_var name;
      match bound with
      | None => raise (VariableNotDefinedError name)
      | Some v => ret v
      end
  | RangeNode start_node stop_node step_node =>
      do start <- ev start_node;
      do stop <- match stop_node with
                 | Some n => ev n
                 | None => ret VNone
                 end;
      do step <- match step_node with
                 | Some n => ev n
                 | None => ret (VInt 1)
                 end;
      let '(start, stop) :=
        match stop with
        | VNone => (VInt 1, start)
        | _ => (start, stop)
        end in
      do a <- py_int start;
      do b <- py_int stop;
      do s <- py_int step;
      do items <- py_range a (b + 1) s;
      alloc_list (map VInt items)
  | FunctionCallNode name args =>
      enter limit depth (fun d => eval_function_call d name args)
  | BinaryOpNode left_node op right_node =>
      enter limit depth (fun d => eval_binary_op d left_node op right_node)
  | UnaryOpNode op operand =>
      enter limit depth (fun d => eval_unary_op d op operand)
  | TypeCastNode n target_type =>
      enter limit depth (fun d => eval_type_cast d n target_type)
  | FormatNode n precision =>
      enter limit depth (fun d => eval_format d n precision)
  | InputNode input_type => eval_input input_type
  | PrintNode value_nodes =>
      do values <-
        (fix each (nodes : list node) : M (list string) :=
           match nodes with
           | [] => ret []
           | value_node :: nodes' =>
               do val <- ev value_node;
               do s <- print_text val;
               do r <- each nodes';
               ret (s :: r)
           end) value_nodes;
      do_ modify (fun st => set_stdout (stdout st +:+ String.concat "" values) st);
      ret VNone
  | IfNode condition_node true_block elif_blocks false_block =>
      do condition <- ev condition_node;
      do t <- is_truthy condition;
      if t then ev true_block
      else eval_elifs depth elif_blocks false_block
  | ForLoopNode var_name iterable_node body =>
      do iterable <- ev iterable_node;
      match iterable with
      | VList _ | VStr _ =>
          do st <- get;
          let old_var := variables st !! var_name in
          try_finally (for_loop fuel depth var_name body iterable 0 VNone)
                      (restore_var var_name old_var)
      | _ => error "For loop requires an iterable" []
      end
  | WhileLoopNode condition_node body =>
      while_loop fuel depth condition_node body VNone
  | DoWhileLoopNode body condition_node =>
      do_while_loop fuel depth body condition_node VNone
  | BreakNode => raise BreakException
  | ContinueNode => raise ContinueException
  | BlockNode statements => eval_statements depth statements VNone
  end.

End Methods.

(** [Interpreter.eval], running in a frame at depth [depth], with
    [fuel] bounding the nesting of evaluations and the turns of each
    loop. *)
Fixpoint eval (limit fuel depth : nat) (nd : node) : M value :=
  match fuel with
  | O => out_of_fuel
  | S fuel => eval_node limit (eval limit fuel) fuel depth nd
  end.

(** [Interpreter.run], called from a frame at depth [depth]. *)
Definition run (limit fuel depth : nat) (nd : node) : M value :=
  enter limit depth
    (fun d => enter limit d (fun d' => eval limit fuel d' nd)).

End Interpreter.

(* ===================================================================== *)
(** * Properties of the lexer *)
(* ===================================================================== *)

Import Lexer Ast Interpreter.

(** ** The fuel of the main loop *)

(** The characters the cursor has not passed yet. *)
Definition remaining (lx : lexer) : nat := String.length (rest lx).

Lemma advance_remaining (lx : lexer) :
  remaining (advance lx) = Nat.pred (remaining lx).
Proof.
  unfold advance, remaining. destruct (rest lx) as [|c r]; [reflexivity|].
  destruct (ascii_eqb c newline); reflexivity.
Qed.

Lemma scan_from_remaining (p : ascii -> bool) (s : string) :
  forall ln col : nat,
    (remaining (snd (scan_from p s ln col)) <= String.length s)%nat
    /\ (match s with String c _ => p c = true | EmptyString => False end ->
        remaining (snd (scan_from p s ln col)) < String.length s)%nat.
Proof.
  induction s as [|c r IH]; intros ln col; cbn [scan_from].
  - split; [reflexivity|tauto].
  - destruct (p c) eqn:Hp; [|split; [reflexivity|congruence]].
    destruct (IH (line (advance (mkLexer (String c r) ln col)))
                 (column (advance (mkLexer (String c r) ln col)))) as [Hle _].
    destruct (scan_from p r _ _) as [acc lx'].
    cbn [snd String.length] in *. split; [|intros _]; lia.
Qed.

Lemma block_comment_from_remaining (s : string) :
  forall ln col : nat,
    (remaining (block_comment_from s ln col) <= String.length s)%nat.
Proof.
  induction s as [|c r IH]; intros ln col; cbn [block_comment_from]; [reflexivity|].
  match goal with |- context [if ?b then _ else _] => destruct b end.
  - rewrite !advance_remaining. unfold remaining. cbn [rest]. lia.
  - etransitivity; [apply IH|]. cbn [String.length]. lia.
Qed.

Lemma string_from_remaining (s : string) :
  forall ln col : nat,
    match string_from s ln col with
    | LexOk (_, lx') => (remaining lx' <= String.length s)%nat
    | LexRaise _ => True
    | LexOutOfFuel => False
    end.
Proof.
  assert (Hbound : forall (n : nat) (s : string) (ln col : nat),
             (String.length s <= n)%nat ->
             match string_from s ln col with
             | LexOk (_, lx') => (remaining lx' <= String.length s)%nat
             | LexRaise _ => True
             | LexOutOfFuel => False
             end).
  { clear s. induction n as [|n IH]; intros s ln col Hn;
      destruct s as [|c r]; cbn [string_from]; try exact I;
      cbn [String.length] in Hn; [lia|].
    destruct (ascii_eqb c quote); [reflexivity|].
    destruct (ascii_eqb c backslash).
    - destruct r as [|e r']; [exact I|]. cbn [String.length] in *.
      match goal with |- context [string_from r' ?l ?k] =>
        specialize (IH r' l k ltac:(lia)); destruct (string_from r' l k) as [[acc lx']| |]
      end; [lia|exact I|exact IH].
    - match goal with |- context [string_from r ?l ?k] =>
        specialize (IH r l k ltac:(lia)); destruct (string_from r l k) as [[acc lx']| |]
      end; cbn [String.length]; [lia|exact I|exact IH]. }
  intros ln col. apply (Hbound (String.length s)). reflexivity.
Qed.

Lemma isalpha_isalnum (c : ascii) : Host.isalpha c = true -> Host.isalnum c = true.
Proof. unfold Host.isalnum. intros ->. reflexivity. Qed.

Lemma current_char_rest (lx : lexer) (c : ascii) :
  current_char lx = Some c -> exists r, rest lx = String c r.
Proof.
  unfold current_char. destruct (rest lx) as [|c' r]; [discriminate|].
  intros [= ->]. exists r. reflexivity.
Qed.

Lemma scan_consumes (p : ascii -> bool) (lx : lexer) (c : ascii) :
  current_char lx = Some c -> p c = true ->
  (remaining (snd (scan p lx)) < remaining lx)%nat.
Proof.
  intros Hc Hp. destruct (current_char_rest lx c Hc) as [r Hr].
  unfold scan, remaining at 2. rewrite Hr.
  apply scan_from_remaining. exact Hp.
Qed.

Lemma scan_remaining (p : ascii -> bool) (lx : lexer) :
  (remaining (snd (scan p lx)) <= remaining lx)%nat.
Proof. unfold scan. apply scan_from_remaining. Qed.

(** A token of [number] is paid for with a digit. *)
Lemma number_remaining (lx : lexer) (c : ascii) :
  current_char lx = Some c -> Host.isdigit c = true ->
  match Lexer.number lx with
  | LexOk (_, lx') => (remaining lx' < remaining lx)%nat
  | LexRaise _ => True
  | LexOutOfFuel => False
  end.
Proof.
  intros Hc Hd. unfold Lexer.number.
  pose proof (scan_consumes Host.isdigit lx c Hc Hd) as H1.
  destruct (scan Host.isdigit lx) as [int_part lx1]. cbn [snd] in H1.
  match goal with |- context [if ?b then _ else _] => destruct b end.
  - pose proof (scan_remaining Host.isdigit (advance lx1)) as H3.
    destruct (scan Host.isdigit (advance lx1)) as [frac_part lx3]. cbn [snd] in H3.
    rewrite advance_remaining in H3.
    destruct (Host.float_of_decimal int_part frac_part); [lia|exact I].
  - destruct (Host.int_of_digits int_part); [exact H1|exact I].
Qed.

(** A token of [string] is paid for with its opening quote. *)
Lemma string_remaining (lx : lexer) (c : ascii) :
  current_char lx = Some c ->
  match string_ lx with
  | LexOk (_, lx') => (remaining lx' < remaining lx)%nat
  | LexRaise _ => True
  | LexOutOfFuel => False
  end.
Proof.
  intros Hc. destruct (current_char_rest lx c Hc) as [r Hr].
  assert (Hpos : (remaining lx = S (String.length r))%nat)
    by (unfold remaining; rewrite Hr; reflexivity).
  unfold string_.
  pose proof (string_from_remaining (rest (advance lx)) (line (advance lx))
                (column (advance lx))) as H.
  destruct (string_from _ _ _) as [[result lx']| |]; [|exact I|exact H].
  fold (remaining (advance lx)) in H.
  rewrite advance_remaining in *. lia.
Qed.

(** Every turn of the main loop moves the cursor, so a fuel that covers
    the remaining characters is never used up. *)
Lemma tokenize_loop_fuel (fuel : nat) :
  forall (lx : lexer) (tokens : list Token),
    (remaining lx <= fuel)%nat -> tokenize_loop fuel lx tokens <> LexOutOfFuel.
Proof.
  induction fuel as [|fuel IH]; intros lx tokens Hle.
  - unfold remaining in Hle. cbn [tokenize_loop]. unfold current_char.
    destruct (rest lx); [discriminate|cbn in Hle; lia].
  - cbn [tokenize_loop]. destruct (current_char lx) as [c|] eqn:Hc; [|discriminate].
    destruct (current_char_rest lx c Hc) as [r Hr].
    assert (Hpos : (remaining lx = S (String.length r))%nat)
      by (unfold remaining; rewrite Hr; reflexivity).
    assert (Hadv : (remaining (advance lx) <= fuel)%nat)
      by (rewrite advance_remaining; lia).
    assert (Hadv2 : (remaining (advance (advance lx)) <= fuel)%nat)
      by (rewrite !advance_remaining; lia).
    destruct (Host.isspace c) eqn:Hspace.
    { apply IH. pose proof (scan_consumes Host.isspace lx c Hc Hspace).
      unfold skip_whitespace. lia. }
    destruct (ascii_eqb c "?").
    { assert (Hblock : (remaining (skip_block_comment lx) <= fuel)%nat).
      { unfold skip_block_comment.
        etransitivity; [apply block_comment_from_remaining|exact Hadv2]. }
      assert (Hline : (remaining (skip_single_line_comment lx) <= fuel)%nat).
      { unfold skip_single_line_comment. cbv zeta.
        pose proof (scan_remaining (fun c => negb (ascii_eqb c newline)) (advance lx)).
        destruct (current_char (snd _)); [rewrite advance_remaining|]; lia. }
      destruct (Lexer.peek lx) as [c'|]; [|apply IH; exact Hline].
      destruct (Ascii.eqb_spec c' "-") as [->|Hne]; [apply IH; exact Hblock|].
      destruct c' as [[] [] [] [] [] [] [] []]; try (apply IH; exact Hline).
      congruence. }
    destruct (Host.isdigit c) eqn:Hdigit.
    { pose proof (number_remaining lx c Hc Hdigit) as H.
      destruct (Lexer.number lx) as [[t lx']| |]; [apply IH; lia|discriminate|destruct H]. }
    destruct (ascii_eqb c quote).
    { pose proof (string_remaining lx c Hc) as H.
      destruct (string_ lx) as [[t lx']| |]; [apply IH; lia|discriminate|destruct H]. }
    destruct (Host.isalpha c || ascii_eqb c "_") eqn:Hident.
    { assert (H : (remaining (snd (identifier lx)) <= fuel)%nat).
      { unfold identifier.
        pose proof (scan_consumes (fun c => Host.isalnum c || ascii_eqb c "_") lx c Hc) as H.
        destruct (scan _ lx) as [result lx']. cbn [snd] in H.
        assert (Hp : Host.isalnum c || ascii_eqb c "_" = true).
        { apply orb_true_iff in Hident. destruct Hident as [Ha| ->].
          - rewrite (isalpha_isalnum c Ha). reflexivity.
          - apply orb_true_r. }
        specialize (H Hp).
        destruct (lookup_keyword result keywords); cbn [snd]; lia. }
      destruct (identifier lx) as [t lx']. apply IH. exact H. }
    destruct (match Lexer.peek lx with
              | Some c' => two_char_operator c c'
              | None => None
              end); [apply IH; exact Hadv2|].
    destruct (one_char_operator c); [apply IH; exact Hadv|discriminate].
Qed.

(** [tokenize] returns a token list or raises. *)
Lemma tokenize_total (text : string) : tokenize text <> LexOutOfFuel.
Proof. unfold tokenize. apply tokenize_loop_fuel. cbn. lia. Qed.

(** ** Block comments that are never closed (C6) *)

(** Whether the closing marker [-?] of a block comment occurs in [s]. *)
Fixpoint has_close_marker (s : string) : bool :=
  match s with
  | EmptyString => false
  | String c r =>
      match r with
      | String c' _ =>
          if ascii_eqb c "-" && ascii_eqb c' "?" then true else has_close_marker r
      | EmptyString => false
      end
  end.

(** Without a closing marker the loop of [skip_block_comment] runs to the
    end of the text and stops there, raising nothing. *)
Lemma block_comment_from_runs_out (s : string) :
  forall ln col : nat,
    has_close_marker s = false ->
    rest (block_comment_from s ln col) = EmptyString.
Proof.
  induction s as [|c r IH]; intros ln col Hno; [reflexivity|].
  cbn [block_comment_from].
  unfold Lexer.peek; cbn [rest].
  destruct r as [|c' r'].
  - rewrite andb_false_r. cbn. reflexivity.
  - cbn [has_close_marker] in Hno.
    destruct (ascii_eqb c "-" && ascii_eqb c' "?") eqn:Hm; [discriminate|].
    apply IH. exact Hno.
Qed.

Lemma current_char_of_empty_rest (lx : lexer) :
  rest lx = EmptyString -> current_char lx = None.
Proof. unfold current_char. intros ->. reflexivity. Qed.

(** One turn of the main loop on the opening marker of a block comment. *)
Lemma tokenize_loop_block_comment (fuel : nat) (lx : lexer) (tokens : list Token) :
  current_char lx = Some "?"%char ->
  Lexer.peek lx = Some "-"%char ->
  tokenize_loop (S fuel) lx tokens = tokenize_loop fuel (skip_block_comment lx) tokens.
Proof.
  intros Hc Hp. cbn [tokenize_loop]. rewrite Hc, Hp. reflexivity.
Qed.

(** The main loop at the end of the text. *)
Lemma tokenize_loop_end (fuel : nat) (lx : lexer) (tokens : list Token) :
  current_char lx = None ->
  tokenize_loop fuel lx tokens = LexOk (tokens ++ [tok T_EOF]).
Proof.
  intros Hc. destruct fuel; cbn [tokenize_loop]; rewrite Hc; reflexivity.
Qed.

(** C6 (what the code does): a block comment that is opened and never
    closed is no error.  [tokenize] skips to the end of the text and
    returns the token list that holds the end-of-input token alone. *)
Theorem unterminated_block_comment_is_accepted (s : string) :
  has_close_marker s = false ->
  tokenize ("?-" +:+ s) = LexOk [tok T_EOF].
Proof.
  intros Hno.
  unfold tokenize.
  change ("?-" +:+ s) with (String "?" (String "-" s)).
  cbn [String.length].
  rewrite tokenize_loop_block_comment by reflexivity.
  rewrite tokenize_loop_end; [reflexivity|].
  apply current_char_of_empty_rest.
  unfold skip_block_comment.
  apply block_comment_from_runs_out. exact Hno.
Qed.

Lemma unterminated_block_comment_is_accepted_witness :
  has_close_marker " never closed" = false /\
  tokenize "?- never closed" = LexOk [tok T_EOF].
Proof.
  split; [reflexivity|].
  apply (unterminated_block_comment_is_accepted " never closed").
  reflexivity.
Defined.

(** Two more inputs that end [tokenize] with an exception of the host
    instead of a [LexerError]: a string left open after a backslash, and a
    number written with a superscript digit. *)
Example backslash_at_end_of_text :
  tokenize (String quote (String "a" (String backslash EmptyString)))
  = LexRaise (LexHost Host.TypeError).
Proof. reflexivity. Qed.

Example superscript_digit :
  tokenize (String "178" EmptyString) = LexRaise (LexHost Host.ValueError).
Proof. reflexivity. Qed.

(** The two errors the lexer does raise. *)
Example unterminated_string :
  tokenize (String quote (String "a" EmptyString))
  = LexRaise (LexerError "Unterminated string at line {self.line}, column {self.column}"
                         None 1 3).
Proof. reflexivity. Qed.

Example unknown_character :
  tokenize "@"
  = LexRaise (LexerError
                "Unknown character '{char}' at line {self.line}, column {self.column}"
                (Some "@"%char) 1 1).
Proof. reflexivity. Qed.

(* ===================================================================== *)
(** * The pipeline of [main.run_puffing_file] *)
(* ===================================================================== *)

(** How an execution of a source text ends: in the lexer, in the parser,
    or in the interpreter with the final state. *)
Inductive execution : Type :=
| LexFailed (e : lex_exception)
| ParseFailed (e : Parser.parse_exception)
| Ran (r : result value) (final : interp)
| FuelTooSmall.

(** [Lexer(source).tokenize()], [Parser(tokens).parse()] and
    [Interpreter().run(ast)], the last one called from a frame at depth
    [depth] under the recursion limit [limit]. *)
Definition execute (limit depth parse_fuel fuel : nat) (source : string) : execution :=
  match tokenize source with
  | LexRaise e => LexFailed e
  | LexOutOfFuel => FuelTooSmall
  | LexOk toks =>
      match Parser.parse parse_fuel toks with
      | Parser.ParseRaise e => ParseFailed e
      | Parser.ParseOutOfFuel => FuelTooSmall
      | Parser.ParseOk ast =>
          let '(r, final) := run limit fuel depth ast new_interp in Ran r final
      end
  end.

(** The value an execution returns, when it returns one. *)
Definition returned (e : execution) : option value :=
  match e with
  | Ran (Ok v) _ => Some v
  | _ => None
  end.

(** The exception that leaves [run], when one does. *)
Definition escaped (e : execution) : option exn :=
  match e with
  | Ran (Raise x) _ => Some x
  | _ => None
  end.

(* ===================================================================== *)
(** * Properties of the parser *)
(* ===================================================================== *)

Definition ident (name : string) : Token := mkToken T_IDENT (LitStr name).

(** The program that consists of one expression statement. *)
Definition parse_expression (toks : list Token) : Parser.parse_result node :=
  Parser.parse 20 (toks ++ [tok T_SEMICOLON; tok T_EOF]).

Definition one (e : node) : Parser.parse_result node := Parser.ParseOk (BlockNode [e]).

Definition additive : list TokenType := [T_PLUS; T_MINUS].
Definition multiplicative : list TokenType := [T_MULTIPLY; T_DIVIDE; T_MODULO].

Definition var (name : string) : node := VarAccessNode name.
Definition binop (l : node) (op : TokenType) (r : node) : node := BinaryOpNode l op r.

(** C8: a multiplicative operator binds tighter than an additive one,
    both levels group to the left, the power operator binds tighter still
    and groups to the right; and with [x] bound to 5 and [y] to 10 the
    expression [x + y * 2] evaluates to 25. *)
Theorem precedence_and_associativity (a b c : string) :
  Forall (fun add => Forall (fun mul =>
      parse_expression [ident a; tok add; ident b; tok mul; ident c]
      = one (binop (var a) add (binop (var b) mul (var c)))
      /\ parse_expression [ident a; tok mul; ident b; tok add; ident c]
         = one (binop (binop (var a) mul (var b)) add (var c)))
    multiplicative) additive
  /\ Forall (fun op1 => Forall (fun op2 =>
      parse_expression [ident a; tok op1; ident b; tok op2; ident c]
      = one (binop (binop (var a) op1 (var b)) op2 (var c)))
    additive) additive
  /\ Forall (fun op1 => Forall (fun op2 =>
      parse_expression [ident a; tok op1; ident b; tok op2; ident c]
      = one (binop (binop (var a) op1 (var b)) op2 (var c)))
    multiplicative) multiplicative
  /\ parse_expression [ident a; tok T_POWER; ident b; tok T_POWER; ident c]
     = one (binop (var a) T_POWER (binop (var b) T_POWER (var c)))
  /\ Forall (fun mul =>
      parse_expression [ident a; tok mul; ident b; tok T_POWER; ident c]
      = one (binop (var a) mul (binop (var b) T_POWER (var c)))
      /\ parse_expression [ident a; tok T_POWER; ident b; tok mul; ident c]
         = one (binop (binop (var a) T_POWER (var b)) mul (var c)))
    multiplicative
  /\ returned (execute 1000 0 20 20 "let x as 5; let y as 10; x + y * 2;")
     = Some (VInt 25).
Proof.
  unfold additive, multiplicative.
  repeat split; repeat constructor; vm_compute; reflexivity.
Qed.

(* ===================================================================== *)
(** * Properties of the interpreter *)
(* ===================================================================== *)

(** ** Frames, and the sequencing of computations *)

Lemma enter_refused {A} (limit depth : nat) (method : nat -> M A) (st : interp) :
  (limit <= depth)%nat ->
  enter limit depth method st = (Raise (HostException Host.RecursionError), st).
Proof.
  intros H. unfold enter.
  destruct (limit <=? depth)%nat eqn:E; [reflexivity|].
  apply Nat.leb_gt in E. lia.
Qed.

Lemma enter_granted {A} (limit depth : nat) (method : nat -> M A) (st : interp) :
  (depth < limit)%nat ->
  enter limit depth method st = method (S depth) st.
Proof.
  intros H. unfold enter.
  destruct (limit <=? depth)%nat eqn:E; [|reflexivity].
  apply Nat.leb_le in E. lia.
Qed.

Lemma call_eval_granted (limit : nat) (self_eval : nat -> node -> M value)
    (depth : nat) (nd : node) (st : interp) :
  (depth < limit)%nat ->
  call_eval limit self_eval depth nd st = self_eval (S depth) nd st.
Proof. intros H. unfold call_eval. apply enter_granted. exact H. Qed.

Lemma eval_unfold (limit fuel depth : nat) (nd : node) :
  eval limit (S fuel) depth nd = eval_node limit (eval limit fuel) fuel depth nd.
Proof. reflexivity. Qed.

Lemma set_variables_same (st : interp) : set_variables (variables st) st = st.
Proof. destruct st; reflexivity. Qed.

Lemma bind_ok {A B} (m : M A) (k : A -> M B) (st st' : interp) (a : A) :
  m st = (Ok a, st') -> bind m k st = k a st'.
Proof. intros H. unfold bind. rewrite H. reflexivity. Qed.

Lemma bind_raise {A B} (m : M A) (k : A -> M B) (st st' : interp) (e : exn) :
  m st = (Raise e, st') -> bind m k st = (Raise e, st').
Proof. intros H. unfold bind. rewrite H. reflexivity. Qed.

Lemma catch_return_host (m : M value) (st st' : interp) (e : Host.exception) :
  m st = (Raise (HostException e), st') ->
  catch_return m st = (Raise (HostException e), st').
Proof. intros H. unfold catch_return. rewrite H. reflexivity. Qed.

(** The literal of an integer, and the items of the list object at a
    location. *)
Definition int_literal (n : Z) : node := NumberNode (NInt n).

Definition list_at (st : interp) (l : loc) : list value := default [] (heap st !! l).

Lemma eval_int_literal (limit fuel depth : nat) (n : Z) (st : interp) :
  eval limit (S fuel) depth (int_literal n) st = (Ok (VInt n), st).
Proof. reflexivity. Qed.

(** ** Control-flow signals outside their construct (C5) *)

(** C5 (what the code does): [break] and [continue] outside every loop,
    and [return] outside every call, parse, and their evaluation raises
    the control-flow signal itself.  No loop or call is there to catch it,
    so it leaves [run]; it is no runtime error of [src/errors.py]. *)
Theorem control_signal_leaves_run :
  (forall limit fuel depth st,
      eval limit (S fuel) depth BreakNode st = (Raise BreakException, st)
      /\ eval limit (S fuel) depth ContinueNode st = (Raise ContinueException, st)
      /\ eval limit (S fuel) depth (ReturnNode None) st
         = (Raise (ReturnException VNone), st))
  /\ escaped (execute 1000 0 20 20 "break;") = Some BreakException
  /\ escaped (execute 1000 0 20 20 "continue;") = Some ContinueException
  /\ escaped (execute 1000 0 20 20 "return;") = Some (ReturnException VNone)
  /\ is_runtime_error BreakException = false
  /\ is_runtime_error ContinueException = false
  /\ is_runtime_error (ReturnException VNone) = false.
Proof.
  split; [intros; repeat split|].
  repeat split; vm_compute; reflexivity.
Qed.

(** ** Division and modulo by zero (C4) *)

(** The values [v] for which [v == 0] holds. *)
Definition is_zero_value (v : value) : bool :=
  match v with
  | VInt 0 | VBool false | VFloat (S754_zero _) => true
  | _ => false
  end.

Definition division_by_zero : exn := PuffingRuntimeError "Division by zero" [].

Lemma py_eq_zero (fuel : nat) (v : value) (st : interp) :
  is_zero_value v = true -> py_eq (S fuel) v (VInt 0) st = (Ok true, st).
Proof.
  destruct v as [|[]|[]|[]| | | |]; try discriminate; reflexivity.
Qed.

(** [left % right] for a number [left] and a zero [right]: the host
    raises, [ZeroDivisionError] unless the conversion of a huge integer to
    a float fails first. *)
Lemma py_mod_zero (left right : value) (st : interp) :
  as_num left <> None ->
  is_zero_value right = true ->
  (exists h, py_mod left right st = (Raise (HostException h), st))
  /\ (as_int left <> None -> as_int right <> None ->
      py_mod left right st = (Raise (HostException Host.ZeroDivisionError), st)).
Proof.
  intros Hleft Hzero. unfold py_mod.
  destruct (as_num left) as [[a|f]|] eqn:Hl; [| |congruence].
  - destruct right as [|[]|[]|[]| | | |]; try discriminate Hzero; cbn [as_num Z.b2z Z.eqb].
    1,2: split; [eexists; reflexivity|reflexivity].
    split; [|intros _ H; cbn in H; congruence].
    unfold float_of_num, float_of_int.
    destruct (Host.float_of_Z a) eqn:Ha; cbn; eauto.
  - assert (Hint : as_int left = None) by (destruct left; try discriminate; reflexivity).
    split; [|congruence].
    destruct right as [|[]|[]|[]| | | |]; try discriminate Hzero; cbn; eauto.
Qed.

Section ZeroDivisor.

Variables (limit fuel depth : nat) (st1 st2 : interp) (right : value).
Hypothesis Hdepth : (S depth < limit)%nat.
Hypothesis Hzero : is_zero_value right = true.

(** The binary forms [left / right] and [left % right]. *)
Lemma binary_division_by_zero (left_node right_node : node) (st : interp) (left : value) :
  eval limit (S fuel) (S (S depth)) left_node st = (Ok left, st1) ->
  eval limit (S fuel) (S (S depth)) right_node st1 = (Ok right, st2) ->
  eval limit (S (S fuel)) depth (BinaryOpNode left_node T_DIVIDE right_node) st
  = (Raise division_by_zero, st2)
  /\ (as_num left <> None ->
      exists h, eval limit (S (S fuel)) depth (BinaryOpNode left_node T_MODULO right_node) st
                = (Raise (HostException h), st2))
  /\ (as_int left <> None -> as_int right <> None ->
      eval limit (S (S fuel)) depth (BinaryOpNode left_node T_MODULO right_node) st
      = (Raise (HostException Host.ZeroDivisionError), st2)).
Proof.
  intros Hl Hr.
  assert (Hops : forall op,
            eval limit (S (S fuel)) depth (BinaryOpNode left_node op right_node) st
            = apply_binary_op (S fuel) op left right st2).
  { intros op. rewrite eval_unfold. cbn [eval_node].
    rewrite enter_granted by lia. unfold eval_binary_op.
    rewrite (bind_ok _ _ st st1 left) by (rewrite call_eval_granted by lia; exact Hl).
    rewrite (bind_ok _ _ st1 st2 right) by (rewrite call_eval_granted by lia; exact Hr).
    reflexivity. }
  rewrite !Hops. cbn [apply_binary_op].
  split; [|split].
  - rewrite (bind_ok _ _ st2 st2 true) by (apply py_eq_zero; exact Hzero). reflexivity.
  - intros Hnum.
    exact (proj1 (py_mod_zero left right st2 Hnum Hzero)).
  - intros Hi1 Hi2.
    apply (proj2 (py_mod_zero left right st2 ltac:(destruct left; cbn in *; congruence) Hzero));
      assumption.
Qed.

(** The compound forms [/right name] and [%right name]. *)
Lemma compound_division_by_zero (name : string) (value_node : node) (st : interp)
    (current_value : value) :
  variables st !! name = Some current_value ->
  name ∉ constants st ->
  eval limit (S fuel) (S depth) value_node st = (Ok right, st2) ->
  eval limit (S (S fuel)) depth (CompoundAssignNode name value_node T_DIVIDE) st
  = (Raise division_by_zero, st2)
  /\ (as_num current_value <> None ->
      exists h, eval limit (S (S fuel)) depth (CompoundAssignNode name value_node T_MODULO) st
                = (Raise (HostException h), st2))
  /\ (as_int current_value <> None -> as_int right <> None ->
      eval limit (S (S fuel)) depth (CompoundAssignNode name value_node T_MODULO) st
      = (Raise (HostException Host.ZeroDivisionError), st2)).
Proof.
  intros Hbound Hfree Hvalue.
  assert (Hops : forall op,
            eval limit (S (S fuel)) depth (CompoundAssignNode name value_node op) st
            = (do new_value <- apply_compound_op (S fuel) op current_value right;
               do_ store_var name new_value; ret new_value) st2).
  { intros op. rewrite eval_unfold. cbn [eval_node].
    rewrite (bind_ok _ _ st st (Some current_value))
      by (unfold lookup_var; rewrite Hbound; reflexivity).
    rewrite (bind_ok _ _ st st false)
      by (unfold is_constant; rewrite bool_decide_eq_false_2 by exact Hfree; reflexivity).
    rewrite (bind_ok _ _ st st2 right) by (rewrite call_eval_granted by lia; exact Hvalue).
    reflexivity. }
  rewrite !Hops. cbn [apply_compound_op].
  split; [|split].
  - apply bind_raise.
    rewrite (bind_ok _ _ st2 st2 true) by (apply py_eq_zero; exact Hzero). reflexivity.
  - intros Hnum.
    destruct (proj1 (py_mod_zero current_value right st2 Hnum Hzero)) as [h Hh].
    exists h. apply bind_raise. exact Hh.
  - intros Hi1 Hi2. apply bind_raise.
    apply (proj2 (py_mod_zero current_value right st2
                    ltac:(destruct current_value; cbn in *; congruence) Hzero));
      assumption.
Qed.

End ZeroDivisor.

(** C4 (what the code does): with a right operand that evaluates to a
    zero, division raises the runtime error [Division by zero] in the
    binary and in the compound form; modulo has no such check in either
    form, and what is raised is the exception of the host
    ([ZeroDivisionError] when both operands are integers), which is no
    runtime error of [src/errors.py]. *)
Theorem modulo_by_zero_is_a_host_exception (limit fuel depth : nat)
    (right : value) (st1 st2 : interp) :
  (S depth < limit)%nat ->
  is_zero_value right = true ->
  (forall left_node right_node st left,
      eval limit (S fuel) (S (S depth)) left_node st = (Ok left, st1) ->
      eval limit (S fuel) (S (S depth)) right_node st1 = (Ok right, st2) ->
      eval limit (S (S fuel)) depth (BinaryOpNode left_node T_DIVIDE right_node) st
      = (Raise division_by_zero, st2)
      /\ (as_num left <> None ->
          exists h,
            eval limit (S (S fuel)) depth (BinaryOpNode left_node T_MODULO right_node) st
            = (Raise (HostException h), st2))
      /\ (as_int left <> None -> as_int right <> None ->
          eval limit (S (S fuel)) depth (BinaryOpNode left_node T_MODULO right_node) st
          = (Raise (HostException Host.ZeroDivisionError), st2)))
  /\ (forall name value_node current_value,
         variables st1 !! name = Some current_value ->
         name ∉ constants st1 ->
         eval limit (S fuel) (S depth) value_node st1 = (Ok right, st2) ->
         eval limit (S (S fuel)) depth (CompoundAssignNode name value_node T_DIVIDE) st1
         = (Raise division_by_zero, st2)
         /\ (as_num current_value <> None ->
             exists h,
               eval limit (S (S fuel)) depth
                 (CompoundAssignNode name value_node T_MODULO) st1
               = (Raise (HostException h), st2))
         /\ (as_int current_value <> None -> as_int right <> None ->
             eval limit (S (S fuel)) depth
               (CompoundAssignNode name value_node T_MODULO) st1
             = (Raise (HostException Host.ZeroDivisionError), st2)))
  /\ is_runtime_error division_by_zero = true
  /\ (forall h, is_runtime_error (HostException h) = false).
Proof.
  intros Hdepth Hzero. repeat apply conj.
  - intros left_node right_node st left.
    apply (binary_division_by_zero limit fuel depth st1 st2 right Hdepth Hzero).
  - intros name value_node current_value.
    apply (compound_division_by_zero limit fuel depth st2 right Hdepth Hzero).
  - reflexivity.
  - reflexivity.
Qed.

Lemma modulo_by_zero_is_a_host_exception_witness :
  eval 1000 22 0 (BinaryOpNode (int_literal 5) T_MODULO (int_literal 0)) new_interp
  = (Raise (HostException Host.ZeroDivisionError), new_interp)
  /\ eval 1000 22 0 (BinaryOpNode (int_literal 5) T_DIVIDE (int_literal 0)) new_interp
     = (Raise division_by_zero, new_interp).
Proof.
  destruct (modulo_by_zero_is_a_host_exception 1000 20 0 (VInt 0) new_interp new_interp
              ltac:(lia) eq_refl) as [Hbinary _].
  destruct (Hbinary (int_literal 5) (int_literal 0) new_interp (VInt 5) eq_refl eq_refl)
    as (Hdivide & _ & Hmodulo).
  split; [apply Hmodulo; discriminate|exact Hdivide].
Defined.

(** The same on programs read from source text, from the lexer to [run]. *)
Example division_by_zero_from_source :
  escaped (execute 1000 0 20 20 "5 % 0;") = Some (HostException Host.ZeroDivisionError)
  /\ escaped (execute 1000 0 20 20 "let x as 5; %0 x;")
     = Some (HostException Host.ZeroDivisionError)
  /\ escaped (execute 1000 0 20 20 "5.5 % 0.0;")
     = Some (HostException Host.ZeroDivisionError)
  /\ escaped (execute 1000 0 20 20 "5 / 0;") = Some division_by_zero
  /\ escaped (execute 1000 0 20 20 "let x as 5; /0 x;") = Some division_by_zero.
Proof.
  repeat split; vm_compute; reflexivity.
Qed.

(** ** Runaway recursion (C7) *)

(** The function [fun f() { return f(); }] and a call of it. *)
Definition runaway_call : node := FunctionCallNode (CalleeName "f") [].
Definition runaway_body : node := BlockNode [ReturnNode (Some runaway_call)].
Definition runaway_program : node :=
  BlockNode [FunctionDefNode "f" [] runaway_body; runaway_call].

(** Whatever the recursion limit and the depth the call starts at, the
    call ends with the host's [RecursionError]; every [finally] clause on
    the way out has put the variables back. *)
Lemma runaway_call_overflows (limit : nat) (id : nat) :
  forall (n depth fuel : nat) (st : interp),
    (limit - depth <= n)%nat ->
    (3 * n + 3 <= fuel)%nat ->
    variables st !! "f" = Some (VFunction id "f" [] runaway_body) ->
    eval limit fuel depth runaway_call st
    = (Raise (HostException Host.RecursionError), st).
Proof.
  induction n as [n IH] using lt_wf_ind.
  intros depth fuel st Hn Hfuel Hf.
  destruct fuel as [|[|[|fuel]]]; try lia.
  rewrite eval_unfold. unfold runaway_call at 1. cbn [eval_node].
  destruct (Nat.le_gt_cases limit depth) as [H0|H0];
    [apply enter_refused; exact H0|rewrite enter_granted by exact H0].
  unfold eval_function_call.
  rewrite (bind_ok _ _ st st (Some (VFunction id "f" [] runaway_body)))
    by (unfold lookup_var; rewrite Hf; reflexivity).
  cbn [eval_all]. rewrite (bind_ok _ _ st st []) by reflexivity.
  apply catch_return_host.
  destruct (Nat.le_gt_cases limit (S depth)) as [H1|H1];
    [apply enter_refused; exact H1|rewrite enter_granted by exact H1].
  unfold PuffingFunction_call. cbn [length Nat.eqb negb].
  rewrite (bind_ok _ _ st st st) by reflexivity.
  unfold try_finally.
  assert (Hbody : catch_return
            (do_ bind_params [] []; call_eval limit (eval limit (S (S fuel))) (S (S depth)) runaway_body) st
          = (Raise (HostException Host.RecursionError), st)).
  { apply catch_return_host.
    cbn [bind_params]. rewrite (bind_ok _ _ st st tt) by reflexivity.
    unfold call_eval.
    destruct (Nat.le_gt_cases limit (S (S depth))) as [H2|H2];
      [apply enter_refused; exact H2|rewrite enter_granted by exact H2].
    rewrite eval_unfold. unfold runaway_body at 1. cbn [eval_node eval_statements].
    apply bind_raise. unfold call_eval.
    destruct (Nat.le_gt_cases limit (S (S (S depth)))) as [H3|H3];
      [apply enter_refused; exact H3|rewrite enter_granted by exact H3].
    rewrite eval_unfold. cbn [eval_node].
    apply bind_raise. unfold call_eval.
    destruct (Nat.le_gt_cases limit (S (S (S (S depth))))) as [H4|H4];
      [apply enter_refused; exact H4|rewrite enter_granted by exact H4].
    apply (IH (n - 1)%nat); [lia|lia|lia|exact Hf]. }
  rewrite Hbody. rewrite set_variables_same. reflexivity.
Qed.

(** C7 (what the code does): the evaluator has no handler for the host's
    [RecursionError].  Under any recursion limit the program [fun f() {
    return f(); } f();] ends with that exception leaving [run]; the
    [StackOverflowError] of [src/errors.py] is never raised. *)
Theorem recursion_error_leaves_run (limit depth fuel : nat) :
  (3 * limit + 6 <= fuel)%nat ->
  fst (run limit fuel depth runaway_program new_interp)
  = Raise (HostException Host.RecursionError)
  /\ is_runtime_error (HostException Host.RecursionError) = false.
Proof.
  intros Hfuel. split; [|reflexivity].
  unfold run.
  destruct (Nat.le_gt_cases limit depth) as [H0|H0];
    [rewrite enter_refused by exact H0; reflexivity|rewrite enter_granted by exact H0].
  destruct (Nat.le_gt_cases limit (S depth)) as [H1|H1];
    [rewrite enter_refused by exact H1; reflexivity|rewrite enter_granted by exact H1].
  destruct fuel as [|[|fuel]]; try lia.
  rewrite eval_unfold. unfold runaway_program. cbn [eval_node eval_statements].
  unfold call_eval at 1.
  destruct (Nat.le_gt_cases limit (S (S depth))) as [H2|H2].
  { erewrite bind_raise by (apply enter_refused; exact H2). reflexivity. }
  pose (func := VFunction 0 "f" [] runaway_body).
  pose (st1 := mkInterp (<["f" := func]> ∅) ∅ [] 1 EmptyString).
  rewrite (bind_ok _ _ new_interp st1 func)
    by (rewrite enter_granted by exact H2; reflexivity).
  erewrite bind_raise; [reflexivity|].
  unfold call_eval. rewrite enter_granted by exact H2.
  apply (runaway_call_overflows limit 0 limit); [lia|lia|].
  apply lookup_insert_eq.
Qed.

Example recursion_error_under_the_default_limit :
  escaped (execute 1000 0 20 3006 "fun f() { return f(); } f();")
  = Some (HostException Host.RecursionError).
Proof. vm_compute. reflexivity. Qed.

Lemma recursion_error_leaves_run_witness :
  (3 * 50 + 6 <= 200)%nat /\
  fst (run 50 200 0 runaway_program new_interp)
  = Raise (HostException Host.RecursionError).
Proof.
  split; [lia|].
  apply (recursion_error_leaves_run 50 0 200). lia.
Defined.

(** ** Index reads (C2) *)

Definition index_out_of_range (key container_value : value) : exn :=
  PuffingRuntimeError
    "Index {key} out of range for {type(container_value).__name__} of length {len(container_value)}"
    [key; container_value].

Definition index_invalid (key : value) : exn :=
  PuffingRuntimeError "Index {key} is invalid (indices start at 1)" [key].

Definition index_not_integer (key : value) : exn :=
  PuffingRuntimeError "Array/string index must be an integer, got {type(key).__name__}" [key].

(** What reading a list with the integer [k] gives, [key] being the value
    that stands for [k].  Out of range, the message holds the text of
    the key: the runtime error is raised when the host builds that text,
    and the host's [ValueError] when [k] has more than 4300 digits. *)
Definition integer_read (items : list value) (k : Z) (key container_value : value)
    (outcome : result value) : Prop :=
  let n := Z.of_nat (length items) in
  (1 <= k <= n -> exists x, items !! Z.to_nat (k - 1) = Some x /\ outcome = Ok x)
  /\ (- n <= k <= -1 -> exists x, items !! Z.to_nat (n + k) = Some x /\ outcome = Ok x)
  /\ (k = 0 -> outcome = Raise (index_invalid key))
  /\ ((n < k \/ k < - n) /\ Z.abs k < 10 ^ 4300 ->
      outcome = Raise (index_out_of_range key container_value))
  /\ ((n < k \/ k < - n) /\ 10 ^ 4300 <= Z.abs k ->
      outcome = Raise (HostException Host.ValueError)).

Lemma max_str_bound_eq : Host.max_str_bound = 10 ^ 4300.
Proof. vm_compute. reflexivity. Qed.

Lemma int_text_fits_spec (n : Z) :
  Host.int_text_fits n = true <-> Z.abs n < 10 ^ 4300.
Proof.
  unfold Host.int_text_fits. rewrite max_str_bound_eq. apply Z.ltb_lt.
Qed.

(** [str(key)] for a key that stands for the integer [k]. *)
Lemma py_str_key (key : value) (k : Z) (st : interp) :
  as_int key = Some k ->
  (Z.abs k < 10 ^ 4300 -> exists text, py_str key st = (Ok text, st))
  /\ (10 ^ 4300 <= Z.abs k -> py_str key st = (Raise (HostException Host.ValueError), st)).
Proof.
  intros Hk. destruct key as [|b|n| | | | |]; try discriminate Hk.
  - split; [intros _; eexists; reflexivity|].
    injection Hk as <-.
    assert (H : Z.abs (Z.b2z b) <= 1) by (destruct b; cbn; lia).
    assert (H1 : 1 < 10 ^ 4300) by (apply Z.pow_gt_1; reflexivity).
    revert H1. generalize (10 ^ 4300). intros bound H1 Hbig. lia.
  - injection Hk as <-. unfold py_str.
    destruct (Host.int_text_fits n) eqn:Hfits.
    + split; [intros _; eexists; reflexivity|].
      apply int_text_fits_spec in Hfits. intros Hbig.
      exfalso. apply (proj1 (Z.lt_nge _ _) Hfits Hbig).
    + split; [|reflexivity].
      intros Hsmall. apply int_text_fits_spec in Hsmall. congruence.
Qed.

Lemma index_access_integer (l : loc) (key : value) (k : Z) (st : interp) :
  as_int key = Some k ->
  snd (index_access (VList l) key st) = st
  /\ integer_read (list_at st l) k key (VList l) (fst (index_access (VList l) key st)).
Proof.
  intros Hk. unfold index_access.
  rewrite (bind_ok _ _ st st (list_at st l)) by reflexivity.
  rewrite Hk. fold (index_out_of_range key (VList l)). fold (index_invalid key).
  set (items := list_at st l).
  assert (Hout : snd ((do_ py_str key; @raise value (index_out_of_range key (VList l))) st) = st
                 /\ (Z.abs k < 10 ^ 4300 ->
                     fst ((do_ py_str key; @raise value (index_out_of_range key (VList l))) st)
                     = Raise (index_out_of_range key (VList l)))
                 /\ (10 ^ 4300 <= Z.abs k ->
                     fst ((do_ py_str key; @raise value (index_out_of_range key (VList l))) st)
                     = Raise (HostException Host.ValueError))).
  { destruct (py_str_key key k st Hk) as [Hsmall Hbig].
    destruct (Z_lt_le_dec (Z.abs k) (10 ^ 4300)) as [Hlt|Hge].
    - destruct (Hsmall Hlt) as [text Htext].
      rewrite (bind_ok _ _ st st text) by exact Htext.
      split; [reflexivity|]. split; [reflexivity|].
      intros Hge. exfalso. apply (proj1 (Z.lt_nge _ _) Hlt Hge).
    - rewrite (bind_raise _ _ st st _ (Hbig Hge)).
      split; [reflexivity|]. split; [|reflexivity].
      intros Hlt. exfalso. apply (proj1 (Z.lt_nge _ _) Hlt Hge). }
  destruct Hout as (Hstate & Hsmall & Hbig).
  unfold py_index, error, integer_read.
  revert Hsmall Hbig. generalize (10 ^ 4300). intros bound Hsmall Hbig.
  destruct (k <? 0) eqn:Hneg.
  - apply Z.ltb_lt in Hneg.
    destruct (0 <=? Z.of_nat (length items) + k) eqn:Hin.
    + apply Z.leb_le in Hin.
      destruct (lookup_lt_is_Some_2 items (Z.to_nat (Z.of_nat (length items) + k)))
        as [x Hx]; [lia|].
      rewrite Hx. split; [reflexivity|].
      repeat split; intros; try lia; eauto.
    + apply Z.leb_gt in Hin. split; [exact Hstate|].
      repeat split; intros; try lia; [apply Hsmall|apply Hbig]; lia.
  - apply Z.ltb_ge in Hneg.
    destruct (k - 1 <? 0) eqn:Hzero.
    + apply Z.ltb_lt in Hzero. split; [reflexivity|].
      repeat split; intros; try lia; reflexivity.
    + apply Z.ltb_ge in Hzero.
      destruct (items !! Z.to_nat (k - 1)) as [x|] eqn:Hx.
      * pose proof (lookup_lt_Some _ _ _ Hx) as Hlen. split; [reflexivity|].
        repeat split; intros; try lia; eauto.
      * pose proof (lookup_ge_None_1 _ _ Hx) as Hlen. split; [exact Hstate|].
        repeat split; intros; try lia; [apply Hsmall|apply Hbig]; lia.
Qed.

Lemma index_access_not_integer (l : loc) (key : value) (st : interp) :
  as_int key = None ->
  index_access (VList l) key st = (Raise (index_not_integer key), st).
Proof.
  intros Hk. unfold index_access.
  rewrite (bind_ok _ _ st st (list_at st l)) by reflexivity.
  rewrite Hk. reflexivity.
Qed.

(** The [IndexAccessNode] branch: the container, then the key, then the
    read. *)
Lemma eval_index_access (limit fuel depth : nat) (container_node key_node : node)
    (st st1 st2 : interp) (container_value key : value) :
  (depth < limit)%nat ->
  eval limit fuel (S depth) container_node st = (Ok container_value, st1) ->
  eval limit fuel (S depth) key_node st1 = (Ok key, st2) ->
  eval limit (S fuel) depth (IndexAccessNode container_node key_node) st
  = index_access container_value key st2.
Proof.
  intros Hd Hc Hk. rewrite eval_unfold. cbn [eval_node].
  rewrite (bind_ok _ _ st st1 container_value)
    by (unfold call_eval; rewrite enter_granted by exact Hd; exact Hc).
  rewrite (bind_ok _ _ st1 st2 key)
    by (unfold call_eval; rewrite enter_granted by exact Hd; exact Hk).
  reflexivity.
Qed.

(** C2 (what the code does): on an array of length [n], the integer
    index [k] reads slot [k - 1] for [1 <= k <= n] and slot [n + k] for
    [-n <= k <= -1]; it raises the runtime error [Index 0 is invalid]
    for [k = 0] and, for [k > n] and [k < -n], the out-of-range runtime
    error when [k] has at most 4300 digits and the [ValueError] of the
    host beyond, which is no runtime error.  A boolean key passes the
    test [isinstance(key, int)] and is read as the integer 1 or 0, where
    the claim has the index-type error; that error is raised for the
    keys that are neither integers nor booleans.  The state is the one
    left by the evaluation of the two operands. *)
Theorem index_read (limit fuel depth : nat) (container_node key_node : node)
    (st st1 st2 : interp) (l : loc) (key : value) :
  (depth < limit)%nat ->
  eval limit fuel (S depth) container_node st = (Ok (VList l), st1) ->
  eval limit fuel (S depth) key_node st1 = (Ok key, st2) ->
  let read := eval limit (S fuel) depth (IndexAccessNode container_node key_node) st in
  snd read = st2
  /\ match key with
     | VInt k => integer_read (list_at st2 l) k key (VList l) (fst read)
     | VBool b => integer_read (list_at st2 l) (Z.b2z b) key (VList l) (fst read)
     | _ => fst read = Raise (index_not_integer key)
     end
  /\ is_runtime_error (index_not_integer key) = true
  /\ is_runtime_error (HostException Host.ValueError) = false.
Proof.
  intros Hd Hc Hk read. subst read.
  rewrite (eval_index_access limit fuel depth _ _ st st1 st2 (VList l) key Hd Hc Hk).
  assert (Hread : snd (index_access (VList l) key st2) = st2
                  /\ match key with
                     | VInt k =>
                         integer_read (list_at st2 l) k key (VList l)
                           (fst (index_access (VList l) key st2))
                     | VBool b =>
                         integer_read (list_at st2 l) (Z.b2z b) key (VList l)
                           (fst (index_access (VList l) key st2))
                     | _ => fst (index_access (VList l) key st2) = Raise (index_not_integer key)
                     end).
  { destruct key as [|b|k| | | | |];
      try (rewrite index_access_not_integer by reflexivity; split; reflexivity).
    - apply (index_access_integer l (VBool b) (Z.b2z b)). reflexivity.
    - apply (index_access_integer l (VInt k) k). reflexivity. }
  destruct Hread as [Hstate Hvalue].
  split; [exact Hstate|]. split; [exact Hvalue|]. split; reflexivity.
Qed.

(** A three-element array, read with the key [true]: the first element
    is returned. *)
Definition three_items : node := ArrayNode [int_literal 10; int_literal 20; int_literal 30].
Definition three_items_state : interp :=
  mkInterp ∅ ∅ [[VInt 10; VInt 20; VInt 30]] 0 EmptyString.

(** The key [true] reads the first element, and the least key of 4301
    digits ends with the [ValueError] of the host. *)
Lemma index_read_witness :
  fst (eval 1000 6 0 (IndexAccessNode three_items (BoolNode true)) new_interp) = Ok (VInt 10)
  /\ integer_read (list_at three_items_state 0%nat) 1 (VBool true) (VList 0%nat)
       (fst (eval 1000 6 0 (IndexAccessNode three_items (BoolNode true)) new_interp))
  /\ fst (eval 1000 6 0 (IndexAccessNode three_items (int_literal Host.max_str_bound))
            new_interp)
     = Raise (HostException Host.ValueError).
Proof.
  split; [reflexivity|]. split.
  - refine (proj1 (proj2 (index_read 1000 5 0 three_items (BoolNode true) new_interp
                            three_items_state three_items_state 0%nat (VBool true) _ _ _))).
    + lia.
    + reflexivity.
    + reflexivity.
  - refine (proj2 (proj2 (proj2 (proj2 (proj1 (proj2
              (index_read 1000 5 0 three_items (int_literal Host.max_str_bound) new_interp
                 three_items_state three_items_state 0%nat (VInt Host.max_str_bound)
                 _ _ _)))))) _).
    + lia.
    + reflexivity.
    + reflexivity.
    + split; [left; vm_compute; reflexivity|].
      rewrite max_str_bound_eq, Z.abs_eq; [apply Z.le_refl|].
      apply Z.pow_nonneg. discriminate.
Defined.

(** The same on programs read from source text, from the lexer to
    [run]: the keys 2 and -1 read the second and the last element, the
    key [true] reads the first one where the claim has the index-type
    error, which an array as key does raise; the keys 0 and 4 raise the
    runtime errors. *)
Example index_read_from_source :
  returned (execute 1000 0 20 20 "[10, 20, 30][2];") = Some (VInt 20)
  /\ returned (execute 1000 0 20 20 "[10, 20, 30][-1];") = Some (VInt 30)
  /\ returned (execute 1000 0 20 20 "[10, 20, 30][true];") = Some (VInt 10)
  /\ escaped (execute 1000 0 20 20 "[10, 20, 30][[1]];")
     = Some (index_not_integer (VList 1%nat))
  /\ escaped (execute 1000 0 20 20 "[10, 20, 30][0];") = Some (index_invalid (VInt 0))
  /\ escaped (execute 1000 0 20 20 "[10, 20, 30][4];")
     = Some (index_out_of_range (VInt 4) (VList 0%nat)).
Proof.
  split; [vm_compute; reflexivity|]. split; [vm_compute; reflexivity|].
  split; [vm_compute; reflexivity|]. split; [vm_compute; reflexivity|].
  split; vm_compute; reflexivity.
Qed.

(** The index-type error is not what every key other than an integer
    raises: a boolean key reads an element. *)
Lemma boolean_index_is_accepted :
  returned (execute 1000 0 20 20 "[10, 20, 30][true];") = Some (VInt 10)
  /\ ~ (forall (st : interp) (l : loc) (key : value),
          (forall k, key <> VInt k) ->
          fst (index_access (VList l) key st) = Raise (index_not_integer key)).
Proof.
  split; [vm_compute; reflexivity|].
  intros H.
  specialize (H (mkInterp ∅ ∅ [[VInt 10; VInt 20; VInt 30]] 0 EmptyString) 0%nat (VBool true)).
  assert (Hk : forall k, VBool true <> VInt k) by (intros k; discriminate).
  specialize (H Hk). vm_compute in H. discriminate H.
Qed.

(** ** Ranges (C10) *)

(** The integers [a, a + 1, ..., b]. *)
Definition interval (a b : Z) : list Z :=
  map (fun i => a + Z.of_nat i) (seq 0 (Z.to_nat (b - a + 1))).

Lemma interval_length (a b : Z) : length (interval a b) = Z.to_nat (b - a + 1).
Proof. unfold interval. rewrite length_map, length_seq. reflexivity. Qed.

Lemma interval_lookup (a b : Z) (i : nat) :
  (i < Z.to_nat (b - a + 1))%nat -> interval a b !! i = Some (a + Z.of_nat i).
Proof.
  intros Hi. unfold interval.
  rewrite list_lookup_fmap, lookup_seq_lt by exact Hi. reflexivity.
Qed.

(** [list(range(a, b + 1, 1))]. *)
Lemma py_range_interval (a b : Z) (st : interp) :
  py_range a (b + 1) 1 st = (Ok (interval a b), st).
Proof.
  unfold py_range, interval. cbn [Z.eqb Z.ltb Z.compare].
  replace ((b + 1 - a + 1 - 1) / 1) with (b - a + 1) by (rewrite Z.div_1_r; lia).
  unfold ret. do 2 f_equal.
  apply map_ext. intros i. lia.
Qed.

(** The [RangeNode] branch with the three operands evaluating to
    integers and a step of one. *)
Lemma eval_range (limit fuel depth : nat) (start_node stop_node : node)
    (st st1 st2 : interp) (a b : Z) :
  (depth < limit)%nat ->
  eval limit (S fuel) (S depth) start_node st = (Ok (VInt a), st1) ->
  eval limit (S fuel) (S depth) stop_node st1 = (Ok (VInt b), st2) ->
  eval limit (S (S fuel)) depth
       (RangeNode start_node (Some stop_node) (Some (int_literal 1))) st
  = (Ok (VList (length (heap st2))),
     set_heap (heap st2 ++ [map VInt (interval a b)]) st2).
Proof.
  intros Hd Ha Hb. rewrite eval_unfold. cbn [eval_node].
  rewrite (bind_ok _ _ st st1 (VInt a))
    by (unfold call_eval; rewrite enter_granted by exact Hd; exact Ha).
  rewrite (bind_ok _ _ st1 st2 (VInt b))
    by (unfold call_eval; rewrite enter_granted by exact Hd; exact Hb).
  rewrite (bind_ok _ _ st2 st2 (VInt 1))
    by (unfold call_eval; rewrite enter_granted by exact Hd; reflexivity).
  cbn [py_int].
  rewrite (bind_ok _ _ st2 st2 a) by reflexivity.
  rewrite (bind_ok _ _ st2 st2 b) by reflexivity.
  rewrite (bind_ok _ _ st2 st2 1) by reflexivity.
  rewrite (bind_ok _ _ st2 st2 (interval a b)) by apply py_range_interval.
  reflexivity.
Qed.

(** C10: the parser turns [range(x)] into the range from the literal 1 to
    [x] and [range(lo, hi)] into the range from [lo] to [hi], both with
    the step 1; evaluated with [x] an integer [n >= 1] (resp. [lo] and
    [hi] integers [a <= b]), the result is a new array holding [1, ..., n]
    (resp. [a, ..., b]), the stop value included. *)
Theorem range_is_inclusive (limit fuel depth : nat) (x lo hi : node)
    (st st1 st' st'' : interp) (a b n : Z) :
  (depth < limit)%nat ->
  1 <= n ->
  a <= b ->
  eval limit (S fuel) (S depth) x st = (Ok (VInt n), st1) ->
  eval limit (S fuel) (S depth) lo st = (Ok (VInt a), st') ->
  eval limit (S fuel) (S depth) hi st' = (Ok (VInt b), st'') ->
  (forall p, Parser.make_call (VarAccessNode "range") [x] p
             = Parser.ParseOk (RangeNode (int_literal 1) (Some x) (Some (int_literal 1)), p))
  /\ (forall p, Parser.make_call (VarAccessNode "range") [lo; hi] p
                = Parser.ParseOk (RangeNode lo (Some hi) (Some (int_literal 1)), p))
  /\ eval limit (S (S fuel)) depth
          (RangeNode (int_literal 1) (Some x) (Some (int_literal 1))) st
     = (Ok (VList (length (heap st1))),
        set_heap (heap st1 ++ [map VInt (interval 1 n)]) st1)
  /\ eval limit (S (S fuel)) depth (RangeNode lo (Some hi) (Some (int_literal 1))) st
     = (Ok (VList (length (heap st''))),
        set_heap (heap st'' ++ [map VInt (interval a b)]) st'')
  /\ length (interval 1 n) = Z.to_nat n
  /\ length (interval a b) = Z.to_nat (b - a + 1)
  /\ (forall i : nat, (i < Z.to_nat n)%nat -> interval 1 n !! i = Some (1 + Z.of_nat i))
  /\ (forall i : nat, (i < Z.to_nat (b - a + 1))%nat ->
                      interval a b !! i = Some (a + Z.of_nat i)).
Proof.
  intros Hd Hn Hab Hx Hlo Hhi.
  split; [reflexivity|]. split; [reflexivity|].
  split; [apply (eval_range limit fuel depth _ _ st st st1 1 n Hd);
          [apply eval_int_literal|exact Hx]|].
  split; [apply (eval_range limit fuel depth _ _ st st' st'' a b Hd Hlo Hhi)|].
  split; [rewrite interval_length; f_equal; lia|].
  split; [apply interval_length|].
  split; [intros i Hi; apply interval_lookup; replace (n - 1 + 1) with n by lia; exact Hi|].
  intros i Hi. apply interval_lookup. exact Hi.
Qed.

(** [range(4)] and [range(3, 6)] in the empty interpreter. *)
Lemma range_is_inclusive_witness :
  eval 1000 2 0 (RangeNode (int_literal 1) (Some (int_literal 4)) (Some (int_literal 1)))
       new_interp
  = (Ok (VList 0%nat), set_heap [[VInt 1; VInt 2; VInt 3; VInt 4]] new_interp)
  /\ eval 1000 2 0 (RangeNode (int_literal 3) (Some (int_literal 6)) (Some (int_literal 1)))
          new_interp
     = (Ok (VList 0%nat), set_heap [[VInt 3; VInt 4; VInt 5; VInt 6]] new_interp).
Proof.
  pose proof (range_is_inclusive 1000 0 0 (int_literal 4) (int_literal 3) (int_literal 6)
                new_interp new_interp new_interp new_interp 3 6 4) as H.
  destruct H as (_ & _ & H1 & H2 & _);
    [lia|lia|lia|reflexivity|reflexivity|reflexivity|].
  split; [exact H1|exact H2].
Defined.

Example range_from_source :
  match execute 1000 0 20 20 "range(4); range(3, 6);" with
  | Ran (Ok (VList l)) final => heap final
  | _ => []
  end = [[VInt 1; VInt 2; VInt 3; VInt 4]; [VInt 3; VInt 4; VInt 5; VInt 6]].
Proof. vm_compute. reflexivity. Qed.

(** ** Calls (C1) *)

Lemma bind_params_returns (params : list string) (args : list value) (st : interp) :
  fst (bind_params params args st) = Ok tt.
Proof.
  revert args st. induction params as [|param params IH]; intros [|arg args] st;
    try reflexivity.
  cbn [bind_params]. unfold bind, store_var, modify. apply IH.
Qed.

(** [return v] inside the body is the result [v] of the call; anything
    else the body ends with is what the call ends with. *)
Definition call_result (r : result value) : result value :=
  match r with
  | Raise (ReturnException v) => Ok v
  | _ => r
  end.

(** What a call does once the argument count is right: the parameters
    are bound, the body runs, and the variables of the caller replace
    those the body leaves; the rest of the final state is the body's. *)
Lemma call_frame (m : M value) (params : list string) (args : list value) (st : interp) :
  try_finally (catch_return (do_ bind_params params args; m))
              (set_variables (variables st)) st
  = (call_result (fst (m (snd (bind_params params args st)))),
     set_variables (variables st) (snd (m (snd (bind_params params args st))))).
Proof.
  unfold try_finally, catch_return, bind.
  pose proof (bind_params_returns params args st) as Hb.
  destruct (bind_params params args st) as [rb stb]. cbn [fst snd] in *. subst rb.
  destruct (m stb) as [[v|e| |w] st']; cbn [fst snd call_result]; try reflexivity.
  destruct e; reflexivity.
Qed.

(** The binding loop: what the body of a call starts from.  Each
    parameter is bound to the argument at its place (the last place, for
    a name listed twice), the other names keep the binding of the
    caller, and nothing but the variables is touched. *)
Lemma bind_params_binds (params : list string) :
  forall (args : list value) (st : interp),
    heap (snd (bind_params params args st)) = heap st
    /\ constants (snd (bind_params params args st)) = constants st
    /\ (forall x, x ∉ params ->
          variables (snd (bind_params params args st)) !! x = variables st !! x)
    /\ (forall i param arg,
          params !! i = Some param -> args !! i = Some arg ->
          param ∉ drop (S i) params ->
          variables (snd (bind_params params args st)) !! param = Some arg).
Proof.
  induction params as [|p params IH]; intros [|a args] st;
    try (split; [reflexivity|]; split; [reflexivity|]; split; [reflexivity|];
         intros i param arg H1 H2; discriminate).
  cbn [bind_params].
  set (st1 := set_variables (<[p := a]> (variables st)) st).
  rewrite (bind_ok _ _ st st1 tt) by reflexivity.
  destruct (IH args st1) as (Hheap & Hconst & Hother & Hbound).
  split; [rewrite Hheap; reflexivity|]. split; [rewrite Hconst; reflexivity|]. split.
  - intros x Hx. apply not_elem_of_cons in Hx. destruct Hx as [Hne Hx].
    rewrite (Hother x Hx). subst st1. cbn. apply lookup_insert_ne. congruence.
  - intros [|i] param arg Hparam Harg Hlast; cbn in Hparam, Harg, Hlast.
    + injection Hparam as Hp. injection Harg as Ha. subst param arg.
      rewrite drop_0 in Hlast. rewrite (Hother p Hlast). subst st1. cbn.
      apply lookup_insert_eq.
    + apply (Hbound i param arg Hparam Harg Hlast).
Qed.

(** C1: a call of a function or of a lambda binds the parameters, runs
    the body, and, however the body ends (normally, by [return], or by an
    exception), puts the caller's variables back: every name is bound
    after the call as it was before, while the heap of list objects is the
    one the body leaves, so that what the body wrote into a shared array
    stays visible.  The body starts from the caller's variables with each
    parameter bound to its argument, so that the parameter reads as the
    argument there; the binding touches neither the heap nor the
    constants. *)
Theorem call_restores_the_variables (limit fuel depth : nat) (name : string)
    (params : list string) (body : node) (is_expression : bool) (args : list value)
    (st : interp) :
  let function_call :=
    PuffingFunction_call limit (eval limit fuel) depth name params body args st in
  let lambda_call :=
    PuffingLambda_call limit (eval limit fuel) depth params body is_expression args st in
  let body_start := snd (bind_params params args st) in
  let body_run := call_eval limit (eval limit fuel) depth body body_start in
  variables (snd function_call) = variables st
  /\ variables (snd lambda_call) = variables st
  /\ (forall x : string, variables (snd function_call) !! x = variables st !! x)
  /\ (length args = length params ->
      function_call = (call_result (fst body_run),
                       set_variables (variables st) (snd body_run))
      /\ lambda_call = function_call
      /\ heap (snd function_call) = heap (snd body_run)
      /\ heap (snd lambda_call) = heap (snd body_run)
      /\ (forall i param arg,
            params !! i = Some param -> args !! i = Some arg ->
            param ∉ drop (S i) params ->
            variables body_start !! param = Some arg
            /\ forall d, eval limit (S fuel) d (VarAccessNode param) body_start
                         = (Ok arg, body_start))
      /\ (forall x, x ∉ params -> variables body_start !! x = variables st !! x)
      /\ heap body_start = heap st
      /\ constants body_start = constants st).
Proof.
  intros function_call lambda_call body_start body_run.
  assert (Hf : length args = length params ->
               function_call = (call_result (fst body_run),
                                set_variables (variables st) (snd body_run))).
  { intros Hlen. subst function_call body_run body_start. unfold PuffingFunction_call.
    rewrite Hlen, Nat.eqb_refl. cbn [negb].
    rewrite (bind_ok _ _ st st st) by reflexivity.
    apply call_frame. }
  assert (Hl : length args = length params -> lambda_call = function_call).
  { intros Hlen. rewrite (Hf Hlen). subst lambda_call body_run body_start.
    unfold PuffingLambda_call.
    rewrite Hlen, Nat.eqb_refl. cbn [negb].
    rewrite (bind_ok _ _ st st st) by reflexivity.
    destruct is_expression; apply call_frame. }
  assert (Hvars : variables (snd function_call) = variables st
                  /\ variables (snd lambda_call) = variables st).
  { destruct (Nat.eq_dec (length args) (length params)) as [Hlen|Hlen].
    - rewrite (Hl Hlen), (Hf Hlen). split; reflexivity.
    - subst function_call lambda_call.
      unfold PuffingFunction_call, PuffingLambda_call.
      apply Nat.eqb_neq in Hlen. rewrite Hlen. split; reflexivity. }
  destruct Hvars as [Hv1 Hv2].
  destruct (bind_params_binds params args st) as (Hheap & Hconst & Hother & Hbound).
  fold body_start in Hheap, Hconst, Hother, Hbound.
  split; [exact Hv1|]. split; [exact Hv2|].
  split; [intros x; rewrite Hv1; reflexivity|].
  intros Hlen. split; [exact (Hf Hlen)|]. split; [exact (Hl Hlen)|].
  split; [rewrite (Hf Hlen); reflexivity|].
  split; [rewrite (Hl Hlen), (Hf Hlen); reflexivity|].
  split; [|split; [exact Hother|split; [exact Hheap|exact Hconst]]].
  intros i param arg Hparam Harg Hlast.
  pose proof (Hbound i param arg Hparam Harg Hlast) as Hread.
  split; [exact Hread|].
  intros d. rewrite eval_unfold. cbn [eval_node].
  rewrite (bind_ok _ _ body_start body_start (Some arg))
    by (unfold lookup_var; rewrite Hread; reflexivity).
  reflexivity.
Qed.

(** The caller has the array [a] and the number [g]; the function has
    the parameter [x], and its body appends [x] to [a], reassigns [g] to
    [x] and returns [g]. *)
Definition caller_state : interp :=
  mkInterp (<["a" := VList 0%nat]> (<["g" := VInt 5]> ∅)) ∅ [[VInt 1; VInt 2]] 0 EmptyString.

Definition mutating_body : node :=
  BlockNode [FunctionCallNode (CalleeName "push") [VarAccessNode "a"; VarAccessNode "x"];
             VarReassignNode "g" (VarAccessNode "x");
             ReturnNode (Some (VarAccessNode "g"))].

Lemma call_restores_the_variables_witness :
  fst (PuffingFunction_call 1000 (eval 1000 10) 2 "f" ["x"] mutating_body [VInt 3]
         caller_state)
  = Ok (VInt 3)
  /\ variables (snd (bind_params ["x"] [VInt 3] caller_state)) !! "x" = Some (VInt 3)
  /\ variables (snd (PuffingFunction_call 1000 (eval 1000 10) 2 "f" ["x"] mutating_body
                       [VInt 3] caller_state)) !! "g" = Some (VInt 5)
  /\ variables (snd (PuffingFunction_call 1000 (eval 1000 10) 2 "f" ["x"] mutating_body
                       [VInt 3] caller_state)) !! "x" = None
  /\ heap (snd (PuffingFunction_call 1000 (eval 1000 10) 2 "f" ["x"] mutating_body
                  [VInt 3] caller_state)) = [[VInt 1; VInt 2; VInt 3]].
Proof.
  pose proof (call_restores_the_variables 1000 10 2 "f" ["x"] mutating_body true [VInt 3]
                caller_state) as H.
  cbv zeta in H. destruct H as (_ & _ & Hx & Hcall).
  destruct (Hcall eq_refl) as (Hresult & _ & Hheap & _ & Hbound & _).
  split; [rewrite Hresult; vm_compute; reflexivity|].
  split; [apply (Hbound 0%nat "x" (VInt 3) eq_refl eq_refl); cbn; apply not_elem_of_nil|].
  split; [rewrite (Hx "g"); vm_compute; reflexivity|].
  split; [rewrite (Hx "x"); vm_compute; reflexivity|].
  rewrite Hheap. vm_compute. reflexivity.
Defined.

(** The same on a program read from source text: the call [f(3)]
    returns its argument, the array [a] of the caller has the item the
    body appended, and the [g] of the caller is still 5. *)
Example call_from_source :
  match execute 1000 0 20 20
     "let a as [1, 2]; let g as 5; fun f(x) { push(a, x); g as 0; return x; } [f(3), a[3], g];"
  with
  | Ran (Ok (VList l)) final => (heap final !! l, variables final !! "x")
  | _ => (None, None)
  end = (Some [VInt 3; VInt 3; VInt 5], None).
Proof. vm_compute. reflexivity. Qed.

(** ** The loop variable of a [for] loop (C9) *)

Definition is_sequence (v : value) : bool :=
  match v with
  | VList _ | VStr _ => true
  | _ => false
  end.

Lemma on_break_state (m : M value) (result : value) (st : interp) :
  snd (on_break m result st) = snd (m st).
Proof.
  unfold on_break. destruct (m st) as [[v|e| |w] st']; try reflexivity.
  destruct e; reflexivity.
Qed.

Lemma next_item_state (iterable : value) (i : nat) (st : interp) :
  snd (next_item iterable i st) = st /\ exists item, fst (next_item iterable i st) = Ok item.
Proof.
  destruct iterable; cbn; eauto.
Qed.

(** The turns of the loop write the loop variable and nothing else: a
    binding of another name that the body leaves alone is still there
    after the loop. *)
Lemma for_loop_frame (limit : nat) (self_eval : nat -> node -> M value) (depth : nat)
    (var_name : string) (body : node) (iterable : value) (x : string) :
  x <> var_name ->
  (forall s, variables (snd (call_eval limit self_eval depth body s)) !! x
             = variables s !! x) ->
  forall (turns i : nat) (result : value) (st : interp),
    variables (snd (for_loop limit self_eval turns depth var_name body iterable i result st))
      !! x
    = variables st !! x.
Proof.
  intros Hx Hbody. induction turns as [|turns IH]; intros i result st; [reflexivity|].
  cbn [for_loop]. rewrite on_break_state.
  destruct (next_item_state iterable i st) as [Hst [item Hitem]].
  unfold bind at 1.
  destruct (next_item iterable i st) as [r st0]. cbn [fst snd] in Hst, Hitem. subst r st0.
  destruct item as [v|]; [|reflexivity].
  unfold bind at 1, on_continue, bind at 1, store_var, modify.
  set (st1 := set_variables (<[var_name:=v]> (variables st)) st).
  assert (H1 : variables st1 !! x = variables st !! x).
  { subst st1. cbn. apply lookup_insert_ne. congruence. }
  specialize (Hbody st1).
  destruct (call_eval limit self_eval depth body st1) as [[r|e| |w] st2];
    cbn [fst snd] in *; [|destruct e; cbn [fst snd]| |];
    rewrite ?IH; congruence.
Qed.

(** C9: a [for] loop over an array or a text ends with the loop variable
    bound as it was when the loop started, or unbound if it was unbound
    then, whether the loop runs out, is left by [break], or is left by an
    exception; the [finally] clause touches no other name, and neither do
    the turns of the loop, so a name that the body leaves alone is bound
    after the loop as before. *)
Theorem for_loop_restores_the_variable (limit fuel depth : nat) (var_name : string)
    (iterable_node body : node) (st st1 : interp) (iterable : value) :
  (depth < limit)%nat ->
  eval limit fuel (S depth) iterable_node st = (Ok iterable, st1) ->
  is_sequence iterable = true ->
  let turns := for_loop limit (eval limit fuel) fuel depth var_name body iterable 0 VNone st1 in
  let final := eval limit (S fuel) depth (ForLoopNode var_name iterable_node body) st in
  final = (fst turns, restore_var var_name (variables st1 !! var_name) (snd turns))
  /\ variables (snd final) !! var_name = variables st1 !! var_name
  /\ (forall x, x <> var_name ->
                variables (snd final) !! x = variables (snd turns) !! x)
  /\ (forall x, x <> var_name ->
        (forall s, variables (snd (call_eval limit (eval limit fuel) depth body s)) !! x
                   = variables s !! x) ->
        variables (snd final) !! x = variables st1 !! x).
Proof.
  intros Hd Hit Hseq turns final.
  assert (Hfinal : final = (fst turns,
                            restore_var var_name (variables st1 !! var_name) (snd turns))).
  { subst final turns. rewrite eval_unfold. cbn [eval_node].
    rewrite (bind_ok _ _ st st1 iterable)
      by (unfold call_eval; rewrite enter_granted by exact Hd; exact Hit).
    destruct iterable; try discriminate Hseq;
      (rewrite (bind_ok _ _ st1 st1 st1) by reflexivity);
      unfold try_finally;
      match goal with |- context [for_loop ?a ?b ?c ?d ?e ?f ?g ?h ?i ?j] =>
        destruct (for_loop a b c d e f g h i j) end; reflexivity. }
  assert (Hvar : variables (snd final) !! var_name = variables st1 !! var_name).
  { rewrite Hfinal. cbn [snd]. unfold restore_var.
    destruct (variables st1 !! var_name) as [v|]; cbn.
    - apply lookup_insert_eq.
    - apply lookup_delete_eq. }
  assert (Hother : forall x, x <> var_name ->
                     variables (snd final) !! x = variables (snd turns) !! x).
  { intros x Hx. rewrite Hfinal. cbn [snd]. unfold restore_var.
    destruct (variables st1 !! var_name) as [v|]; cbn.
    - apply lookup_insert_ne. congruence.
    - apply lookup_delete_ne. congruence. }
  split; [exact Hfinal|]. split; [exact Hvar|]. split; [exact Hother|].
  intros x Hx Hbody. rewrite (Hother x Hx). subst turns.
  apply for_loop_frame; assumption.
Qed.

(** The loop variable [i] is bound to 99 before the loop over [[1, 2, 3]]
    and is bound to 99 after it; the body adds the items up in [s]. *)
Definition loop_state : interp :=
  mkInterp (<["i" := VInt 99]> (<["s" := VInt 0]> ∅)) ∅ [] 0 EmptyString.

Definition summing_body : node :=
  BlockNode [VarReassignNode "s" (BinaryOpNode (VarAccessNode "s") T_PLUS (VarAccessNode "i"))].

Definition one_two_three : node := ArrayNode [int_literal 1; int_literal 2; int_literal 3].

Lemma for_loop_restores_the_variable_witness :
  variables (snd (eval 1000 8 0 (ForLoopNode "i" one_two_three summing_body) loop_state))
    !! "i" = Some (VInt 99)
  /\ variables (snd (eval 1000 8 0 (ForLoopNode "i" one_two_three summing_body) loop_state))
       !! "s" = Some (VInt 6).
Proof.
  pose proof (for_loop_restores_the_variable 1000 7 0 "i" one_two_three summing_body
                loop_state (set_heap [[VInt 1; VInt 2; VInt 3]] loop_state) (VList 0%nat))
    as H.
  cbv zeta in H. destruct H as (_ & Hvar & _); [lia|reflexivity|reflexivity|].
  split; [rewrite Hvar; reflexivity|vm_compute; reflexivity].
Defined.

Example loop_variable_from_source :
  match execute 1000 0 20 20
     "let i as 99; for i in range(3) { if i = 2 { break; } } for j in range(2) { } i;"
  with
  | Ran r final => (r, variables final !! "i", variables final !! "j")
  | _ => (OutOfFuel, None, None)
  end = (Ok (VInt 99), Some (VInt 99), None).
Proof. vm_compute. reflexivity. Qed.

(** ** Writes to a constant (C3) *)

(** The builtins that change their first argument in place, with the
    number of arguments each takes. *)
Definition mutating_builtins : list (string * nat) :=
  [ ("set_add", 2); ("set_remove", 2); ("set_discard", 2); ("set_clear", 1);
    ("set", 3); ("delete_key", 2); ("clear_dict", 1); ("update", 2);
    ("push", 2); ("pop", 1); ("shift", 1); ("unshift", 2); ("insert", 3);
    ("remove", 2); ("clear", 1); ("reverse", 1); ("sort", 1) ]%nat.

Definition cannot_reassign (name : string) : exn :=
  PuffingRuntimeError "Cannot reassign constant '{node.name}'" [VStr name].

Definition cannot_increment (name : string) : exn :=
  PuffingRuntimeError "Cannot modify constant '{node.name}'" [VStr name].

Definition cannot_modify (name : string) : exn :=
  PuffingRuntimeError "Cannot modify constant '{var_name}'" [VStr name].

(** Whether a call by the name bound to [bound] is a call of a function
    or lambda of the program, which goes before every builtin. *)
Definition is_user_callable (bound : option value) : bool :=
  match bound with
  | Some (VFunction _ _ _ _) | Some (VLambda _ _ _ _) => true
  | _ => false
  end.

Section ConstantName.

Variables (limit fuel depth : nat) (name : string) (st : interp) (v : value).
Hypothesis Hbound : variables st !! name = Some v.
Hypothesis Hconstant : name ∈ constants st.

Lemma lookup_constant : lookup_var name st = (Ok (Some v), st).
Proof. unfold lookup_var. rewrite Hbound. reflexivity. Qed.

Lemma is_constant_true : is_constant name st = (Ok true, st).
Proof. unfold is_constant. rewrite bool_decide_eq_true_2 by exact Hconstant. reflexivity. Qed.

Lemma resolve_target_constant (self_eval : nat -> node -> M value) (d : nat) :
  resolve_target limit self_eval d (VarAccessNode name) st = (Raise (cannot_modify name), st).
Proof.
  unfold resolve_target.
  rewrite (bind_ok _ _ st st (Some v)) by apply lookup_constant.
  rewrite (bind_ok _ _ st st true) by apply is_constant_true.
  reflexivity.
Qed.

Lemma reassign_constant (value_node : node) :
  eval limit (S fuel) depth (VarReassignNode name value_node) st
  = (Raise (cannot_reassign name), st).
Proof.
  rewrite eval_unfold. cbn [eval_node].
  rewrite (bind_ok _ _ st st (Some v)) by apply lookup_constant.
  rewrite (bind_ok _ _ st st true) by apply is_constant_true.
  reflexivity.
Qed.

Lemma compound_assign_constant (value_node : node) (operator : TokenType) :
  eval limit (S fuel) depth (CompoundAssignNode name value_node operator) st
  = (Raise (cannot_reassign name), st).
Proof.
  rewrite eval_unfold. cbn [eval_node].
  rewrite (bind_ok _ _ st st (Some v)) by apply lookup_constant.
  rewrite (bind_ok _ _ st st true) by apply is_constant_true.
  reflexivity.
Qed.

Lemma increment_constant (operator : TokenType) (prefix : bool) :
  eval limit (S fuel) depth (IncrementNode name operator prefix) st
  = (Raise (cannot_increment name), st).
Proof.
  rewrite eval_unfold. cbn [eval_node].
  rewrite (bind_ok _ _ st st (Some v)) by apply lookup_constant.
  rewrite (bind_ok _ _ st st true) by apply is_constant_true.
  reflexivity.
Qed.

Lemma index_assign_constant (left_expr value_node : node) (key_node : option node)
    (st0 st1 : interp) (new_value : value) (path : list value) :
  (depth < limit)%nat ->
  eval limit fuel (S depth) value_node st0 = (Ok new_value, st1) ->
  eval_path limit (eval limit fuel) depth left_expr [] st1
  = (Ok (path, VarAccessNode name), st) ->
  eval limit (S fuel) depth (IndexAssignNode left_expr key_node value_node) st0
  = (Raise (cannot_modify name), st).
Proof.
  intros Hd Hvalue Hpath. rewrite eval_unfold. cbn [eval_node].
  rewrite (bind_ok _ _ st0 st1 new_value)
    by (unfold call_eval; rewrite enter_granted by exact Hd; exact Hvalue).
  rewrite (bind_ok _ _ st1 st (path, VarAccessNode name)) by exact Hpath.
  rewrite (bind_ok _ _ st st (Some v)) by apply lookup_constant.
  rewrite (bind_ok _ _ st st true) by apply is_constant_true.
  reflexivity.
Qed.

(** Every comparison of two literal names, computed. *)
Ltac compare_names :=
  repeat match goal with
         | |- context [String.eqb ?a ?b] =>
             let r := eval vm_compute in (String.eqb a b) in
             change (String.eqb a b) with r
         end.

Lemma builtin_on_constant (func_name : string) (arity : nat) (args : list node) :
  (S depth < limit)%nat ->
  (func_name, arity) ∈ mutating_builtins ->
  length (VarAccessNode name :: args) = arity ->
  is_user_callable (variables st !! func_name) = false ->
  eval limit (S fuel) depth
       (FunctionCallNode (CalleeName func_name) (VarAccessNode name :: args)) st
  = (Raise (cannot_modify name), st).
Proof.
  intros Hd Hin Hlen Huser.
  rewrite eval_unfold. cbn [eval_node].
  rewrite enter_granted by lia.
  unfold eval_function_call.
  rewrite (bind_ok _ _ st st (variables st !! func_name)) by reflexivity.
  assert (Hcall : builtin_call limit (eval limit fuel) fuel (S depth) func_name
                    (VarAccessNode name :: args) (variables st !! func_name) st
                  = (Raise (cannot_modify name), st)).
  { clear Huser. generalize (variables st !! func_name). intros bound.
    unfold mutating_builtins in Hin.
    repeat (apply elem_of_cons in Hin; destruct Hin as [Hin|Hin];
            [injection Hin as -> ->|]); [..|inversion Hin].
    all: destruct args as [|a1 [|a2 [|a3 args]]]; try discriminate Hlen; clear Hlen.
    all: unfold builtin_call, container_builtin, existsb; cbv zeta beta; compare_names;
      cbv iota; cbn [length Nat.eqb Nat.leb negb andb orb arg nth].
    all: try (rewrite enter_granted by lia;
              unfold handle_array_functions; cbv zeta beta; compare_names;
              cbv iota; cbn [length Nat.eqb Nat.leb negb andb orb arg nth]).
    all: try (unfold needs_container).
    all: apply bind_raise; apply resolve_target_constant. }
  destruct (variables st !! func_name) as [[]|]; try discriminate Huser; exact Hcall.
Qed.

End ConstantName.

(** C3, as amended: for a name that is bound and marked constant,
    reassignment, compound assignment, increment and decrement, and every
    mutating builtin called on the bare name with its number of arguments
    raise the constant-modification error before anything is evaluated,
    and the whole state is as before; an index assignment through the name
    raises it once the assigned value and the keys are evaluated, and the
    state is the one those evaluations left. *)
Theorem constant_write_is_refused (limit fuel depth : nat) (name : string)
    (st : interp) (v : value) :
  variables st !! name = Some v ->
  name ∈ constants st ->
  (S depth < limit)%nat ->
  (forall value_node,
      eval limit (S fuel) depth (VarReassignNode name value_node) st
      = (Raise (cannot_reassign name), st))
  /\ (forall value_node operator,
         eval limit (S fuel) depth (CompoundAssignNode name value_node operator) st
         = (Raise (cannot_reassign name), st))
  /\ (forall operator prefix,
         eval limit (S fuel) depth (IncrementNode name operator prefix) st
         = (Raise (cannot_increment name), st))
  /\ (forall func_name arity args,
         (func_name, arity) ∈ mutating_builtins ->
         length (VarAccessNode name :: args) = arity ->
         is_user_callable (variables st !! func_name) = false ->
         eval limit (S fuel) depth
              (FunctionCallNode (CalleeName func_name) (VarAccessNode name :: args)) st
         = (Raise (cannot_modify name), st))
  /\ (forall left_expr key_node value_node st0 st1 new_value path,
         eval limit fuel (S depth) value_node st0 = (Ok new_value, st1) ->
         eval_path limit (eval limit fuel) depth left_expr [] st1
         = (Ok (path, VarAccessNode name), st) ->
         eval limit (S fuel) depth (IndexAssignNode left_expr key_node value_node) st0
         = (Raise (cannot_modify name), st)).
Proof.
  intros Hbound Hconstant Hd.
  split; [intros; eapply reassign_constant; eassumption|].
  split; [intros; eapply compound_assign_constant; eassumption|].
  split; [intros; eapply increment_constant; eassumption|].
  split; [intros; eapply builtin_on_constant; eassumption|].
  intros. eapply index_assign_constant; try eassumption. lia.
Qed.

(** The constant [c] is bound to the array [[1]]. *)
Definition constant_state : interp :=
  mkInterp (<["c" := VList 0%nat]> ∅) {["c"]} [[VInt 1]] 0 EmptyString.

Lemma constant_write_is_refused_witness :
  eval 1000 5 0 (VarReassignNode "c" (int_literal 2)) constant_state
  = (Raise (cannot_reassign "c"), constant_state)
  /\ eval 1000 5 0 (FunctionCallNode (CalleeName "push") [VarAccessNode "c"; int_literal 2])
          constant_state
     = (Raise (cannot_modify "c"), constant_state)
  /\ eval 1000 5 0
          (IndexAssignNode (IndexAccessNode (VarAccessNode "c") (int_literal 1)) None
                           (int_literal 9)) constant_state
     = (Raise (cannot_modify "c"), constant_state).
Proof.
  pose proof (constant_write_is_refused 1000 4 0 "c" constant_state (VList 0%nat)) as H.
  destruct H as (Hreassign & _ & _ & Hbuiltin & Hindex).
  - reflexivity.
  - refine (bool_decide_unpack _ _); vm_compute; exact I.
  - lia.
  - split; [apply Hreassign|].
    split.
    + apply (Hbuiltin "push" 2%nat [int_literal 2]).
      * refine (bool_decide_unpack _ _); vm_compute; exact I.
      * reflexivity.
      * reflexivity.
    + apply (Hindex _ None _ constant_state constant_state (VInt 9) [VInt 1]).
      * reflexivity.
      * reflexivity.
Defined.

(** The state in which [run] leaves the interpreter for a source text. *)
Definition state_after (source : string) : interp :=
  match execute 1000 0 20 20 source with
  | Ran _ final => final
  | _ => new_interp
  end.

(** C3, as stated, fails.  A constant declared inside a call stays marked
    constant when the return discards its binding, and a reassignment of
    the name then raises the undefined-variable error; an index assignment
    evaluates the assigned value before it looks at the constant, so an
    error of that evaluation comes first; a builtin checks its argument
    count before it looks at the constant. *)
Lemma constant_write_other_error :
  "k" ∈ constants (state_after "fun f() { lock k as 1; } f();")
  /\ variables (state_after "fun f() { lock k as 1; } f();") !! "k" = None
  /\ escaped (execute 1000 0 20 20 "fun f() { lock k as 1; } f(); k as 2;")
     = Some (VariableNotDefinedError "k")
  /\ escaped (execute 1000 0 20 20 "lock c as [1]; c[1] as nope;")
     = Some (VariableNotDefinedError "nope")
  /\ escaped (execute 1000 0 20 20 "lock c as [1]; push(c);")
     = Some (PuffingRuntimeError "push() takes exactly 2 arguments (array, value)" []).
Proof.
  split; [refine (bool_decide_unpack _ _); vm_compute; exact I|].
  repeat split; vm_compute; reflexivity.
Qed.

(* ===================================================================== *)
(** * Further properties of the lexer *)
(* ===================================================================== *)

(** ** The shape of a token list *)

Lemma lookup_keyword_type (name : string) (t : TokenType) :
  lookup_keyword name keywords = Some t -> t <> T_EOF /\ t <> T_IDENT.
Proof.
  unfold keywords. cbn [lookup_keyword].
  repeat (destruct (String.eqb name _); [intros [= <-]; split; discriminate|]).
  discriminate.
Qed.

Lemma identifier_type (lx : lexer) : type_ (fst (identifier lx)) <> T_EOF.
Proof.
  unfold identifier. destruct (scan _ lx) as [result lx'].
  destruct (lookup_keyword result keywords) as [t|] eqn:Hk; cbn [fst type_ tok].
  - apply (lookup_keyword_type result t Hk).
  - discriminate.
Qed.

Lemma two_char_operator_type (c c' : ascii) (t : TokenType) :
  two_char_operator c c' = Some t -> t <> T_EOF.
Proof.
  unfold two_char_operator.
  repeat match goal with
         | |- context [if ?b then _ else _] => destruct b; [intros [= <-]; discriminate|]
         end.
  discriminate.
Qed.

Lemma one_char_operator_type (c : ascii) (t : TokenType) :
  one_char_operator c = Some t -> t <> T_EOF.
Proof.
  unfold one_char_operator.
  repeat match goal with
         | |- context [if ?b then _ else _] => destruct b; [intros [= <-]; discriminate|]
         end.
  discriminate.
Qed.

Lemma number_type (lx lx' : lexer) (t : Token) :
  Lexer.number lx = LexOk (t, lx') -> type_ t = T_NUMBER.
Proof.
  unfold Lexer.number. destruct (scan Host.isdigit lx) as [int_part lx1].
  match goal with |- context [if ?b then _ else _] => destruct b end.
  - destruct (scan Host.isdigit (advance lx1)) as [frac_part lx3].
    destruct (Host.float_of_decimal int_part frac_part); [|discriminate].
    intros [= <- _]. reflexivity.
  - destruct (Host.int_of_digits int_part); [|discriminate].
    intros [= <- _]. reflexivity.
Qed.

Lemma string_type (lx lx' : lexer) (t : Token) :
  string_ lx = LexOk (t, lx') -> type_ t = T_STRING.
Proof.
  unfold string_. destruct (string_from _ _ _) as [[result lx1]| |]; try discriminate.
  intros [= <- _]. reflexivity.
Qed.

(** What the main loop returns is the list it was given, then tokens that
    are not the end-of-input token, then that token. *)
Lemma tokenize_loop_shape (fuel : nat) :
  forall (lx : lexer) (tokens toks : list Token),
    tokenize_loop fuel lx tokens = LexOk toks ->
    exists ts, toks = tokens ++ ts ++ [tok T_EOF]
               /\ Forall (fun t => type_ t <> T_EOF) ts.
Proof.
  assert (Hadd : forall (tokens : list Token) (t : Token) (toks : list Token),
             type_ t <> T_EOF ->
             (exists ts, toks = (tokens ++ [t]) ++ ts ++ [tok T_EOF]
                         /\ Forall (fun t => type_ t <> T_EOF) ts) ->
             exists ts, toks = tokens ++ ts ++ [tok T_EOF]
                        /\ Forall (fun t => type_ t <> T_EOF) ts).
  { intros tokens t toks Ht (ts & -> & Hts). exists (t :: ts).
    split; [rewrite <- app_assoc; reflexivity|constructor; assumption]. }
  induction fuel as [|fuel IH]; intros lx tokens toks; cbn [tokenize_loop];
    (destruct (current_char lx) as [c|] eqn:Hc;
     [|intros [= <-]; exists []; split; [reflexivity|constructor]]);
    [discriminate|].
  destruct (Host.isspace c); [apply IH|].
  destruct (ascii_eqb c "?").
  { destruct (Lexer.peek lx) as [c'|]; [|apply IH].
    destruct c' as [[] [] [] [] [] [] [] []]; apply IH. }
  destruct (Host.isdigit c).
  { destruct (Lexer.number lx) as [[t lx']| |] eqn:Hn; try discriminate.
    intros H. apply (Hadd tokens t); [|apply (IH _ _ _ H)].
    rewrite (number_type _ _ _ Hn). discriminate. }
  destruct (ascii_eqb c quote).
  { destruct (string_ lx) as [[t lx']| |] eqn:Hs; try discriminate.
    intros H. apply (Hadd tokens t); [|apply (IH _ _ _ H)].
    rewrite (string_type _ _ _ Hs). discriminate. }
  destruct (Host.isalpha c || ascii_eqb c "_").
  { pose proof (identifier_type lx) as Ht.
    destruct (identifier lx) as [t lx']. cbn [fst] in Ht.
    intros H. apply (Hadd tokens t); [exact Ht|apply (IH _ _ _ H)]. }
  destruct (match Lexer.peek lx with
            | Some c' => two_char_operator c c'
            | None => None
            end) as [t|] eqn:Htwo.
  { intros H. apply (Hadd tokens (tok t)); [|apply (IH _ _ _ H)].
    destruct (Lexer.peek lx) as [c'|]; [|discriminate].
    apply (two_char_operator_type c c' t Htwo). }
  destruct (one_char_operator c) as [t|] eqn:Hone; [|discriminate].
  intros H. apply (Hadd tokens (tok t)); [|apply (IH _ _ _ H)].
  apply (one_char_operator_type c t Hone).
Qed.

(** X1: Whatever the text, a token list that [tokenize] returns holds the
    end-of-input token once, in the last place. *)
Theorem tokens_end_with_one_eof (text : string) (toks : list Token) :
  tokenize text = LexOk toks ->
  exists ts, toks = ts ++ [tok T_EOF]
             /\ Forall (fun t => type_ t <> T_EOF) ts.
Proof.
  unfold tokenize. intros H.
  destruct (tokenize_loop_shape _ _ _ _ H) as (ts & -> & Hts).
  exists ts. split; [reflexivity|exact Hts].
Qed.

Lemma tokens_end_with_one_eof_witness :
  exists ts, [tok T_LET; mkToken T_IDENT (LitStr "x"); tok T_AS;
              mkToken T_NUMBER (LitInt 5); tok T_SEMICOLON; tok T_EOF]
             = ts ++ [tok T_EOF]
             /\ Forall (fun t => type_ t <> T_EOF) ts.
Proof.
  apply (tokens_end_with_one_eof "let x as 5;"). reflexivity.
Defined.

(** ** String literals *)

(** The text between the quotes of a literal that stands for the
    characters [s]: a backslash goes before every quote and every
    backslash, and a newline and a tab are written [\n] and [\t]. *)
Fixpoint escape (s : string) : string :=
  match s with
  | EmptyString => EmptyString
  | String c r =>
      if ascii_eqb c newline then String backslash (String "n" (escape r))
      else if ascii_eqb c tab then String backslash (String "t" (escape r))
      else if ascii_eqb c quote then String backslash (String quote (escape r))
      else if ascii_eqb c backslash then String backslash (String backslash (escape r))
      else String c (escape r)
  end.

(** Every comparison of two given characters, computed. *)
Ltac compare_chars :=
  repeat match goal with
         | |- context [ascii_eqb ?a ?b] =>
             let r := eval vm_compute in (ascii_eqb a b) in
             match r with
             | true => change (ascii_eqb a b) with true
             | false => change (ascii_eqb a b) with false
             end
         end;
  cbv iota.

(** The loop of [string] reads an escaped text back and stops on the
    quote that follows it. *)
Lemma string_from_escape (s after : string) :
  forall ln col : nat,
    exists lx', string_from (escape s +:+ String quote after) ln col = LexOk (s, lx')
                /\ rest lx' = String quote after.
Proof.
  induction s as [|c r IH]; intros ln col.
  - cbn. eexists. split; reflexivity.
  - cbn [escape].
    destruct (ascii_eqb c newline) eqn:Hn;
      [|destruct (ascii_eqb c tab) eqn:Ht;
        [|destruct (ascii_eqb c quote) eqn:Hq;
          [|destruct (ascii_eqb c backslash) eqn:Hb]]].
    1-4: match goal with
         | H : ascii_eqb ?x _ = true |- _ => apply Ascii.eqb_eq in H; subst x
         end;
      simpl; unfold unescape; compare_chars;
      match goal with
      | |- context [string_from (escape _ +:+ _) ?l ?k] =>
          destruct (IH l k) as (lx' & -> & Hrest)
      end;
      exists lx'; split; [reflexivity|exact Hrest].
    simpl. rewrite Hq, Hb.
    match goal with
    | |- context [string_from (escape _ +:+ _) ?l ?k] =>
        destruct (IH l k) as (lx' & -> & Hrest)
    end.
    exists lx'. split; [reflexivity|exact Hrest].
Qed.

(** One turn of the main loop on the opening quote of a literal. *)
Lemma tokenize_loop_string (fuel : nat) (lx : lexer) (tokens : list Token) :
  current_char lx = Some quote ->
  tokenize_loop (S fuel) lx tokens
  = match string_ lx with
    | LexOk (t, lx') => tokenize_loop fuel lx' (tokens ++ [t])
    | LexRaise x => LexRaise x
    | LexOutOfFuel => LexOutOfFuel
    end.
Proof. intros Hc. cbn [tokenize_loop]. rewrite Hc. reflexivity. Qed.

(** X2: Every string has a literal: the lexer reads the escaped text between
    two quotes back as the string itself. *)
Theorem string_literal_round_trip (s : string) :
  tokenize (String quote (escape s +:+ String quote EmptyString))
  = LexOk [mkToken T_STRING (LitStr s); tok T_EOF].
Proof.
  unfold tokenize. cbn [String.length].
  rewrite tokenize_loop_string by reflexivity.
  unfold string_.
  change (advance (init (String quote (escape s +:+ String quote EmptyString))))
    with (mkLexer (escape s +:+ String quote EmptyString) 1 2).
  cbn [rest line column].
  destruct (string_from_escape s EmptyString 1 2) as (lx' & -> & Hrest).
  apply tokenize_loop_end.
  unfold current_char, advance. rewrite Hrest.
  change (ascii_eqb quote newline) with false. reflexivity.
Qed.

Lemma string_from_open (s : string) :
  forall ln col : nat,
    exists ln' col',
      string_from (escape s) ln col
      = LexRaise (LexerError "Unterminated string at line {self.line}, column {self.column}"
                             None ln' col').
Proof.
  induction s as [|c r IH]; intros ln col.
  - cbn. eexists _, _. reflexivity.
  - cbn [escape].
    destruct (ascii_eqb c newline) eqn:Hn;
      [|destruct (ascii_eqb c tab) eqn:Ht;
        [|destruct (ascii_eqb c quote) eqn:Hq;
          [|destruct (ascii_eqb c backslash) eqn:Hb]]].
    1-4: simpl; compare_chars;
      match goal with
      | |- context [string_from (escape _) ?l ?k] =>
          destruct (IH l k) as (ln' & col' & ->)
      end;
      eexists _, _; reflexivity.
    simpl. rewrite Hq, Hb.
    match goal with
    | |- context [string_from (escape _) ?l ?k] =>
        destruct (IH l k) as (ln' & col' & ->)
    end.
    eexists _, _. reflexivity.
Qed.

(** X3: A literal that is opened and, after the escaped text of any string,
    not closed before the text ends is refused with the lexer's own
    error. *)
Theorem unterminated_string_is_refused (s : string) :
  exists ln col,
    tokenize (String quote (escape s))
    = LexRaise (LexerError "Unterminated string at line {self.line}, column {self.column}"
                           None ln col).
Proof.
  unfold tokenize. cbn [String.length].
  rewrite tokenize_loop_string by reflexivity.
  unfold string_.
  change (advance (init (String quote (escape s)))) with (mkLexer (escape s) 1 2).
  cbn [rest line column].
  destruct (string_from_open s 1 2) as (ln & col & ->).
  exists ln, col. reflexivity.
Qed.

(** ** Names and keywords *)

Definition name_start (c : ascii) : bool := Host.isalpha c || ascii_eqb c "_".
Definition name_char (c : ascii) : bool := Host.isalnum c || ascii_eqb c "_".

(** A letter or an underscore, then letters, digits and underscores. *)
Definition is_name (s : string) : bool :=
  match s with
  | String c r => name_start c && forallb name_char (list_ascii_of_string r)
  | EmptyString => false
  end.

(** A run of characters that all pass [p] is scanned to its end. *)
Lemma scan_from_all (p : ascii -> bool) (s : string) :
  forall ln col : nat,
    forallb p (list_ascii_of_string s) = true ->
    fst (scan_from p s ln col) = s
    /\ rest (snd (scan_from p s ln col)) = EmptyString.
Proof.
  induction s as [|c r IH]; intros ln col Hall; cbn [scan_from].
  - split; reflexivity.
  - cbn [list_ascii_of_string forallb] in Hall.
    apply andb_true_iff in Hall. destruct Hall as [Hc Hr]. rewrite Hc.
    match goal with
    | |- context [scan_from p r ?l ?k] =>
        destruct (IH l k Hr) as [Hfst Hrest]; destruct (scan_from p r l k) as [acc lx']
    end.
    cbn [fst snd] in *. subst acc. split; [reflexivity|exact Hrest].
Qed.

(** The first character of a name starts nothing else. *)
Lemma name_start_only (c : ascii) :
  name_start c = true ->
  Host.isspace c = false /\ ascii_eqb c "?" = false /\ Host.isdigit c = false
  /\ ascii_eqb c quote = false /\ name_char c = true.
Proof.
  destruct c as [[] [] [] [] [] [] [] []]; vm_compute; intros H;
    try discriminate H; repeat split.
Qed.

(** One turn of the main loop on the first character of a name. *)
Lemma tokenize_loop_name (fuel : nat) (lx : lexer) (tokens : list Token) (c : ascii) :
  current_char lx = Some c ->
  name_start c = true ->
  tokenize_loop (S fuel) lx tokens
  = tokenize_loop fuel (snd (identifier lx)) (tokens ++ [fst (identifier lx)]).
Proof.
  intros Hc Hstart.
  destruct (name_start_only c Hstart) as (Hspace & Hmark & Hdigit & Hquote & _).
  cbn [tokenize_loop]. rewrite Hc, Hspace, Hmark, Hdigit, Hquote.
  fold (name_start c). rewrite Hstart.
  destruct (identifier lx) as [t lx']. reflexivity.
Qed.

(** X4: A name is one token: the keyword it spells, or else an identifier
    that carries the name. *)
Theorem name_is_one_token (name : string) :
  is_name name = true ->
  tokenize name
  = LexOk [match lookup_keyword name keywords with
           | Some t => tok t
           | None => mkToken T_IDENT (LitStr name)
           end; tok T_EOF].
Proof.
  destruct name as [|c r]; [discriminate|]. cbn [is_name].
  intros H. apply andb_true_iff in H. destruct H as [Hstart Hrest].
  destruct (name_start_only c Hstart) as (_ & _ & _ & _ & Hchar).
  unfold tokenize. cbn [String.length].
  rewrite (tokenize_loop_name _ _ _ c) by (reflexivity || exact Hstart).
  unfold identifier, scan. cbn [init rest line column].
  destruct (scan_from_all name_char (String c r) 1 1) as [Hfst Hend].
  { cbn [list_ascii_of_string forallb]. rewrite Hchar. exact Hrest. }
  fold name_char.
  destruct (scan_from name_char (String c r) 1 1) as [result lx'].
  cbn [fst snd] in Hfst, Hend. subst result.
  destruct (lookup_keyword (String c r) keywords); cbn [fst snd];
    apply tokenize_loop_end; apply current_char_of_empty_rest; exact Hend.
Qed.

Lemma name_is_one_token_witness :
  tokenize "while" = LexOk [tok T_WHILE; tok T_EOF]
  /\ tokenize "while_2" = LexOk [mkToken T_IDENT (LitStr "while_2"); tok T_EOF].
Proof.
  split.
  - apply (name_is_one_token "while"). reflexivity.
  - apply (name_is_one_token "while_2"). reflexivity.
Defined.

(** ** Integer literals *)

Definition decimal_run (s : string) : bool :=
  forallb Host.isdecimal (list_ascii_of_string s).

Lemma pretty_N_char_decimal (d : N) :
  (d < 10)%N ->
  Host.isdecimal (pretty_N_char d) = true
  /\ Z.of_nat (Host.code (pretty_N_char d)) - 48 = Z.of_N d.
Proof.
  intros Hd.
  assert (H : (d = 0 \/ d = 1 \/ d = 2 \/ d = 3 \/ d = 4 \/ d = 5 \/ d = 6 \/ d = 7
               \/ d = 8 \/ d = 9)%N) by lia.
  repeat (destruct H as [->|H]); subst; split; reflexivity.
Qed.

(** The digits that [pretty] writes before [s] are decimal, and their
    value is read back most significant digit first; there are [d] of
    them, the first of which is no zero. *)
Lemma pretty_N_go_digits (x : N) :
  forall s : string,
    (decimal_run s = true -> decimal_run (pretty_N_go x s) = true)
    /\ exists d : nat,
        String.length (pretty_N_go x s) = (d + String.length s)%nat
        /\ (x = 0%N -> d = 0%nat)
        /\ (x <> 0%N -> 10 ^ Z.of_nat d <= 10 * Z.of_N x)
        /\ forall acc : Z,
            Host.digits_value acc (pretty_N_go x s)
            = Host.digits_value (acc * 10 ^ Z.of_nat d + Z.of_N x) s.
Proof.
  induction (N.lt_wf_0 x) as [x _ IH]. intros s.
  destruct (N.eq_dec x 0%N) as [->|Hx].
  - rewrite pretty_N_go_0. split; [tauto|]. exists 0%nat.
    split; [reflexivity|]. split; [reflexivity|]. split; [congruence|].
    intros acc. f_equal. cbn. lia.
  - rewrite pretty_N_go_step by lia.
    destruct (pretty_N_char_decimal (x mod 10)%N) as [Hdec Hval];
      [apply N.mod_lt; lia|].
    pose proof (N.div_mod x 10%N ltac:(lia)) as Hdiv.
    assert (Hx10 : Z.of_N x = 10 * Z.of_N (x / 10) + Z.of_N (x mod 10)) by lia.
    assert (Hmod : 0 <= Z.of_N (x mod 10)) by apply N2Z.is_nonneg.
    clear Hdiv.
    destruct (IH (x / 10)%N ltac:(apply N.div_lt; lia)
                 (String (pretty_N_char (x mod 10)%N) s))
      as [Hrun (d & Hlen & Hzero & Hlead & Hp)].
    split.
    + intros Hs. apply Hrun. unfold decimal_run in *.
      cbn [list_ascii_of_string forallb]. rewrite Hdec. exact Hs.
    + exists (S d). split; [rewrite Hlen; cbn [String.length]; lia|].
      split; [intros H0; congruence|].
      assert (Hpow : 10 ^ Z.of_nat (S d) = 10 * 10 ^ Z.of_nat d)
        by (rewrite Nat2Z.inj_succ, Z.pow_succ_r by lia; reflexivity).
      split.
      * intros _. rewrite Hpow.
        destruct (N.eq_dec (x / 10)%N 0%N) as [Hq|Hq].
        -- rewrite (Hzero Hq). change (10 ^ Z.of_nat 0) with 1. lia.
        -- pose proof (Hlead Hq). lia.
      * intros acc. rewrite Hp. cbn [Host.digits_value].
        rewrite Hdec, Hpow. f_equal. lia.
Qed.

Lemma pretty_N_digits (x : N) :
  Z.of_N x < 10 ^ 4300 ->
  decimal_run (pretty x) = true
  /\ Host.int_of_digits (pretty x) = Some (Z.of_N x).
Proof.
  intros Hbound.
  unfold pretty, pretty_N. destruct (decide (x = 0%N)) as [->|Hx]; [split; reflexivity|].
  destruct (pretty_N_go_digits x EmptyString) as [Hrun (d & Hlen & _ & Hlead & Hp)].
  split; [apply Hrun; reflexivity|].
  assert (Hd : (d <= Host.max_str_digits)%nat).
  { destruct (le_lt_dec d 4300) as [Hle|Hgt]; [exact Hle|]. exfalso.
    pose proof (Hlead Hx) as Hl.
    assert (Hmono : 10 ^ 4301 <= 10 ^ Z.of_nat d) by (apply Z.pow_le_mono_r; lia).
    replace (10 ^ 4301) with (10 * 10 ^ 4300) in Hmono
      by (symmetry; apply (Z.pow_succ_r 10 4300); discriminate).
    revert Hbound Hmono. generalize (10 ^ 4300). intros bound Hbound Hmono. lia. }
  unfold Host.int_of_digits. rewrite Hlen. cbn [String.length].
  rewrite Nat.add_0_r, (proj2 (Nat.ltb_ge _ _) Hd).
  rewrite Hp. cbn [Host.digits_value]. f_equal.
Qed.

(** A decimal digit starts a number and nothing else. *)
Lemma decimal_only (c : ascii) :
  Host.isdecimal c = true ->
  Host.isspace c = false /\ ascii_eqb c "?" = false /\ Host.isdigit c = true.
Proof.
  destruct c as [[] [] [] [] [] [] [] []]; vm_compute; intros H;
    try discriminate H; repeat split.
Qed.

(** One turn of the main loop on a digit. *)
Lemma tokenize_loop_number (fuel : nat) (lx : lexer) (tokens : list Token) (c : ascii) :
  current_char lx = Some c ->
  Host.isdecimal c = true ->
  tokenize_loop (S fuel) lx tokens
  = match Lexer.number lx with
    | LexOk (t, lx') => tokenize_loop fuel lx' (tokens ++ [t])
    | LexRaise x => LexRaise x
    | LexOutOfFuel => LexOutOfFuel
    end.
Proof.
  intros Hc Hd. destruct (decimal_only c Hd) as (Hspace & Hmark & Hdigit).
  cbn [tokenize_loop]. rewrite Hc, Hspace, Hmark, Hdigit. reflexivity.
Qed.

(** A run of decimal digits that is the whole text is one number token
    with the value of the run. *)
Lemma decimal_run_is_one_token (text : string) (n : Z) :
  text <> EmptyString ->
  decimal_run text = true ->
  Host.int_of_digits text = Some n ->
  tokenize text = LexOk [mkToken T_NUMBER (LitInt n); tok T_EOF].
Proof.
  intros Hne Hrun Hvalue. destruct text as [|c r]; [congruence|].
  assert (Hc : Host.isdecimal c = true).
  { unfold decimal_run in Hrun. cbn [list_ascii_of_string forallb] in Hrun.
    apply andb_true_iff in Hrun. tauto. }
  assert (Hdigits : forallb Host.isdigit (list_ascii_of_string (String c r)) = true).
  { unfold decimal_run in Hrun. rewrite forallb_forall in *.
    intros x Hx. apply decimal_only, Hrun, Hx. }
  unfold tokenize. cbn [String.length].
  rewrite (tokenize_loop_number _ _ _ c) by (reflexivity || exact Hc).
  unfold Lexer.number, scan. cbn [init rest line column].
  destruct (scan_from_all Host.isdigit (String c r) 1 1 Hdigits) as [Hfst Hend].
  destruct (scan_from Host.isdigit (String c r) 1 1) as [int_part lx1].
  cbn [fst snd] in Hfst, Hend. subst int_part.
  rewrite (current_char_of_empty_rest lx1 Hend), Hvalue.
  apply tokenize_loop_end. apply current_char_of_empty_rest. exact Hend.
Qed.

(** X5: The text that [str] gives for a natural number is read back by the
    lexer as that number.  (The host converts between integers and texts
    of at most 4300 digits.) *)
Theorem integer_text_round_trip (n : Z) (st : interp) :
  0 <= n < 10 ^ 4300 ->
  exists text,
    py_str (VInt n) st = (Ok text, st)
    /\ tokenize text = LexOk [mkToken T_NUMBER (LitInt n); tok T_EOF].
Proof.
  intros [Hn Hbound]. exists (pretty n).
  assert (Hfits : Host.int_text_fits n = true)
    by (apply int_text_fits_spec; rewrite Z.abs_eq by exact Hn; exact Hbound).
  split; [unfold py_str; rewrite Hfits; reflexivity|].
  destruct n as [|p|p]; [reflexivity| |lia].
  change (pretty (Zpos p)) with (pretty (Npos p)).
  destruct (pretty_N_digits (Npos p) Hbound) as [Hrun Hvalue].
  apply decimal_run_is_one_token; [|exact Hrun|exact Hvalue].
  intros Hempty. rewrite Hempty in Hvalue. discriminate Hvalue.
Qed.

Lemma integer_text_round_trip_witness :
  exists text,
    py_str (VInt 2024) new_interp = (Ok text, new_interp)
    /\ tokenize text = LexOk [mkToken T_NUMBER (LitInt 2024); tok T_EOF].
Proof.
  apply (integer_text_round_trip 2024 new_interp).
  split; [lia|vm_compute; reflexivity].
Defined.

(* ===================================================================== *)
(** * Further properties of the parser *)
(* ===================================================================== *)

(** ** The lower and the upper end of the precedence ladder *)

(** The program [let r as e;] for the expression [e] written with the
    tokens [toks], and what it parses to. *)
Definition parse_declaration (toks : list Token) : Parser.parse_result node :=
  Parser.parse 20 ([tok T_LET; ident "r"; tok T_AS] ++ toks
                   ++ [tok T_SEMICOLON; tok T_EOF]).

Definition declares (e : node) : Parser.parse_result node :=
  Parser.ParseOk (BlockNode [VarAssignNode "r" e false]).

Definition comparisons : list TokenType :=
  [T_EQUAL; T_NOT_EQUAL; T_LESS; T_GREATER; T_LESS_EQUAL; T_GREATER_EQUAL].

Definition prefix_operators : list TokenType := [T_MINUS; T_NOT].

(** X6: [or] binds weaker than [and], [and] weaker than a comparison, a
    comparison weaker than an additive operator; the six comparisons are
    one level and group to the left; a prefix operator binds tighter than
    every binary operator, the power operator included, so that [-a ** b]
    is the power of [-a]. *)
Theorem logic_comparison_and_prefix_levels (a b c : string) :
  parse_declaration [ident a; tok T_OR; ident b; tok T_AND; ident c]
  = declares (binop (var a) T_OR (binop (var b) T_AND (var c)))
  /\ parse_declaration [ident a; tok T_AND; ident b; tok T_OR; ident c]
     = declares (binop (binop (var a) T_AND (var b)) T_OR (var c))
  /\ Forall (fun cmp =>
       parse_declaration [ident a; tok T_AND; ident b; tok cmp; ident c]
       = declares (binop (var a) T_AND (binop (var b) cmp (var c)))
       /\ parse_declaration [ident a; tok cmp; ident b; tok T_AND; ident c]
          = declares (binop (binop (var a) cmp (var b)) T_AND (var c))
       /\ Forall (fun add =>
            parse_declaration [ident a; tok cmp; ident b; tok add; ident c]
            = declares (binop (var a) cmp (binop (var b) add (var c)))
            /\ parse_declaration [ident a; tok add; ident b; tok cmp; ident c]
               = declares (binop (binop (var a) add (var b)) cmp (var c)))
          additive
       /\ Forall (fun cmp' =>
            parse_declaration [ident a; tok cmp; ident b; tok cmp'; ident c]
            = declares (binop (binop (var a) cmp (var b)) cmp' (var c)))
          comparisons)
     comparisons
  /\ Forall (fun pre =>
       Forall (fun op =>
         parse_declaration [tok pre; ident a; tok op; ident b]
         = declares (binop (UnaryOpNode pre (var a)) op (var b)))
       (T_POWER :: multiplicative ++ additive ++ comparisons ++ [T_AND; T_OR])
       /\ parse_declaration [ident a; tok T_POWER; tok pre; ident b]
          = declares (binop (var a) T_POWER (UnaryOpNode pre (var b)))
       /\ Forall (fun pre' =>
            parse_declaration [tok pre; tok pre'; ident a]
            = declares (UnaryOpNode pre (UnaryOpNode pre' (var a))))
          prefix_operators)
     prefix_operators.
Proof.
  unfold comparisons, prefix_operators, multiplicative, additive. cbn [app].
  repeat split; repeat constructor; vm_compute; reflexivity.
Qed.

(** ** Statements that begin with an operator *)

Definition compound_operators : list TokenType :=
  [T_PLUS; T_MINUS; T_MULTIPLY; T_DIVIDE; T_MODULO; T_POWER].

(** X7: A statement that begins with an arithmetic operator is a compound
    assignment [op value name;], never an expression: the operator is
    followed by one primary expression and the name of the variable, so
    that the statement [-x;] is refused, while the statement [!x;] is
    the expression it looks like. *)
Theorem operator_starts_a_compound_assignment (x y : string) (n : Z) :
  Forall (fun op =>
      Parser.parse 20 [tok op; mkToken T_NUMBER (LitInt n); ident x;
                       tok T_SEMICOLON; tok T_EOF]
      = one (CompoundAssignNode x (int_literal n) op)
      /\ Parser.parse 20 [tok op; ident y; ident x; tok T_SEMICOLON; tok T_EOF]
         = one (CompoundAssignNode x (var y) op)
      /\ Parser.parse 20 [tok op; ident x; tok T_SEMICOLON; tok T_EOF]
         = Parser.ParseRaise
             (Parser.ParserError "Expected variable name in compound assignment" None None))
    compound_operators
  /\ Parser.parse 20 [tok T_NOT; ident x; tok T_SEMICOLON; tok T_EOF]
     = one (UnaryOpNode T_NOT (var x)).
Proof.
  unfold compound_operators.
  repeat split; repeat constructor; vm_compute; reflexivity.
Qed.

(* ===================================================================== *)
(** * Further properties of the interpreter *)
(* ===================================================================== *)

(** ** Declarations and names *)

Lemma is_constant_false (name : string) (st : interp) :
  name ∉ constants st -> is_constant name st = (Ok false, st).
Proof.
  intros H. unfold is_constant. rewrite bool_decide_eq_false_2 by exact H. reflexivity.
Qed.

Lemma lookup_var_bound (name : string) (st : interp) (v : value) :
  variables st !! name = Some v -> lookup_var name st = (Ok (Some v), st).
Proof. intros H. unfold lookup_var. rewrite H. reflexivity. Qed.

Lemma lookup_var_unbound (name : string) (st : interp) :
  variables st !! name = None -> lookup_var name st = (Ok None, st).
Proof. intros H. unfold lookup_var. rewrite H. reflexivity. Qed.

(** X8: A declaration [let name as e;] or [lock name as e;] binds the name
    to the value of [e] and returns it, whatever the name was bound to
    before and whether or not it was a constant; [lock] adds the name to
    the constants, [let] leaves the constants as they are.  The name then
    reads as that value. *)
Theorem declaration_binds (limit fuel depth : nat) (name : string) (value_node : node)
    (constant : bool) (st st1 : interp) (v : value) :
  (depth < limit)%nat ->
  eval limit fuel (S depth) value_node st = (Ok v, st1) ->
  exists st2,
    eval limit (S fuel) depth (VarAssignNode name value_node constant) st = (Ok v, st2)
    /\ variables st2 = <[name := v]> (variables st1)
    /\ constants st2 = (if constant then {[name]} ∪ constants st1 else constants st1)
    /\ heap st2 = heap st1
    /\ stdout st2 = stdout st1
    /\ eval limit (S fuel) depth (VarAccessNode name) st2 = (Ok v, st2).
Proof.
  intros Hd Hv. rewrite !eval_unfold. cbn [eval_node].
  rewrite (bind_ok _ _ st st1 v) by (rewrite call_eval_granted by exact Hd; exact Hv).
  destruct constant; eexists; (split; [reflexivity|]); cbn;
    repeat split; unfold lookup_var, bind; cbn; rewrite lookup_insert_eq; reflexivity.
Qed.

Lemma declaration_binds_witness :
  exists st2,
    eval 1000 3 0 (VarAssignNode "x" (int_literal 5) true) new_interp = (Ok (VInt 5), st2)
    /\ variables st2 = <["x" := VInt 5]> (variables new_interp)
    /\ constants st2 = {["x"]} ∪ constants new_interp
    /\ heap st2 = heap new_interp
    /\ stdout st2 = stdout new_interp
    /\ eval 1000 3 0 (VarAccessNode "x") st2 = (Ok (VInt 5), st2).
Proof.
  apply (declaration_binds 1000 2 0 "x" (int_literal 5) true new_interp new_interp (VInt 5)).
  - lia.
  - reflexivity.
Defined.

(** Every comparison of two given names, computed. *)
Ltac literal_names :=
  repeat match goal with
         | |- context [String.eqb ?a ?b] =>
             let r := eval vm_compute in (String.eqb a b) in
             match r with
             | true => change (String.eqb a b) with true
             | false => change (String.eqb a b) with false
             end
         end;
  cbv iota.

(** A call by a name that is not bound to a function or lambda of the
    program is a call of a builtin. *)
Lemma eval_call_builtin (limit fuel depth : nat) (func_name : string) (args : list node)
    (st : interp) :
  (depth < limit)%nat ->
  is_user_callable (variables st !! func_name) = false ->
  eval limit (S fuel) depth (FunctionCallNode (CalleeName func_name) args) st
  = builtin_call limit (eval limit fuel) fuel (S depth) func_name args
      (variables st !! func_name) st.
Proof.
  intros Hd Huser. rewrite eval_unfold. cbn [eval_node].
  rewrite enter_granted by exact Hd. unfold eval_function_call.
  rewrite (bind_ok _ _ st st (variables st !! func_name)) by reflexivity.
  destruct (variables st !! func_name) as [[]|]; try discriminate Huser; reflexivity.
Qed.

Lemma resolve_target_unbound (limit : nat) (self_eval : nat -> node -> M value)
    (d : nat) (name : string) (st : interp) :
  variables st !! name = None ->
  resolve_target limit self_eval d (VarAccessNode name) st
  = (Raise (VariableNotDefinedError ("Variable '" +:+ name +:+ "' not defined")), st).
Proof.
  intros H. unfold resolve_target.
  rewrite (bind_ok _ _ st st None) by (apply lookup_var_unbound; exact H).
  reflexivity.
Qed.

(** X9: A name that is not bound cannot be read, reassigned, changed by a
    compound assignment or an increment, or handed to a mutating builtin:
    each of them raises the undefined-variable error before anything else
    is evaluated, and leaves the state as it was. *)
Theorem unbound_name_is_refused (limit fuel depth : nat) (name : string) (st : interp) :
  variables st !! name = None ->
  (S depth < limit)%nat ->
  eval limit (S fuel) depth (VarAccessNode name) st
  = (Raise (VariableNotDefinedError name), st)
  /\ (forall value_node,
         eval limit (S fuel) depth (VarReassignNode name value_node) st
         = (Raise (VariableNotDefinedError name), st))
  /\ (forall value_node operator,
         eval limit (S fuel) depth (CompoundAssignNode name value_node operator) st
         = (Raise (VariableNotDefinedError name), st))
  /\ (forall operator prefix,
         eval limit (S fuel) depth (IncrementNode name operator prefix) st
         = (Raise (VariableNotDefinedError name), st))
  /\ (forall func_name arity args,
         (func_name, arity) ∈ mutating_builtins ->
         length (VarAccessNode name :: args) = arity ->
         is_user_callable (variables st !! func_name) = false ->
         eval limit (S fuel) depth
              (FunctionCallNode (CalleeName func_name) (VarAccessNode name :: args)) st
         = (Raise (VariableNotDefinedError ("Variable '" +:+ name +:+ "' not defined")),
            st)).
Proof.
  intros Hunbound Hd.
  pose proof (lookup_var_unbound name st Hunbound) as Hlookup.
  do 4 (split; [intros; rewrite eval_unfold; cbn [eval_node];
                rewrite (bind_ok _ _ st st None) by exact Hlookup; reflexivity|]).
  intros func_name arity args Hin Hlen Huser.
  rewrite eval_call_builtin by (lia || exact Huser).
  generalize (variables st !! func_name). intros bound.
  unfold mutating_builtins in Hin.
  repeat (apply elem_of_cons in Hin; destruct Hin as [Hin|Hin];
          [injection Hin as -> ->|]); [..|inversion Hin].
  all: destruct args as [|a1 [|a2 [|a3 args]]]; try discriminate Hlen; clear Hlen.
  all: unfold builtin_call, container_builtin, existsb; cbv zeta beta; literal_names;
    cbn [length Nat.eqb Nat.leb negb andb orb arg nth].
  all: try (rewrite enter_granted by lia;
            unfold handle_array_functions; cbv zeta beta; literal_names;
            cbn [length Nat.eqb Nat.leb negb andb orb arg nth]).
  all: try (unfold needs_container).
  all: apply bind_raise; apply resolve_target_unbound; exact Hunbound.
Qed.

Lemma unbound_name_is_refused_witness :
  eval 1000 3 0 (VarAccessNode "ghost") new_interp
  = (Raise (VariableNotDefinedError "ghost"), new_interp)
  /\ eval 1000 3 0 (FunctionCallNode (CalleeName "push") [VarAccessNode "ghost"; int_literal 1])
          new_interp
     = (Raise (VariableNotDefinedError "Variable 'ghost' not defined"), new_interp).
Proof.
  destruct (unbound_name_is_refused 1000 2 0 "ghost" new_interp) as (Hread & _ & _ & _ & Hcall).
  - reflexivity.
  - lia.
  - split; [exact Hread|].
    apply (Hcall "push" 2%nat [int_literal 1]).
    + refine (bool_decide_unpack _ _); vm_compute; exact I.
    + reflexivity.
    + reflexivity.
Defined.

(** X10: Increment and decrement of an integer variable that is no constant:
    the variable moves by one in both forms; the prefix form returns the
    new value, the postfix form the old one. *)
Theorem increment_prefix_and_postfix (limit fuel depth : nat) (name : string)
    (st : interp) (n : Z) (prefix : bool) :
  variables st !! name = Some (VInt n) ->
  name ∉ constants st ->
  eval limit (S fuel) depth (IncrementNode name T_INCREMENT prefix) st
  = (Ok (VInt (if prefix then n + 1 else n)),
     set_variables (<[name := VInt (n + 1)]> (variables st)) st)
  /\ eval limit (S fuel) depth (IncrementNode name T_DECREMENT prefix) st
     = (Ok (VInt (if prefix then n - 1 else n)),
        set_variables (<[name := VInt (n - 1)]> (variables st)) st).
Proof.
  intros Hbound Hfree. rewrite !eval_unfold. cbn [eval_node].
  rewrite !(bind_ok _ _ st st (Some (VInt n))) by (apply lookup_var_bound; exact Hbound).
  rewrite !(bind_ok _ _ st st false) by (apply is_constant_false; exact Hfree).
  destruct prefix; split; reflexivity.
Qed.

Lemma increment_prefix_and_postfix_witness :
  eval 1000 2 0 (IncrementNode "i" T_INCREMENT false)
       (mkInterp (<["i" := VInt 7]> ∅) ∅ [] 0 EmptyString)
  = (Ok (VInt 7),
     set_variables (<["i" := VInt 8]> (<["i" := VInt 7]> ∅))
                   (mkInterp (<["i" := VInt 7]> ∅) ∅ [] 0 EmptyString)).
Proof.
  refine (proj1 (increment_prefix_and_postfix 1000 1 0 "i"
                   (mkInterp (<["i" := VInt 7]> ∅) ∅ [] 0 EmptyString) 7 false _ _)).
  - reflexivity.
  - apply not_elem_of_empty.
Defined.

(** ** Binary and unary operators *)

(** What [is_truthy] answers for a value in a state. *)
Definition truth (st : interp) (v : value) : bool :=
  match v with
  | VNone => false
  | VBool b => b
  | VInt n => negb (n =? 0)
  | VFloat f => negb (float_is_zero f)
  | VStr s => negb (String.eqb s EmptyString)
  | VList l => negb (length (list_at st l) =? 0)%nat
  | VFunction _ _ _ _ | VLambda _ _ _ _ => true
  end.

Lemma is_truthy_truth (v : value) (st : interp) : is_truthy v st = (Ok (truth st v), st).
Proof. destruct v; reflexivity. Qed.

(** The two operands of a binary operation evaluate to [left] and
    [right]. *)
Lemma eval_binary_operands (limit fuel depth : nat) (left_node right_node : node)
    (op : TokenType) (st st1 st2 : interp) (left right : value) :
  (S depth < limit)%nat ->
  eval limit fuel (S (S depth)) left_node st = (Ok left, st1) ->
  eval limit fuel (S (S depth)) right_node st1 = (Ok right, st2) ->
  eval limit (S fuel) depth (BinaryOpNode left_node op right_node) st
  = apply_binary_op fuel op left right st2.
Proof.
  intros Hd Hl Hr. rewrite eval_unfold. cbn [eval_node].
  rewrite enter_granted by lia. unfold eval_binary_op.
  rewrite (bind_ok _ _ st st1 left) by (rewrite call_eval_granted by lia; exact Hl).
  rewrite (bind_ok _ _ st1 st2 right) by (rewrite call_eval_granted by lia; exact Hr).
  reflexivity.
Qed.

(** X11: No binary operator skips its right operand: when the left operand
    has a value and the right one raises, the operation raises the same,
    also for [and] after a false left operand and for [or] after a true
    one.  When both have a value, [and] and [or] return the boolean of
    the two truth values, not one of the operands. *)
Theorem operands_are_both_evaluated (limit fuel depth : nat)
    (left_node right_node : node) (st st1 st2 : interp) (left : value) :
  (S depth < limit)%nat ->
  eval limit fuel (S (S depth)) left_node st = (Ok left, st1) ->
  (forall e op,
      eval limit fuel (S (S depth)) right_node st1 = (Raise e, st2) ->
      eval limit (S fuel) depth (BinaryOpNode left_node op right_node) st = (Raise e, st2))
  /\ (forall right,
         eval limit fuel (S (S depth)) right_node st1 = (Ok right, st2) ->
         eval limit (S fuel) depth (BinaryOpNode left_node T_AND right_node) st
         = (Ok (VBool (truth st2 left && truth st2 right)), st2)
         /\ eval limit (S fuel) depth (BinaryOpNode left_node T_OR right_node) st
            = (Ok (VBool (truth st2 left || truth st2 right)), st2)).
Proof.
  intros Hd Hl. split.
  - intros e op Hr. rewrite eval_unfold. cbn [eval_node].
    rewrite enter_granted by lia. unfold eval_binary_op.
    rewrite (bind_ok _ _ st st1 left) by (rewrite call_eval_granted by lia; exact Hl).
    apply bind_raise. rewrite call_eval_granted by lia. exact Hr.
  - intros right Hr.
    rewrite !(eval_binary_operands limit fuel depth _ _ _ st st1 st2 left right Hd Hl Hr).
    cbn [apply_binary_op].
    rewrite !(bind_ok _ _ st2 st2 (truth st2 left)) by apply is_truthy_truth.
    destruct (truth st2 left); cbn [andb orb];
      rewrite ?(bind_ok _ _ st2 st2 (truth st2 right)) by apply is_truthy_truth;
      split; reflexivity.
Qed.

Lemma operands_are_both_evaluated_witness :
  eval 1000 3 0 (BinaryOpNode (BoolNode false) T_AND (VarAccessNode "ghost")) new_interp
  = (Raise (VariableNotDefinedError "ghost"), new_interp)
  /\ eval 1000 3 0 (BinaryOpNode (BoolNode false) T_OR (int_literal 7)) new_interp
     = (Ok (VBool true), new_interp).
Proof.
  destruct (operands_are_both_evaluated 1000 2 0 (BoolNode false) (VarAccessNode "ghost")
              new_interp new_interp new_interp (VBool false)) as [Hraise _];
    [lia|reflexivity|].
  destruct (operands_are_both_evaluated 1000 2 0 (BoolNode false) (int_literal 7)
              new_interp new_interp new_interp (VBool false)) as [_ Hvalue];
    [lia|reflexivity|].
  split.
  - apply Hraise. reflexivity.
  - apply (Hvalue (VInt 7)). reflexivity.
Defined.

(** [None], texts, arrays, functions and lambdas: values for which the
    host defines no [-], whatever the other operand is.  (Booleans and
    numbers are subtracted; sets, which the embedding does not have, are
    subtracted from each other.) *)
Definition has_no_minus (v : value) : bool :=
  match v with
  | VNone | VStr _ | VList _ | VFunction _ _ _ _ | VLambda _ _ _ _ => true
  | VBool _ | VInt _ | VFloat _ => false
  end.

(** X12: Subtraction and negation have no check of their operands: when an
    operand is [None], a text, an array, a function or a lambda, they end
    with the [TypeError] of the host, which is no runtime error of
    [src/errors.py]. *)
Theorem subtraction_of_a_non_number (limit fuel depth : nat)
    (left_node right_node : node) (st st1 st2 : interp) (left right : value) :
  (S depth < limit)%nat ->
  eval limit fuel (S (S depth)) left_node st = (Ok left, st1) ->
  eval limit fuel (S (S depth)) right_node st1 = (Ok right, st2) ->
  (has_no_minus left = true \/ has_no_minus right = true ->
   eval limit (S fuel) depth (BinaryOpNode left_node T_MINUS right_node) st
   = (Raise (HostException Host.TypeError), st2))
  /\ (has_no_minus left = true ->
      eval limit (S fuel) depth (UnaryOpNode T_MINUS left_node) st
      = (Raise (HostException Host.TypeError), st1))
  /\ is_runtime_error (HostException Host.TypeError) = false.
Proof.
  intros Hd Hl Hr.
  assert (Hnone : forall v, has_no_minus v = true -> as_num v = None)
    by (intros [] H; try discriminate H; reflexivity).
  repeat apply conj; [| |reflexivity].
  - intros Hnum.
    rewrite (eval_binary_operands limit fuel depth _ _ _ st st1 st2 left right Hd Hl Hr).
    cbn [apply_binary_op]. unfold py_sub.
    destruct Hnum as [Hleft | Hright].
    + rewrite (Hnone left Hleft). reflexivity.
    + rewrite (Hnone right Hright). destruct (as_num left); reflexivity.
  - intros Hnum. rewrite eval_unfold. cbn [eval_node].
    rewrite enter_granted by lia. unfold eval_unary_op.
    rewrite (bind_ok _ _ st st1 left) by (rewrite call_eval_granted by lia; exact Hl).
    unfold py_neg. rewrite (Hnone left Hnum). reflexivity.
Qed.

Lemma subtraction_of_a_non_number_witness :
  eval 1000 3 0 (BinaryOpNode (int_literal 5) T_MINUS (StringNode "a")) new_interp
  = (Raise (HostException Host.TypeError), new_interp).
Proof.
  refine (proj1 (subtraction_of_a_non_number 1000 2 0 (int_literal 5) (StringNode "a")
                   new_interp new_interp new_interp (VInt 5) (VStr "a") _ _ _) _).
  - lia.
  - reflexivity.
  - reflexivity.
  - right. reflexivity.
Defined.

(** ** Loops *)

(** X13: A [while] loop whose condition is false at once evaluates the
    condition and nothing else, and has no value; a [do]-[while] loop with
    the same condition has evaluated its body once before, and has the
    value of the body. *)
Theorem loops_with_a_false_condition (limit fuel depth : nat)
    (condition_node body : node) (st st1 : interp) (c : value) :
  (depth < limit)%nat ->
  eval limit (S fuel) (S depth) condition_node st = (Ok c, st1) ->
  truth st1 c = false ->
  eval limit (S (S fuel)) depth (WhileLoopNode condition_node body) st = (Ok VNone, st1)
  /\ (forall st0 r,
         eval limit (S fuel) (S depth) body st0 = (Ok r, st) ->
         eval limit (S (S fuel)) depth (DoWhileLoopNode body condition_node) st0
         = (Ok r, st1)).
Proof.
  intros Hd Hc Hfalse.
  assert (Htest : (do c <- call_eval limit (eval limit (S fuel)) depth condition_node;
                   is_truthy c) st = (Ok false, st1)).
  { rewrite (bind_ok _ _ st st1 c) by (rewrite call_eval_granted by exact Hd; exact Hc).
    rewrite is_truthy_truth, Hfalse. reflexivity. }
  split.
  - rewrite eval_unfold. cbn [eval_node while_loop]. unfold on_break.
    rewrite (bind_ok _ _ st st1 c) by (rewrite call_eval_granted by exact Hd; exact Hc).
    rewrite (bind_ok _ _ st1 st1 false) by (rewrite is_truthy_truth, Hfalse; reflexivity).
    reflexivity.
  - intros st0 r Hbody. rewrite eval_unfold. cbn [eval_node do_while_loop].
    unfold on_break at 1.
    rewrite (bind_ok _ _ st0 st r)
      by (unfold on_continue; rewrite call_eval_granted by exact Hd;
          rewrite Hbody; reflexivity).
    unfold on_break.
    rewrite (bind_ok _ _ st st1 c) by (rewrite call_eval_granted by exact Hd; exact Hc).
    rewrite (bind_ok _ _ st1 st1 false) by (rewrite is_truthy_truth, Hfalse; reflexivity).
    reflexivity.
Qed.

Lemma loops_with_a_false_condition_witness :
  eval 1000 3 0 (WhileLoopNode (BoolNode false) (VarAccessNode "ghost")) new_interp
  = (Ok VNone, new_interp)
  /\ eval 1000 3 0 (DoWhileLoopNode (int_literal 4) (BoolNode false)) new_interp
     = (Ok (VInt 4), new_interp).
Proof.
  split.
  - refine (proj1 (loops_with_a_false_condition 1000 1 0 (BoolNode false)
                     (VarAccessNode "ghost") new_interp new_interp (VBool false) _ _ _)).
    + lia.
    + reflexivity.
    + reflexivity.
  - refine (proj2 (loops_with_a_false_condition 1000 1 0 (BoolNode false)
                     (int_literal 4) new_interp new_interp (VBool false) _ _ _)
                  new_interp (VInt 4) _).
    + lia.
    + reflexivity.
    + reflexivity.
    + reflexivity.
Defined.

(** X14: A [break] in the first turn ends the loop there: the loop has no
    value, the [do]-[while] loop does not evaluate its condition, and the
    [for] loop still puts the loop variable back. *)
Theorem break_ends_the_loop (limit fuel depth : nat) (body : node) :
  (depth < limit)%nat ->
  (forall condition_node st st1 st2 c,
      eval limit (S fuel) (S depth) condition_node st = (Ok c, st1) ->
      truth st1 c = true ->
      eval limit (S fuel) (S depth) body st1 = (Raise BreakException, st2) ->
      eval limit (S (S fuel)) depth (WhileLoopNode condition_node body) st
      = (Ok VNone, st2))
  /\ (forall condition_node st st2,
         eval limit (S fuel) (S depth) body st = (Raise BreakException, st2) ->
         eval limit (S (S fuel)) depth (DoWhileLoopNode body condition_node) st
         = (Ok VNone, st2))
  /\ (forall var_name iterable_node st st1 st2 l x items,
         eval limit (S fuel) (S depth) iterable_node st = (Ok (VList l), st1) ->
         heap st1 !! l = Some (x :: items) ->
         eval limit (S fuel) (S depth) body
              (set_variables (<[var_name := x]> (variables st1)) st1)
         = (Raise BreakException, st2) ->
         eval limit (S (S fuel)) depth (ForLoopNode var_name iterable_node body) st
         = (Ok VNone, restore_var var_name (variables st1 !! var_name) st2)).
Proof.
  intros Hd. repeat apply conj.
  - intros condition_node st st1 st2 c Hc Htrue Hbody.
    rewrite eval_unfold. cbn [eval_node while_loop]. unfold on_break at 1.
    rewrite (bind_ok _ _ st st1 c) by (rewrite call_eval_granted by exact Hd; exact Hc).
    rewrite (bind_ok _ _ st1 st1 true) by (rewrite is_truthy_truth, Htrue; reflexivity).
    rewrite (bind_raise _ _ st1 st2 BreakException); [reflexivity|].
    unfold on_continue. rewrite call_eval_granted by exact Hd. rewrite Hbody. reflexivity.
  - intros condition_node st st2 Hbody.
    rewrite eval_unfold. cbn [eval_node do_while_loop]. unfold on_break at 1.
    rewrite (bind_raise _ _ st st2 BreakException); [reflexivity|].
    unfold on_continue. rewrite call_eval_granted by exact Hd. rewrite Hbody. reflexivity.
  - intros var_name iterable_node st st1 st2 l x items Hiter Hitems Hbody.
    rewrite eval_unfold. cbn [eval_node].
    rewrite (bind_ok _ _ st st1 (VList l))
      by (rewrite call_eval_granted by exact Hd; exact Hiter).
    rewrite (bind_ok _ _ st1 st1 st1) by reflexivity.
    unfold try_finally. cbn [for_loop]. unfold on_break at 1.
    rewrite (bind_ok _ _ st1 st1 (Some x))
      by (unfold next_item, read_list, bind; rewrite Hitems; reflexivity).
    rewrite (bind_raise _ _ st1 st2 BreakException); [reflexivity|].
    unfold on_continue.
    rewrite (bind_ok _ _ st1 (set_variables (<[var_name := x]> (variables st1)) st1) tt)
      by reflexivity.
    rewrite call_eval_granted by exact Hd. rewrite Hbody. reflexivity.
Qed.

Lemma break_ends_the_loop_witness :
  eval 1000 3 0 (WhileLoopNode (BoolNode true) BreakNode) new_interp = (Ok VNone, new_interp).
Proof.
  refine (proj1 (break_ends_the_loop 1000 1 0 BreakNode _) (BoolNode true)
            new_interp new_interp new_interp (VBool true) _ _ _).
  - lia.
  - reflexivity.
  - reflexivity.
  - reflexivity.
Defined.

(** ** The builtins on arrays *)

(** From the call of a builtin by its name to the body of the builtin,
    in [eval_function_call] or in [_handle_array_functions]. *)
Ltac enter_builtin Hd Huser :=
  rewrite eval_call_builtin by (lia || exact Huser);
  unfold builtin_call, container_builtin, existsb; cbv zeta beta; literal_names;
  cbn [length Nat.eqb Nat.leb negb andb orb arg nth];
  try (rewrite enter_granted by lia;
       unfold handle_array_functions; cbv zeta beta; literal_names;
       cbn [length Nat.eqb Nat.leb negb andb orb arg nth]).

(** The state in which the name [a] is bound to the one array there is,
    with the given items. *)
Definition array_state (items : list value) : interp :=
  mkInterp (<["a" := VList 0%nat]> ∅) ∅ [items] 0 EmptyString.

Lemma read_list_at (l : loc) (st : interp) : read_list l st = (Ok (list_at st l), st).
Proof. reflexivity. Qed.

Lemma list_at_some (st : interp) (l : loc) (items : list value) :
  heap st !! l = Some items -> list_at st l = items.
Proof. unfold list_at. intros ->. reflexivity. Qed.

(** Writing a list object back as it is changes nothing. *)
Lemma set_heap_same (st : interp) (l : loc) (items : list value) :
  heap st !! l = Some items -> set_heap (<[l := items]> (heap st)) st = st.
Proof.
  intros H. unfold set_heap. rewrite list_insert_id by exact H. destruct st; reflexivity.
Qed.

Lemma set_heap_twice (st : interp) (l : loc) (xs ys : list value) :
  set_heap (<[l := ys]> (heap (set_heap (<[l := xs]> (heap st)) st)))
           (set_heap (<[l := xs]> (heap st)) st)
  = set_heap (<[l := ys]> (heap st)) st.
Proof. unfold set_heap. cbn. rewrite list_insert_insert_eq. reflexivity. Qed.

Lemma list_at_written (st : interp) (l : loc) (old items : list value) :
  heap st !! l = Some old ->
  list_at (set_heap (<[l := items]> (heap st)) st) l = items.
Proof.
  intros H. unfold list_at, set_heap. cbn.
  rewrite list_lookup_insert_eq by (apply lookup_lt_Some in H; exact H). reflexivity.
Qed.

Lemma push_call (limit fuel depth : nat) (array_node value_node : node)
    (st st1 st2 : interp) (l : loc) (v : value) :
  (S depth < limit)%nat ->
  is_user_callable (variables st !! "push") = false ->
  resolve_target limit (eval limit fuel) (S depth) array_node st = (Ok (VList l), st1) ->
  eval limit fuel (S (S depth)) value_node st1 = (Ok v, st2) ->
  eval limit (S fuel) depth
       (FunctionCallNode (CalleeName "push") [array_node; value_node]) st
  = (Ok (VList l), set_heap (<[l := list_at st2 l ++ [v]]> (heap st2)) st2).
Proof.
  intros Hd Huser Harray Hvalue. enter_builtin Hd Huser.
  rewrite (bind_ok _ _ st st1 (VList l)) by exact Harray.
  rewrite (bind_ok _ _ st1 st2 v) by (rewrite call_eval_granted by lia; exact Hvalue).
  reflexivity.
Qed.

(** X15: [push(array, value)] appends the value to the list object itself, so
    that every reference to the object sees it, and returns the array. *)
Theorem push_appends (limit fuel depth : nat) (array_node value_node : node)
    (st st1 st2 : interp) (l : loc) (v : value) :
  (S depth < limit)%nat ->
  is_user_callable (variables st !! "push") = false ->
  resolve_target limit (eval limit fuel) (S depth) array_node st = (Ok (VList l), st1) ->
  eval limit fuel (S (S depth)) value_node st1 = (Ok v, st2) ->
  eval limit (S fuel) depth
       (FunctionCallNode (CalleeName "push") [array_node; value_node]) st
  = (Ok (VList l), set_heap (<[l := list_at st2 l ++ [v]]> (heap st2)) st2)
  /\ forall items, heap st2 !! l = Some items ->
       list_at (set_heap (<[l := list_at st2 l ++ [v]]> (heap st2)) st2) l = items ++ [v].
Proof.
  intros Hd Huser Harray Hvalue.
  split; [exact (push_call limit fuel depth _ _ st st1 st2 l v Hd Huser Harray Hvalue)|].
  intros items Hitems. rewrite (list_at_written st2 l items _ Hitems).
  rewrite (list_at_some st2 l items Hitems). reflexivity.
Qed.

Lemma push_appends_witness :
  eval 1000 3 0
       (FunctionCallNode (CalleeName "push") [ArrayNode [int_literal 1]; int_literal 2])
       new_interp
  = (Ok (VList 0%nat), mkInterp ∅ ∅ [[VInt 1; VInt 2]] 0 EmptyString).
Proof.
  apply (proj1 (push_appends 1000 2 0 (ArrayNode [int_literal 1]) (int_literal 2) new_interp
                  (mkInterp ∅ ∅ [[VInt 1]] 0 EmptyString)
                  (mkInterp ∅ ∅ [[VInt 1]] 0 EmptyString) 0%nat (VInt 2)
                  ltac:(lia) eq_refl eq_refl eq_refl)).
Defined.

Definition empty_array (func_name : string) : exn :=
  PuffingRuntimeError (func_name +:+ "() from empty array") [].

Lemma pop_call (limit fuel depth : nat) (array_node : node) (st st1 : interp) (l : loc) :
  (S depth < limit)%nat ->
  is_user_callable (variables st !! "pop") = false ->
  resolve_target limit (eval limit fuel) (S depth) array_node st = (Ok (VList l), st1) ->
  eval limit (S fuel) depth (FunctionCallNode (CalleeName "pop") [array_node]) st
  = match list_at st1 l with
    | [] => (Raise (empty_array "pop"), st1)
    | items => (Ok (VList l), set_heap (<[l := removelast items]> (heap st1)) st1)
    end.
Proof.
  intros Hd Hpop Harray. enter_builtin Hd Hpop.
  rewrite (bind_ok _ _ st st1 (VList l)) by exact Harray.
  cbn [expect_list].
  rewrite (bind_ok _ _ st1 st1 l) by reflexivity.
  rewrite (bind_ok _ _ st1 st1 (list_at st1 l)) by apply read_list_at.
  destruct (list_at st1 l); reflexivity.
Qed.

Lemma shift_call (limit fuel depth : nat) (array_node : node) (st st1 : interp) (l : loc) :
  (S depth < limit)%nat ->
  is_user_callable (variables st !! "shift") = false ->
  resolve_target limit (eval limit fuel) (S depth) array_node st = (Ok (VList l), st1) ->
  eval limit (S fuel) depth (FunctionCallNode (CalleeName "shift") [array_node]) st
  = match list_at st1 l with
    | [] => (Raise (empty_array "shift"), st1)
    | items => (Ok (VList l), set_heap (<[l := tail items]> (heap st1)) st1)
    end.
Proof.
  intros Hd Hshift Harray. enter_builtin Hd Hshift.
  rewrite (bind_ok _ _ st st1 (VList l)) by exact Harray.
  cbn [expect_list]. rewrite (bind_ok _ _ st1 st1 l) by reflexivity.
  rewrite (bind_ok _ _ st1 st1 (list_at st1 l)) by apply read_list_at.
  destruct (list_at st1 l); reflexivity.
Qed.

(** X16: [pop(array)] removes the last item and [shift(array)] the first one,
    in the list object itself; both return the array, not the item they
    removed, and both refuse an empty array with a runtime error that
    leaves it as it is. *)
Theorem pop_and_shift_remove (limit fuel depth : nat) (array_node : node)
    (st st1 : interp) (l : loc) :
  (S depth < limit)%nat ->
  is_user_callable (variables st !! "pop") = false ->
  is_user_callable (variables st !! "shift") = false ->
  resolve_target limit (eval limit fuel) (S depth) array_node st = (Ok (VList l), st1) ->
  eval limit (S fuel) depth (FunctionCallNode (CalleeName "pop") [array_node]) st
  = match list_at st1 l with
    | [] => (Raise (empty_array "pop"), st1)
    | items => (Ok (VList l), set_heap (<[l := removelast items]> (heap st1)) st1)
    end
  /\ eval limit (S fuel) depth (FunctionCallNode (CalleeName "shift") [array_node]) st
     = match list_at st1 l with
       | [] => (Raise (empty_array "shift"), st1)
       | items => (Ok (VList l), set_heap (<[l := tail items]> (heap st1)) st1)
       end.
Proof.
  intros Hd Hpop Hshift Harray.
  split; [exact (pop_call limit fuel depth _ st st1 l Hd Hpop Harray)
         |exact (shift_call limit fuel depth _ st st1 l Hd Hshift Harray)].
Qed.

Lemma pop_and_shift_remove_witness :
  eval 1000 3 0 (FunctionCallNode (CalleeName "pop") [ArrayNode []]) new_interp
  = (Raise (empty_array "pop"), mkInterp ∅ ∅ [[]] 0 EmptyString)
  /\ eval 1000 3 0
          (FunctionCallNode (CalleeName "shift") [ArrayNode [int_literal 1; int_literal 2]])
          new_interp
     = (Ok (VList 0%nat), mkInterp ∅ ∅ [[VInt 2]] 0 EmptyString).
Proof.
  split.
  - apply (proj1 (pop_and_shift_remove 1000 2 0 (ArrayNode []) new_interp
                    (mkInterp ∅ ∅ [[]] 0 EmptyString) 0%nat
                    ltac:(lia) eq_refl eq_refl eq_refl)).
  - apply (proj2 (pop_and_shift_remove 1000 2 0 (ArrayNode [int_literal 1; int_literal 2])
                    new_interp (mkInterp ∅ ∅ [[VInt 1; VInt 2]] 0 EmptyString) 0%nat
                    ltac:(lia) eq_refl eq_refl eq_refl)).
Defined.

(** X17: [pop(push(array, value))] leaves the array, and the whole state, as
    the evaluation of the two arguments left them. *)
Theorem push_then_pop_restores (limit fuel depth : nat) (array_node value_node : node)
    (st st1 st2 : interp) (l : loc) (v : value) (items : list value) :
  (S (S (S depth)) < limit)%nat ->
  is_user_callable (variables st !! "push") = false ->
  is_user_callable (variables st !! "pop") = false ->
  resolve_target limit (eval limit fuel) (S (S (S depth))) array_node st
  = (Ok (VList l), st1) ->
  eval limit fuel (S (S (S (S depth)))) value_node st1 = (Ok v, st2) ->
  heap st2 !! l = Some items ->
  eval limit (S (S fuel)) depth
       (FunctionCallNode (CalleeName "pop")
          [FunctionCallNode (CalleeName "push") [array_node; value_node]]) st
  = (Ok (VList l), st2).
Proof.
  intros Hd Hpush Hpop Harray Hvalue Hitems.
  pose proof (push_call limit fuel (S (S depth)) array_node value_node st st1 st2 l v
                ltac:(lia) Hpush Harray Hvalue) as Hinner.
  rewrite (list_at_some st2 l items Hitems) in Hinner.
  rewrite (pop_call limit (S fuel) depth _ st
             (set_heap (<[l := items ++ [v]]> (heap st2)) st2) l);
    [|lia|exact Hpop|unfold resolve_target; rewrite call_eval_granted by lia; exact Hinner].
  rewrite (list_at_written st2 l items _ Hitems).
  destruct (items ++ [v]) as [|y ys] eqn:Happ; [destruct items; discriminate Happ|].
  rewrite <- Happ, removelast_last, set_heap_twice, (set_heap_same st2 l items Hitems).
  reflexivity.
Qed.

Lemma push_then_pop_restores_witness :
  eval 1000 4 0
       (FunctionCallNode (CalleeName "pop")
          [FunctionCallNode (CalleeName "push") [VarAccessNode "a"; int_literal 9]])
       (array_state [VInt 1])
  = (Ok (VList 0%nat), array_state [VInt 1]).
Proof.
  apply (push_then_pop_restores 1000 2 0 (VarAccessNode "a") (int_literal 9)
           (array_state [VInt 1])
           (array_state [VInt 1])
           (array_state [VInt 1])
           0%nat (VInt 9) [VInt 1]).
  - lia.
  - reflexivity.
  - reflexivity.
  - vm_compute. reflexivity.
  - reflexivity.
  - reflexivity.
Defined.

Lemma chars_length (s : string) : length (chars s) = String.length s.
Proof. induction s as [|c r IH]; [reflexivity|]. cbn. rewrite IH. reflexivity. Qed.

Definition has_no_len (v : value) : exn :=
  PuffingRuntimeError "Object of type {type(value).__name__} has no len()" [v].

(** X18: [len(x)] is the number of items of an array and the number of
    characters of a text; of [None], a boolean, a number, a function or a
    lambda it is a runtime error.  The state is the one the evaluation of
    the argument left.  (Of a dictionary or a set, which the embedding
    does not have, it is the size.) *)
Theorem len_counts (limit fuel depth : nat) (value_node : node) (st st1 : interp)
    (v : value) :
  (S depth < limit)%nat ->
  is_user_callable (variables st !! "len") = false ->
  eval limit fuel (S (S depth)) value_node st = (Ok v, st1) ->
  eval limit (S fuel) depth (FunctionCallNode (CalleeName "len") [value_node]) st
  = (match v with
     | VList l => Ok (VInt (Z.of_nat (length (list_at st1 l))))
     | VStr s => Ok (VInt (Z.of_nat (String.length s)))
     | VNone | VBool _ | VInt _ | VFloat _
     | VFunction _ _ _ _ | VLambda _ _ _ _ => Raise (has_no_len v)
     end, st1).
Proof.
  intros Hd Huser Hv. enter_builtin Hd Huser.
  rewrite (bind_ok _ _ st st1 v) by (rewrite call_eval_granted by lia; exact Hv).
  destruct v; try reflexivity.
  cbn [items_of]. unfold bind, ret. cbn. rewrite chars_length. reflexivity.
Qed.

Lemma len_counts_witness :
  eval 1000 3 0 (FunctionCallNode (CalleeName "len") [StringNode "abc"]) new_interp
  = (Ok (VInt 3), new_interp)
  /\ eval 1000 3 0 (FunctionCallNode (CalleeName "len") [int_literal 7]) new_interp
     = (Raise (has_no_len (VInt 7)), new_interp).
Proof.
  split.
  - apply (len_counts 1000 2 0 (StringNode "abc") new_interp new_interp (VStr "abc")).
    + lia.
    + reflexivity.
    + reflexivity.
  - apply (len_counts 1000 2 0 (int_literal 7) new_interp new_interp (VInt 7)).
    + lia.
    + reflexivity.
    + reflexivity.
Defined.

Lemma reverse_call (limit fuel depth : nat) (array_node : node) (st st1 : interp)
    (l : loc) :
  (S (S depth) < limit)%nat ->
  is_user_callable (variables st !! "reverse") = false ->
  resolve_target limit (eval limit fuel) (S (S depth)) array_node st = (Ok (VList l), st1) ->
  eval limit (S fuel) depth (FunctionCallNode (CalleeName "reverse") [array_node]) st
  = (Ok (VList l), set_heap (<[l := rev (list_at st1 l)]> (heap st1)) st1).
Proof.
  intros Hd Huser Harray. enter_builtin Hd Huser.
  rewrite (bind_ok _ _ st st1 (VList l)) by exact Harray.
  reflexivity.
Qed.

(** X19: [reverse] reverses the list object itself and returns the array:
    after [reverse(array)] the list object holds the items in the
    opposite order, every other list object and every binding being as
    the evaluation of [array] left them; and [reverse(reverse(array))]
    leaves the array, and the whole state, as the evaluation of [array]
    left them. *)
Theorem reverse_twice_restores (limit fuel depth : nat) (array_node : node)
    (st st1 : interp) (l : loc) (items : list value) :
  (S (S (S (S (S depth)))) < limit)%nat ->
  is_user_callable (variables st !! "reverse") = false ->
  resolve_target limit (eval limit fuel) (S (S (S (S (S depth))))) array_node st
  = (Ok (VList l), st1) ->
  heap st1 !! l = Some items ->
  let reversed := set_heap (<[l := rev items]> (heap st1)) st1 in
  eval limit (S fuel) (S (S (S depth)))
       (FunctionCallNode (CalleeName "reverse") [array_node]) st
  = (Ok (VList l), reversed)
  /\ heap reversed !! l = Some (rev items)
  /\ (forall l', l' <> l -> heap reversed !! l' = heap st1 !! l')
  /\ variables reversed = variables st1
  /\ eval limit (S (S fuel)) depth
          (FunctionCallNode (CalleeName "reverse")
             [FunctionCallNode (CalleeName "reverse") [array_node]]) st
     = (Ok (VList l), st1).
Proof.
  intros Hd Huser Harray Hitems reversed.
  pose proof (reverse_call limit fuel (S (S (S depth))) array_node st st1 l
                ltac:(lia) Huser Harray) as Hinner.
  rewrite (list_at_some st1 l items Hitems) in Hinner. fold reversed in Hinner.
  split; [exact Hinner|].
  split; [apply list_lookup_insert_eq; apply lookup_lt_Some in Hitems; exact Hitems|].
  split; [intros l' Hne; apply list_lookup_insert_ne; congruence|].
  split; [reflexivity|].
  rewrite (reverse_call limit (S fuel) depth _ st reversed l);
    [|lia|exact Huser|unfold resolve_target; rewrite call_eval_granted by lia; exact Hinner].
  unfold reversed.
  rewrite (list_at_written st1 l items _ Hitems).
  rewrite rev_involutive, set_heap_twice, (set_heap_same st1 l items Hitems).
  reflexivity.
Qed.

Lemma reverse_twice_restores_witness :
  eval 1000 3 3 (FunctionCallNode (CalleeName "reverse") [VarAccessNode "a"])
       (array_state [VInt 1; VInt 2])
  = (Ok (VList 0%nat), array_state [VInt 2; VInt 1])
  /\ eval 1000 4 0
          (FunctionCallNode (CalleeName "reverse")
             [FunctionCallNode (CalleeName "reverse") [VarAccessNode "a"]])
          (array_state [VInt 1; VInt 2])
     = (Ok (VList 0%nat), array_state [VInt 1; VInt 2]).
Proof.
  destruct (reverse_twice_restores 1000 2 0 (VarAccessNode "a")
              (array_state [VInt 1; VInt 2])
              (array_state [VInt 1; VInt 2])
              0%nat [VInt 1; VInt 2]) as (Honce & _ & _ & _ & Htwice).
  - lia.
  - reflexivity.
  - vm_compute. reflexivity.
  - reflexivity.
  - split; [exact Honce|exact Htwice].
Defined.

(** *** Sorting *)

Definition is_int (v : value) : bool :=
  match v with VInt _ => true | _ => false end.

(** The order of two integer values. *)
Definition int_le (u v : value) : Prop :=
  match u, v with
  | VInt a, VInt b => a <= b
  | _, _ => False
  end.

Lemma number_lt_int (a b : Z) : number_lt (VInt a) (VInt b) = (a <? b).
Proof.
  unfold number_lt. cbn. unfold Z.ltb. destruct (a ?= b); reflexivity.
Qed.

Lemma insert_sorted_permutation {A} (lt : A -> A -> bool) (x : A) (sorted : list A) :
  insert_sorted lt x sorted ≡ₚ x :: sorted.
Proof.
  induction sorted as [|y sorted IH]; cbn [insert_sorted]; [reflexivity|].
  destruct (lt x y); [reflexivity|].
  rewrite IH. apply Permutation_swap.
Qed.

Lemma stable_sort_permutation {A} (lt : A -> A -> bool) (xs : list A) :
  stable_sort lt xs ≡ₚ xs.
Proof.
  unfold stable_sort.
  assert (H : forall acc, fold_left (fun sorted x => insert_sorted lt x sorted) xs acc
                          ≡ₚ xs ++ acc).
  { induction xs as [|x xs IH]; intros acc; cbn [fold_left]; [reflexivity|].
    rewrite IH, insert_sorted_permutation. cbn [app].
    symmetry. apply Permutation_middle. }
  rewrite H, app_nil_r. reflexivity.
Qed.

Lemma insert_sorted_is_int (x : value) (sorted : list value) :
  is_int x = true -> forallb is_int sorted = true ->
  forallb is_int (insert_sorted number_lt x sorted) = true.
Proof.
  intros Hx. induction sorted as [|y sorted IH]; cbn [insert_sorted forallb]; intros Hs.
  - rewrite Hx. reflexivity.
  - apply andb_true_iff in Hs. destruct Hs as [Hy Hs].
    destruct (number_lt x y); cbn [forallb]; rewrite ?Hx, ?Hy, ?Hs, ?IH by exact Hs;
      reflexivity.
Qed.

Lemma insert_sorted_sorted (x : value) (sorted : list value) :
  is_int x = true -> forallb is_int sorted = true ->
  Sorted int_le sorted -> Sorted int_le (insert_sorted number_lt x sorted).
Proof.
  intros Hx. destruct x as [| |a| | | | |]; try discriminate Hx.
  induction sorted as [|y sorted IH]; cbn [insert_sorted forallb]; intros Hints Hs.
  - repeat constructor.
  - apply andb_true_iff in Hints. destruct Hints as [Hy Hints].
    destruct y as [| |b| | | | |]; try discriminate Hy.
    rewrite number_lt_int. destruct (Z.ltb_spec a b) as [Hab|Hab].
    + constructor; [exact Hs|]. constructor. cbn. lia.
    + apply Sorted_inv in Hs. destruct Hs as [Hs Hhd].
      constructor; [apply IH; assumption|].
      destruct sorted as [|z sorted]; cbn [insert_sorted].
      * constructor. cbn. lia.
      * destruct (number_lt (VInt a) z); constructor; [cbn; lia|].
        apply HdRel_inv in Hhd. exact Hhd.
Qed.

Lemma stable_sort_sorted (xs : list value) :
  forallb is_int xs = true ->
  Sorted int_le (stable_sort number_lt xs).
Proof.
  unfold stable_sort.
  assert (H : forall acc,
             forallb is_int xs = true -> forallb is_int acc = true ->
             Sorted int_le acc ->
             Sorted int_le (fold_left (fun sorted x => insert_sorted number_lt x sorted)
                                      xs acc)).
  { induction xs as [|x xs IH]; intros acc Hxs Hacc Hs; cbn [fold_left]; [exact Hs|].
    cbn [forallb] in Hxs. apply andb_true_iff in Hxs. destruct Hxs as [Hx Hxs].
    apply IH; [exact Hxs|apply insert_sorted_is_int; assumption
               |apply insert_sorted_sorted; assumption]. }
  intros Hxs. apply H; [exact Hxs|reflexivity|constructor].
Qed.

Lemma is_int_sortable (xs : list value) :
  forallb is_int xs = true -> forallb sortable_number xs = true.
Proof.
  rewrite !forallb_forall. intros H x Hx. specialize (H x Hx).
  destruct x; try discriminate H. reflexivity.
Qed.

(** The host's sort of a list of integers: a rearrangement of the list,
    in ascending order. *)
Lemma py_sort_integers (items : list value) (st : interp) :
  forallb is_int items = true ->
  exists sorted,
    py_sort items st = (Ok sorted, st) /\ sorted ≡ₚ items /\ Sorted int_le sorted.
Proof.
  intros Hints. unfold py_sort.
  destruct (length items <=? 1)%nat eqn:Hshort.
  - exists items. split; [reflexivity|]. split; [reflexivity|].
    apply Nat.leb_le in Hshort.
    destruct items as [|x [|y items]]; [constructor|repeat constructor|cbn in Hshort; lia].
  - rewrite (is_int_sortable items Hints).
    exists (stable_sort number_lt items).
    split; [reflexivity|].
    split; [apply stable_sort_permutation|apply stable_sort_sorted; exact Hints].
Qed.

(** X20: [sort(array)] on an array of integers rearranges the list object
    itself into ascending order: no item is lost or added, and every
    reference to the object sees the sorted list. *)
Theorem sort_orders_integers (limit fuel depth : nat) (array_node : node)
    (st st1 : interp) (l : loc) (items : list value) :
  (S (S depth) < limit)%nat ->
  is_user_callable (variables st !! "sort") = false ->
  resolve_target limit (eval limit fuel) (S (S depth)) array_node st = (Ok (VList l), st1) ->
  heap st1 !! l = Some items ->
  forallb is_int items = true ->
  exists sorted,
    eval limit (S fuel) depth (FunctionCallNode (CalleeName "sort") [array_node]) st
    = (Ok (VList l), set_heap (<[l := sorted]> (heap st1)) st1)
    /\ sorted ≡ₚ items
    /\ Sorted int_le sorted.
Proof.
  intros Hd Huser Harray Hitems Hints.
  destruct (py_sort_integers items st1 Hints) as (sorted & Hsort & Hperm & Hsorted).
  exists sorted. split; [|split; assumption].
  enter_builtin Hd Huser.
  rewrite (bind_ok _ _ st st1 (VList l)) by exact Harray.
  cbn [expect_list]. rewrite (bind_ok _ _ st1 st1 l) by reflexivity.
  rewrite (bind_ok _ _ st1 st1 items)
    by (rewrite read_list_at, (list_at_some st1 l items Hitems); reflexivity).
  rewrite (bind_ok _ _ st1 st1 sorted) by exact Hsort.
  reflexivity.
Qed.

Lemma sort_orders_integers_witness :
  exists sorted,
    eval 1000 3 0
         (FunctionCallNode (CalleeName "sort")
            [ArrayNode [int_literal 3; int_literal 1; int_literal 2]]) new_interp
    = (Ok (VList 0%nat),
       set_heap (<[0%nat := sorted]> [[VInt 3; VInt 1; VInt 2]])
                (mkInterp ∅ ∅ [[VInt 3; VInt 1; VInt 2]] 0 EmptyString))
    /\ sorted ≡ₚ [VInt 3; VInt 1; VInt 2]
    /\ Sorted int_le sorted.
Proof.
  apply (sort_orders_integers 1000 2 0
           (ArrayNode [int_literal 3; int_literal 1; int_literal 2]) new_interp
           (mkInterp ∅ ∅ [[VInt 3; VInt 1; VInt 2]] 0 EmptyString) 0%nat
           [VInt 3; VInt 1; VInt 2]).
  - lia.
  - reflexivity.
  - reflexivity.
  - reflexivity.
  - reflexivity.
Defined.

(** *** Searching *)

(** Where [z] occurs first in [zs]. *)
Fixpoint position (z : Z) (zs : list Z) : option nat :=
  match zs with
  | [] => None
  | y :: zs' => if y =? z then Some 0%nat else S <$> position z zs'
  end.

Lemma position_some (z : Z) (zs : list Z) (i : nat) :
  position z zs = Some i ->
  zs !! i = Some z /\ forall j, (j < i)%nat -> zs !! j <> Some z.
Proof.
  revert i. induction zs as [|y zs IH]; intros i; cbn [position]; [discriminate|].
  destruct (Z.eqb_spec y z) as [->|Hne].
  - intros [= <-]. split; [reflexivity|]. intros j Hj. lia.
  - destruct (position z zs) as [i'|]; [|discriminate].
    intros [= <-]. destruct (IH i' eq_refl) as [Hat Hbefore].
    split; [exact Hat|]. intros [|j] Hj; cbn; [congruence|apply Hbefore; lia].
Qed.

Lemma position_none (z : Z) (zs : list Z) : position z zs = None <-> z ∉ zs.
Proof.
  induction zs as [|y zs IH]; cbn [position].
  - split; [intros _; apply not_elem_of_nil|reflexivity].
  - rewrite not_elem_of_cons. destruct (Z.eqb_spec y z) as [->|Hne].
    + split; [discriminate|intros [H _]; congruence].
    + destruct (position z zs); cbn.
      * split; [discriminate|]. intros [_ H]. apply IH in H. discriminate H.
      * split; [|reflexivity]. intros _. split; [congruence|apply IH; reflexivity].
Qed.

Lemma py_eq_ints (fuel : nat) (a b : Z) (st : interp) :
  py_eq (S fuel) (VInt a) (VInt b) st = (Ok (a =? b), st).
Proof.
  cbn [py_eq as_num num_compare]. unfold ret. rewrite Z.eqb_compare.
  destruct (a ?= b); reflexivity.
Qed.

Lemma py_contains_ints (fuel : nat) (zs : list Z) (z : Z) (st : interp) :
  py_contains (S fuel) (map VInt zs) (VInt z) st
  = (Ok (match position z zs with Some _ => true | None => false end), st).
Proof.
  induction zs as [|y zs IH]; [reflexivity|].
  cbn [map py_contains position].
  rewrite (bind_ok _ _ st st (y =? z)) by apply py_eq_ints.
  destruct (y =? z); [reflexivity|]. rewrite IH.
  destruct (position z zs); reflexivity.
Qed.

Lemma py_list_index_ints (fuel : nat) (zs : list Z) (z i : Z) (st : interp) :
  py_list_index (S fuel) (map VInt zs) (VInt z) i st
  = (Ok ((fun k => i + Z.of_nat k) <$> position z zs), st).
Proof.
  revert i. induction zs as [|y zs IH]; intros i; [reflexivity|].
  cbn [map py_list_index position].
  rewrite (bind_ok _ _ st st (y =? z)) by apply py_eq_ints.
  destruct (y =? z).
  - cbn [fmap option_fmap option_map]. unfold ret.
    replace (i + Z.of_nat 0) with i by lia. reflexivity.
  - rewrite IH. destruct (position z zs) as [k|]; cbn [fmap option_fmap option_map];
      [|reflexivity].
    replace (i + 1 + Z.of_nat k) with (i + Z.of_nat (S k)) by lia. reflexivity.
Qed.

(** X21: On an array of integers, [contains(array, z)] tells whether [z] is
    an item, and [index_of(array, z)] is -1 when it is none and otherwise
    the index, counted from 1, of its first occurrence: the index at which
    an index read finds [z]. *)
Theorem index_of_finds_the_first (limit fuel depth : nat) (array_node value_node : node)
    (st st1 st2 : interp) (l : loc) (zs : list Z) (z : Z) :
  (S (S depth) < limit)%nat ->
  is_user_callable (variables st !! "contains") = false ->
  is_user_callable (variables st !! "index_of") = false ->
  eval limit (S fuel) (S (S (S depth))) array_node st = (Ok (VList l), st1) ->
  eval limit (S fuel) (S (S (S depth))) value_node st1 = (Ok (VInt z), st2) ->
  heap st2 !! l = Some (map VInt zs) ->
  exists k,
    eval limit (S (S fuel)) depth
         (FunctionCallNode (CalleeName "index_of") [array_node; value_node]) st
    = (Ok (VInt k), st2)
    /\ eval limit (S (S fuel)) depth
            (FunctionCallNode (CalleeName "contains") [array_node; value_node]) st
       = (Ok (VBool (bool_decide (z ∈ zs))), st2)
    /\ (z ∉ zs -> k = -1)
    /\ (z ∈ zs ->
        1 <= k <= Z.of_nat (length zs)
        /\ zs !! Z.to_nat (k - 1) = Some z
        /\ forall j, (j < Z.to_nat (k - 1))%nat -> zs !! j <> Some z).
Proof.
  intros Hd Hcontains Hindex Harray Hvalue Hitems.
  exists (match position z zs with Some i => Z.of_nat i + 1 | None => -1 end).
  split; [|split].
  - enter_builtin Hd Hindex.
    rewrite (bind_ok _ _ st st1 (VList l)) by (rewrite call_eval_granted by lia; exact Harray).
    rewrite (bind_ok _ _ st1 st2 (VInt z))
      by (rewrite call_eval_granted by lia; exact Hvalue).
    cbn [expect_list]. rewrite (bind_ok _ _ st2 st2 l) by reflexivity.
    rewrite (bind_ok _ _ st2 st2 (map VInt zs))
      by (rewrite read_list_at, (list_at_some st2 l _ Hitems); reflexivity).
    rewrite (bind_ok _ _ st2 st2 _) by apply py_list_index_ints.
    destruct (position z zs); reflexivity.
  - enter_builtin Hd Hcontains.
    rewrite (bind_ok _ _ st st1 (VList l)) by (rewrite call_eval_granted by lia; exact Harray).
    rewrite (bind_ok _ _ st1 st2 (VInt z))
      by (rewrite call_eval_granted by lia; exact Hvalue).
    cbn [expect_list]. rewrite (bind_ok _ _ st2 st2 l) by reflexivity.
    rewrite (bind_ok _ _ st2 st2 (map VInt zs))
      by (rewrite read_list_at, (list_at_some st2 l _ Hitems); reflexivity).
    rewrite (bind_ok _ _ st2 st2 _) by apply py_contains_ints.
    unfold ret. do 3 f_equal.
    destruct (position z zs) as [i|] eqn:Hpos.
    + symmetry. apply bool_decide_eq_true_2.
      apply position_some in Hpos. destruct Hpos as [Hat _].
      apply (list_elem_of_lookup_2 _ _ _ Hat).
    + symmetry. apply bool_decide_eq_false_2. apply position_none. exact Hpos.
  - destruct (position z zs) as [i|] eqn:Hpos.
    + split; [intros Hnot; apply position_none in Hnot; congruence|].
      intros _. apply position_some in Hpos. destruct Hpos as [Hat Hbefore].
      pose proof (lookup_lt_Some _ _ _ Hat) as Hlen.
      replace (Z.to_nat (Z.of_nat i + 1 - 1)) with i by lia.
      repeat split; try lia; assumption.
    + split; [reflexivity|]. intros Hin. apply position_none in Hpos. contradiction.
Qed.

Lemma index_of_finds_the_first_witness :
  exists k,
    eval 1000 4 0
         (FunctionCallNode (CalleeName "index_of")
            [ArrayNode [int_literal 5; int_literal 7; int_literal 7]; int_literal 7])
         new_interp
    = (Ok (VInt k), mkInterp ∅ ∅ [[VInt 5; VInt 7; VInt 7]] 0 EmptyString)
    /\ k = 2.
Proof.
  destruct (index_of_finds_the_first 1000 2 0
              (ArrayNode [int_literal 5; int_literal 7; int_literal 7]) (int_literal 7)
              new_interp (mkInterp ∅ ∅ [[VInt 5; VInt 7; VInt 7]] 0 EmptyString)
              (mkInterp ∅ ∅ [[VInt 5; VInt 7; VInt 7]] 0 EmptyString)
              0%nat [5; 7; 7] 7 ltac:(lia) eq_refl eq_refl eq_refl eq_refl eq_refl)
    as (k & Hcall & _ & _ & _).
  exists k. split; [exact Hcall|].
  vm_compute in Hcall. congruence.
Defined.

(** *** Slices and aggregates *)

(** X22: [slice(array, s, e)] for [1 <= s <= e <= n] on an array of [n] items
    is a new array that holds the items with the indices [s] to [e], both
    counted from 1 and both included; [slice(array, s)] runs to the end.
    The array itself is not changed. *)
Theorem slice_is_inclusive (limit fuel depth : nat) (array_node start_node stop_node : node)
    (st st1 st2 st3 : interp) (l : loc) (s e : Z) :
  (S (S depth) < limit)%nat ->
  is_user_callable (variables st !! "slice") = false ->
  eval limit fuel (S (S (S depth))) array_node st = (Ok (VList l), st1) ->
  eval limit fuel (S (S (S depth))) start_node st1 = (Ok (VInt s), st2) ->
  eval limit fuel (S (S (S depth))) stop_node st2 = (Ok (VInt e), st3) ->
  1 <= s ->
  (s <= e <= Z.of_nat (length (list_at st3 l)) ->
   eval limit (S fuel) depth
        (FunctionCallNode (CalleeName "slice") [array_node; start_node; stop_node]) st
   = (Ok (VList (length (heap st3))),
      set_heap (heap st3
                ++ [take (Z.to_nat (e - s + 1)) (drop (Z.to_nat (s - 1)) (list_at st3 l))])
               st3))
  /\ eval limit (S fuel) depth
          (FunctionCallNode (CalleeName "slice") [array_node; start_node]) st
     = (Ok (VList (length (heap st2))),
        set_heap (heap st2 ++ [drop (Z.to_nat (s - 1)) (list_at st2 l)]) st2).
Proof.
  intros Hd Huser Harray Hstart Hstop Hs. split.
  - intros He. enter_builtin Hd Huser.
    rewrite (bind_ok _ _ st st1 (VList l)) by (rewrite call_eval_granted by lia; exact Harray).
    rewrite (bind_ok _ _ st1 st2 (VInt s)) by (rewrite call_eval_granted by lia; exact Hstart).
    rewrite (bind_ok _ _ st2 st3 (VInt e)) by (rewrite call_eval_granted by lia; exact Hstop).
    cbn [expect_list as_int]. rewrite (bind_ok _ _ st3 st3 l) by reflexivity.
    rewrite (bind_ok _ _ st3 st3 (list_at st3 l)) by apply read_list_at.
    unfold alloc_list, py_slice.
    destruct (s - 1 <? 0) eqn:Hneg; [apply Z.ltb_lt in Hneg; lia|].
    destruct (e - 1 + 1 <? 0) eqn:Hend; [apply Z.ltb_lt in Hend; lia|].
    rewrite Z.min_l by lia.
    replace (e - 1 + 1 - (s - 1)) with (e - s + 1) by lia. reflexivity.
  - enter_builtin Hd Huser.
    rewrite (bind_ok _ _ st st1 (VList l)) by (rewrite call_eval_granted by lia; exact Harray).
    rewrite (bind_ok _ _ st1 st2 (VInt s)) by (rewrite call_eval_granted by lia; exact Hstart).
    cbn [items_of].
    rewrite (bind_ok _ _ st2 st2 (VInt (Z.of_nat (length (list_at st2 l)) + 1)))
      by reflexivity.
    cbn [expect_list as_int]. rewrite (bind_ok _ _ st2 st2 l) by reflexivity.
    rewrite (bind_ok _ _ st2 st2 (list_at st2 l)) by apply read_list_at.
    unfold alloc_list, py_slice.
    destruct (s - 1 <? 0) eqn:Hneg; [apply Z.ltb_lt in Hneg; lia|].
    destruct (Z.of_nat (length (list_at st2 l)) + 1 - 1 + 1 <? 0) eqn:Hend;
      [apply Z.ltb_lt in Hend; lia|].
    rewrite Z.min_r by lia.
    rewrite take_ge by (rewrite length_drop; lia). reflexivity.
Qed.

Lemma slice_is_inclusive_witness :
  eval 1000 4 0
       (FunctionCallNode (CalleeName "slice")
          [ArrayNode [int_literal 10; int_literal 20; int_literal 30; int_literal 40];
           int_literal 2; int_literal 3]) new_interp
  = (Ok (VList 1%nat),
     mkInterp ∅ ∅ [[VInt 10; VInt 20; VInt 30; VInt 40]; [VInt 20; VInt 30]] 0 EmptyString).
Proof.
  refine (proj1 (slice_is_inclusive 1000 3 0
                   (ArrayNode [int_literal 10; int_literal 20; int_literal 30; int_literal 40])
                   (int_literal 2) (int_literal 3) new_interp
                   (mkInterp ∅ ∅ [[VInt 10; VInt 20; VInt 30; VInt 40]] 0 EmptyString)
                   (mkInterp ∅ ∅ [[VInt 10; VInt 20; VInt 30; VInt 40]] 0 EmptyString)
                   (mkInterp ∅ ∅ [[VInt 10; VInt 20; VInt 30; VInt 40]] 0 EmptyString)
                   0%nat 2 3 _ _ _ _ _ _) _).
  - lia.
  - reflexivity.
  - reflexivity.
  - reflexivity.
  - reflexivity.
  - lia.
  - cbn. lia.
Defined.

Lemma catch_type_error_ok {A} (m : M A) (message : string) (st st' : interp) (a : A) :
  m st = (Ok a, st') -> catch_type_error m message st = (Ok a, st').
Proof. intros H. unfold catch_type_error. rewrite H. reflexivity. Qed.

Lemma py_sum_ints (zs : list Z) (acc : Z) (st : interp) :
  py_sum (VInt acc) (map VInt zs) st = (Ok (VInt (acc + foldr Z.add 0 zs)), st).
Proof.
  revert acc. induction zs as [|z zs IH]; intros acc; cbn [map py_sum foldr].
  - unfold ret. do 3 f_equal. lia.
  - rewrite (bind_ok _ _ st st (VInt (acc + z))) by reflexivity.
    rewrite IH. do 3 f_equal. lia.
Qed.

Lemma py_compare_ints (fuel : nat) (op : cmp_op) (a b : Z) (st : interp) :
  py_compare (S fuel) op (VInt a) (VInt b) st = (Ok (cmp_holds op (Some (a ?= b))), st).
Proof. reflexivity. Qed.

(** The least and the greatest item of [z :: zs], as the host's [min]
    and [max] find them. *)
Lemma py_extremum_ints (fuel : nat) (zs : list Z) (best : Z) (st : interp) :
  py_extremum (S fuel) CmpLt (VInt best) (map VInt zs) st
  = (Ok (VInt (foldl Z.min best zs)), st)
  /\ py_extremum (S fuel) CmpGt (VInt best) (map VInt zs) st
     = (Ok (VInt (foldl Z.max best zs)), st).
Proof.
  revert best. induction zs as [|z zs IH]; intros best; cbn [map py_extremum foldl];
    [split; reflexivity|].
  rewrite !(bind_ok _ _ st st _) by apply py_compare_ints.
  cbn [cmp_holds]. destruct (Z.compare_spec z best) as [->|Hlt|Hgt].
  - replace (Z.min best best) with best by lia.
    replace (Z.max best best) with best by lia. apply IH.
  - replace (Z.min best z) with z by lia.
    replace (Z.max best z) with best by lia.
    split; [apply (IH z)|apply (IH best)].
  - replace (Z.min best z) with best by lia.
    replace (Z.max best z) with z by lia.
    split; [apply (IH best)|apply (IH z)].
Qed.

Lemma foldl_min_least (zs : list Z) (best : Z) :
  (foldl Z.min best zs = best \/ foldl Z.min best zs ∈ zs)
  /\ foldl Z.min best zs <= best
  /\ forall z, z ∈ zs -> foldl Z.min best zs <= z.
Proof.
  revert best. induction zs as [|y zs IH]; intros best; cbn [foldl].
  - split; [left; reflexivity|]. split; [lia|]. intros z Hz. inversion Hz.
  - destruct (IH (Z.min best y)) as (Hmem & Hle & Hall).
    split; [|split].
    + destruct Hmem as [Heq|Hin]; [|right; right; exact Hin].
      rewrite Heq. destruct (Z.min_spec best y) as [[_ ->]|[_ ->]];
        [left; reflexivity|right; left].
    + lia.
    + intros z Hz. apply elem_of_cons in Hz. destruct Hz as [->|Hz]; [lia|apply Hall, Hz].
Qed.

Lemma foldl_max_greatest (zs : list Z) (best : Z) :
  (foldl Z.max best zs = best \/ foldl Z.max best zs ∈ zs)
  /\ best <= foldl Z.max best zs
  /\ forall z, z ∈ zs -> z <= foldl Z.max best zs.
Proof.
  revert best. induction zs as [|y zs IH]; intros best; cbn [foldl].
  - split; [left; reflexivity|]. split; [lia|]. intros z Hz. inversion Hz.
  - destruct (IH (Z.max best y)) as (Hmem & Hle & Hall).
    split; [|split].
    + destruct Hmem as [Heq|Hin]; [|right; right; exact Hin].
      rewrite Heq. destruct (Z.max_spec best y) as [[_ ->]|[_ ->]];
        [right; left|left; reflexivity].
    + lia.
    + intros z Hz. apply elem_of_cons in Hz. destruct Hz as [->|Hz]; [lia|apply Hall, Hz].
Qed.

Lemma py_sum_text (zs : list Z) (s : string) (others : list value) (acc : Z)
    (st : interp) :
  py_sum (VInt acc) (map VInt zs ++ VStr s :: others) st
  = (Raise (HostException Host.TypeError), st).
Proof.
  revert acc. induction zs as [|z zs IH]; intros acc; cbn [map app py_sum].
  - reflexivity.
  - rewrite (bind_ok _ _ st st (VInt (acc + z))) by reflexivity. apply IH.
Qed.

(** X23: [sum(array)] of an array of integers is their sum, 0 for the empty
    array.  A text among the items makes the host's addition fail, and
    here the [TypeError] is caught and turned into a runtime error. *)
Theorem sum_adds_integers (limit fuel depth : nat) (array_node : node)
    (st st1 : interp) (l : loc) (zs : list Z) :
  (S (S depth) < limit)%nat ->
  is_user_callable (variables st !! "sum") = false ->
  eval limit fuel (S (S (S depth))) array_node st = (Ok (VList l), st1) ->
  (heap st1 !! l = Some (map VInt zs) ->
   eval limit (S fuel) depth (FunctionCallNode (CalleeName "sum") [array_node]) st
   = (Ok (VInt (foldr Z.add 0 zs)), st1))
  /\ (forall s others,
         heap st1 !! l = Some (map VInt zs ++ VStr s :: others) ->
         eval limit (S fuel) depth (FunctionCallNode (CalleeName "sum") [array_node]) st
         = (Raise (PuffingRuntimeError "Cannot sum array: {e}" []), st1)).
Proof.
  intros Hd Huser Harray.
  assert (Hcall : eval limit (S fuel) depth
                    (FunctionCallNode (CalleeName "sum") [array_node]) st
                  = catch_type_error (py_sum (VInt 0) (list_at st1 l))
                      "Cannot sum array: {e}" st1).
  { enter_builtin Hd Huser.
    rewrite (bind_ok _ _ st st1 (VList l)) by (rewrite call_eval_granted by lia; exact Harray).
    cbn [expect_list]. rewrite (bind_ok _ _ st1 st1 l) by reflexivity.
    rewrite (bind_ok _ _ st1 st1 (list_at st1 l)) by apply read_list_at.
    reflexivity. }
  rewrite Hcall. split.
  - intros Hitems. rewrite (list_at_some st1 l _ Hitems).
    apply catch_type_error_ok. apply (py_sum_ints zs 0).
  - intros s others Hitems. rewrite (list_at_some st1 l _ Hitems).
    unfold catch_type_error. rewrite py_sum_text. reflexivity.
Qed.

Lemma sum_adds_integers_witness :
  eval 1000 4 0
       (FunctionCallNode (CalleeName "sum") [ArrayNode [int_literal 1; int_literal 2]])
       new_interp
  = (Ok (VInt 3), mkInterp ∅ ∅ [[VInt 1; VInt 2]] 0 EmptyString).
Proof.
  refine (proj1 (sum_adds_integers 1000 3 0 (ArrayNode [int_literal 1; int_literal 2])
                   new_interp (mkInterp ∅ ∅ [[VInt 1; VInt 2]] 0 EmptyString)
                   0%nat [1; 2] _ _ _) _).
  - lia.
  - reflexivity.
  - reflexivity.
  - reflexivity.
Defined.

(** X24: [min(array)] and [max(array)] of an array of integers are an item of
    the array that no item is below, respectively above; of the empty
    array both are a runtime error. *)
Theorem min_and_max_of_integers (limit fuel depth : nat) (array_node : node)
    (st st1 : interp) (l : loc) (zs : list Z) :
  (S (S depth) < limit)%nat ->
  is_user_callable (variables st !! "min") = false ->
  is_user_callable (variables st !! "max") = false ->
  eval limit (S fuel) (S (S (S depth))) array_node st = (Ok (VList l), st1) ->
  heap st1 !! l = Some (map VInt zs) ->
  match zs with
  | [] =>
      eval limit (S (S fuel)) depth (FunctionCallNode (CalleeName "min") [array_node]) st
      = (Raise (empty_array "min"), st1)
      /\ eval limit (S (S fuel)) depth (FunctionCallNode (CalleeName "max") [array_node]) st
         = (Raise (empty_array "max"), st1)
  | _ :: _ =>
      exists lo hi,
        eval limit (S (S fuel)) depth (FunctionCallNode (CalleeName "min") [array_node]) st
        = (Ok (VInt lo), st1)
        /\ eval limit (S (S fuel)) depth (FunctionCallNode (CalleeName "max") [array_node]) st
           = (Ok (VInt hi), st1)
        /\ lo ∈ zs /\ hi ∈ zs
        /\ forall z, z ∈ zs -> lo <= z <= hi
  end.
Proof.
  intros Hd Hmin Hmax Harray Hitems.
  assert (Hlow : eval limit (S (S fuel)) depth
                   (FunctionCallNode (CalleeName "min") [array_node]) st
                 = match map VInt zs with
                   | [] => (Raise (empty_array "min"), st1)
                   | x :: items' =>
                       catch_type_error (py_extremum (S fuel) CmpLt x items')
                         "Cannot find min: {e}" st1
                   end).
  { enter_builtin Hd Hmin.
    rewrite (bind_ok _ _ st st1 (VList l)) by (rewrite call_eval_granted by lia; exact Harray).
    cbn [expect_list]. rewrite (bind_ok _ _ st1 st1 l) by reflexivity.
    rewrite (bind_ok _ _ st1 st1 (map VInt zs))
      by (rewrite read_list_at, (list_at_some st1 l _ Hitems); reflexivity).
    destruct (map VInt zs); reflexivity. }
  assert (Hhigh : eval limit (S (S fuel)) depth
                    (FunctionCallNode (CalleeName "max") [array_node]) st
                  = match map VInt zs with
                    | [] => (Raise (empty_array "max"), st1)
                    | x :: items' =>
                        catch_type_error (py_extremum (S fuel) CmpGt x items')
                          "Cannot find max: {e}" st1
                    end).
  { enter_builtin Hd Hmax.
    rewrite (bind_ok _ _ st st1 (VList l)) by (rewrite call_eval_granted by lia; exact Harray).
    cbn [expect_list]. rewrite (bind_ok _ _ st1 st1 l) by reflexivity.
    rewrite (bind_ok _ _ st1 st1 (map VInt zs))
      by (rewrite read_list_at, (list_at_some st1 l _ Hitems); reflexivity).
    destruct (map VInt zs); reflexivity. }
  rewrite Hlow, Hhigh. destruct zs as [|z zs]; cbn [map]; [split; reflexivity|].
  destruct (py_extremum_ints fuel zs z st1) as [Hlo Hhi].
  exists (foldl Z.min z zs), (foldl Z.max z zs).
  rewrite (catch_type_error_ok _ _ st1 st1 _ Hlo), (catch_type_error_ok _ _ st1 st1 _ Hhi).
  destruct (foldl_min_least zs z) as (Hlo_mem & Hlo_le & Hlo_all).
  destruct (foldl_max_greatest zs z) as (Hhi_mem & Hhi_le & Hhi_all).
  split; [reflexivity|]. split; [reflexivity|].
  split; [destruct Hlo_mem as [->|Hin]; [left|right; exact Hin]|].
  split; [destruct Hhi_mem as [->|Hin]; [left|right; exact Hin]|].
  intros y Hy. apply elem_of_cons in Hy. destruct Hy as [->|Hy].
  - split; [exact Hlo_le|exact Hhi_le].
  - split; [apply Hlo_all, Hy|apply Hhi_all, Hy].
Qed.

Lemma min_and_max_of_integers_witness :
  exists lo hi,
    eval 1000 4 0
         (FunctionCallNode (CalleeName "min") [ArrayNode [int_literal 4; int_literal 2]])
         new_interp
    = (Ok (VInt lo), mkInterp ∅ ∅ [[VInt 4; VInt 2]] 0 EmptyString)
    /\ eval 1000 4 0
            (FunctionCallNode (CalleeName "max") [ArrayNode [int_literal 4; int_literal 2]])
            new_interp
       = (Ok (VInt hi), mkInterp ∅ ∅ [[VInt 4; VInt 2]] 0 EmptyString)
    /\ lo ∈ [4; 2] /\ hi ∈ [4; 2]
    /\ forall z, z ∈ [4; 2] -> lo <= z <= hi.
Proof.
  apply (min_and_max_of_integers 1000 2 0 (ArrayNode [int_literal 4; int_literal 2])
           new_interp (mkInterp ∅ ∅ [[VInt 4; VInt 2]] 0 EmptyString) 0%nat [4; 2]).
  - lia.
  - reflexivity.
  - reflexivity.
  - reflexivity.
  - reflexivity.
Defined.

(** ** Index assignment *)

(** The statement [name[key] as value;]. *)
Definition assign_at (name : string) (key_node value_node : node) : node :=
  IndexAssignNode (IndexAccessNode (VarAccessNode name) key_node) None value_node.

(** The read [name[k]]. *)
Definition read_at (name : string) (k : Z) : node :=
  IndexAccessNode (VarAccessNode name) (int_literal k).

Lemma eval_read_at (limit fuel depth : nat) (name : string) (k : Z) (st : interp)
    (l : loc) (items : list value) (x : value) :
  (depth < limit)%nat ->
  variables st !! name = Some (VList l) ->
  heap st !! l = Some items ->
  1 <= k ->
  items !! Z.to_nat (k - 1) = Some x ->
  eval limit (S (S fuel)) depth (read_at name k) st = (Ok x, st).
Proof.
  intros Hd Hname Hitems Hk Hx. unfold read_at. rewrite eval_unfold. cbn [eval_node].
  rewrite (bind_ok _ _ st st (VList l)).
  2:{ rewrite call_eval_granted by exact Hd. rewrite eval_unfold. cbn [eval_node].
      rewrite (bind_ok _ _ st st (Some (VList l))) by (apply lookup_var_bound; exact Hname).
      reflexivity. }
  rewrite (bind_ok _ _ st st (VInt k)) by (rewrite call_eval_granted by exact Hd; reflexivity).
  unfold index_access. cbn [items_of as_int].
  rewrite (bind_ok _ _ st st items)
    by (rewrite read_list_at, (list_at_some st l items Hitems); reflexivity).
  destruct (k <? 0) eqn:Hneg; [apply Z.ltb_lt in Hneg; lia|].
  destruct (k - 1 <? 0) eqn:Hzero; [apply Z.ltb_lt in Hzero; lia|].
  rewrite Hx. reflexivity.
Qed.

(** X25: An index assignment evaluates the assigned value first and the key
    after it.  For an array bound to a name that is no constant and a key
    [k] with [1 <= k <= n], it replaces the item with the index [k] in the
    list object and returns the value; the read [name[k]] then gives the
    value, and the read at every other index gives what it gave before.
    The key 0 and a key above [n] are errors that change nothing: a
    runtime error, or, for a key above [n] of more than 4300 digits, the
    [ValueError] that the host raises when it builds the text of the key
    for the message. *)
Theorem index_assignment_round_trip (limit fuel depth : nat) (name : string)
    (key_node value_node : node) (st st1 st2 : interp) (l : loc)
    (items : list value) (k : Z) (v : value) :
  (depth < limit)%nat ->
  eval limit (S fuel) (S depth) value_node st = (Ok v, st1) ->
  eval limit (S fuel) (S depth) key_node st1 = (Ok (VInt k), st2) ->
  variables st2 !! name = Some (VList l) ->
  name ∉ constants st2 ->
  heap st2 !! l = Some items ->
  let n := Z.of_nat (length items) in
  let written := set_heap (<[l := <[Z.to_nat (k - 1) := v]> items]> (heap st2)) st2 in
  (1 <= k <= n ->
   eval limit (S (S fuel)) depth (assign_at name key_node value_node) st = (Ok v, written)
   /\ eval limit (S (S fuel)) depth (read_at name k) written = (Ok v, written)
   /\ forall j x, 1 <= j -> j <> k -> items !! Z.to_nat (j - 1) = Some x ->
        eval limit (S (S fuel)) depth (read_at name j) written = (Ok x, written))
  /\ (k = 0 ->
      eval limit (S (S fuel)) depth (assign_at name key_node value_node) st
      = (Raise (PuffingRuntimeError "Index {key} is invalid (indices start at 1)"
                                    [VInt k]), st2))
  /\ (n < k < 10 ^ 4300 ->
      eval limit (S (S fuel)) depth (assign_at name key_node value_node) st
      = (Raise (PuffingRuntimeError
                  "Index {key} out of range for array of length {len(target)}"
                  [VInt k; VList l]), st2))
  /\ (n < k /\ 10 ^ 4300 <= k ->
      eval limit (S (S fuel)) depth (assign_at name key_node value_node) st
      = (Raise (HostException Host.ValueError), st2)).
Proof.
  intros Hd Hvalue Hkey Hname Hfree Hitems n written.
  assert (Hassign : eval limit (S (S fuel)) depth (assign_at name key_node value_node) st
                    = assign_item (VList l) (VInt k) v st2).
  { unfold assign_at. rewrite eval_unfold. cbn [eval_node].
    rewrite (bind_ok _ _ st st1 v) by (rewrite call_eval_granted by exact Hd; exact Hvalue).
    cbn [eval_path].
    rewrite (bind_ok _ _ st1 st2 ([VInt k], VarAccessNode name)).
    2:{ rewrite (bind_ok _ _ st1 st2 (VInt k))
          by (rewrite call_eval_granted by exact Hd; exact Hkey).
        reflexivity. }
    rewrite (bind_ok _ _ st2 st2 (Some (VList l))) by (apply lookup_var_bound; exact Hname).
    rewrite (bind_ok _ _ st2 st2 false) by (apply is_constant_false; exact Hfree).
    reflexivity. }
  rewrite Hassign. unfold assign_item. cbn [as_int].
  rewrite !(bind_ok _ _ st2 st2 items)
    by (rewrite read_list_at, (list_at_some st2 l items Hitems); reflexivity).
  unfold py_set_index. fold n.
  assert (Hwritten_name : variables written !! name = Some (VList l)) by exact Hname.
  assert (Hwritten_items : heap written !! l = Some (<[Z.to_nat (k - 1) := v]> items)).
  { unfold written, set_heap. cbn.
    apply list_lookup_insert_eq. apply lookup_lt_Some in Hitems. exact Hitems. }
  repeat apply conj.
  - intros Hk.
    destruct (k <? 0) eqn:Hneg; [apply Z.ltb_lt in Hneg; lia|].
    destruct (k - 1 <? 0) eqn:Hzero; [apply Z.ltb_lt in Hzero; lia|].
    destruct (k - 1 <? 0) eqn:Hzero'; [discriminate|].
    destruct ((0 <=? k - 1) && (k - 1 <? n)) eqn:Hin.
    2:{ apply andb_false_iff in Hin. destruct Hin as [Hin|Hin];
          [apply Z.leb_gt in Hin|apply Z.ltb_ge in Hin]; lia. }
    split; [reflexivity|]. split.
    + apply (eval_read_at limit fuel depth name k written l _ v Hd Hwritten_name
               Hwritten_items); [lia|].
      apply list_lookup_insert_eq. subst n. lia.
    + intros j x Hj Hne Hx.
      apply (eval_read_at limit fuel depth name j written l _ x Hd Hwritten_name
               Hwritten_items); [exact Hj|].
      rewrite list_lookup_insert_ne by lia. exact Hx.
  - intros ->. reflexivity.
  - intros [Hk Hbound].
    assert (Hpos : Z.abs k = k) by (clear Hbound; lia).
    destruct (proj1 (py_str_key (VInt k) k st2 eq_refl)) as [text Htext];
      [rewrite Hpos; exact Hbound|].
    clear Hbound.
    destruct (k <? 0) eqn:Hneg; [apply Z.ltb_lt in Hneg; lia|].
    destruct (k - 1 <? 0) eqn:Hzero; [apply Z.ltb_lt in Hzero; lia|].
    destruct ((0 <=? k - 1) && (k - 1 <? n)) eqn:Hin;
      [|rewrite (bind_ok _ _ st2 st2 text) by exact Htext; reflexivity].
    apply andb_true_iff in Hin. destruct Hin as [_ Hin]. apply Z.ltb_lt in Hin. lia.
  - intros [Hk Hbound].
    assert (Hpos : Z.abs k = k) by (clear Hbound; lia).
    pose proof (proj2 (py_str_key (VInt k) k st2 eq_refl)) as Htext.
    rewrite Hpos in Htext. specialize (Htext Hbound). clear Hbound.
    destruct (k <? 0) eqn:Hneg; [apply Z.ltb_lt in Hneg; lia|].
    destruct (k - 1 <? 0) eqn:Hzero; [apply Z.ltb_lt in Hzero; lia|].
    destruct ((0 <=? k - 1) && (k - 1 <? n)) eqn:Hin;
      [|apply bind_raise; exact Htext].
    apply andb_true_iff in Hin. destruct Hin as [_ Hin]. apply Z.ltb_lt in Hin. lia.
Qed.

Lemma index_assignment_round_trip_witness :
  eval 1000 4 0 (assign_at "a" (int_literal 2) (int_literal 9))
       (array_state [VInt 1; VInt 2])
  = (Ok (VInt 9),
     array_state [VInt 1; VInt 9]).
Proof.
  refine (proj1 (proj1 (index_assignment_round_trip 1000 2 0 "a" (int_literal 2)
                          (int_literal 9)
                          (array_state [VInt 1; VInt 2])
                          (array_state [VInt 1; VInt 2])
                          (array_state [VInt 1; VInt 2])
                          0%nat [VInt 1; VInt 2] 2 (VInt 9) _ _ _ _ _ _) _)).
  - lia.
  - reflexivity.
  - reflexivity.
  - vm_compute. reflexivity.
  - apply not_elem_of_empty.
  - reflexivity.
  - cbn. lia.
Defined.

(** The least key of 4301 digits, and the key 3, on an array of two
    items. *)
Example index_assignment_out_of_range :
  eval 1000 4 0 (assign_at "a" (int_literal Host.max_str_bound) (int_literal 9))
       (array_state [VInt 1; VInt 2])
  = (Raise (HostException Host.ValueError), array_state [VInt 1; VInt 2])
  /\ eval 1000 4 0 (assign_at "a" (int_literal 3) (int_literal 9))
          (array_state [VInt 1; VInt 2])
     = (Raise (PuffingRuntimeError
                 "Index {key} out of range for array of length {len(target)}"
                 [VInt 3; VList 0%nat]), array_state [VInt 1; VInt 2]).
Proof. split; vm_compute; reflexivity. Qed.

(** ** Ranges with a step *)

(** The list [a, a + s, a + 2 s, ...]. *)
Definition progression (a s : Z) (zs : list Z) : Prop :=
  forall i : nat, (i < length zs)%nat -> zs !! i = Some (a + Z.of_nat i * s).

(** The host's [range(a, b + 1, s)]: an arithmetic progression from [a];
    upwards it stops at the last term that is not above [b], downwards at
    the last term that is not below [b + 2]. *)
Lemma py_range_steps (a b s : Z) (st : interp) :
  s <> 0 ->
  exists zs,
    py_range a (b + 1) s st = (Ok zs, st)
    /\ progression a s zs
    /\ (0 < s -> (forall z, z ∈ zs -> z <= b) /\ b < a + Z.of_nat (length zs) * s)
    /\ (s < 0 -> (forall z, z ∈ zs -> b + 2 <= z) /\ a + Z.of_nat (length zs) * s < b + 2).
Proof.
  intros Hs. unfold py_range.
  destruct (s =? 0) eqn:Hzero; [apply Z.eqb_eq in Hzero; contradiction|].
  eexists. split; [reflexivity|].
  set (count := if 0 <? s then (b + 1 - a + s - 1) / s else (a - (b + 1) - s - 1) / - s).
  assert (Hlen : length (map (fun i : nat => a + Z.of_nat i * s) (seq 0 (Z.to_nat count)))
                 = Z.to_nat count) by (rewrite length_map, length_seq; reflexivity).
  assert (Hprog : progression a s
                    (map (fun i : nat => a + Z.of_nat i * s) (seq 0 (Z.to_nat count)))).
  { intros i Hi. rewrite Hlen in Hi.
    rewrite list_lookup_fmap, lookup_seq_lt by exact Hi. reflexivity. }
  split; [exact Hprog|]. rewrite Hlen.
  assert (Hmem : forall z,
             z ∈ map (fun i : nat => a + Z.of_nat i * s) (seq 0 (Z.to_nat count)) ->
             exists i : nat, (i < Z.to_nat count)%nat /\ z = a + Z.of_nat i * s).
  { intros z Hz. apply list_elem_of_fmap in Hz. destruct Hz as (i & -> & Hi).
    apply elem_of_seq in Hi. exists i. split; [lia|reflexivity]. }
  split.
  - intros Hpos. subst count. destruct (0 <? s) eqn:Hlt; [|apply Z.ltb_ge in Hlt; lia].
    set (q := (b + 1 - a + s - 1) / s) in *.
    pose proof (Z.div_mod (b + 1 - a + s - 1) s Hs) as Hdiv.
    pose proof (Z.mod_pos_bound (b + 1 - a + s - 1) s Hpos) as Hmod.
    fold q in Hdiv. split.
    + intros z Hz. destruct (Hmem z Hz) as (i & Hi & ->). nia.
    + replace (Z.of_nat (Z.to_nat q)) with (Z.max 0 q) by lia.
      destruct (Z.max_spec 0 q) as [[Hq ->]|[Hq ->]]; nia.
  - intros Hneg. subst count. destruct (0 <? s) eqn:Hlt; [apply Z.ltb_lt in Hlt; lia|].
    set (q := (a - (b + 1) - s - 1) / - s) in *.
    pose proof (Z.div_mod (a - (b + 1) - s - 1) (- s) ltac:(lia)) as Hdiv.
    pose proof (Z.mod_pos_bound (a - (b + 1) - s - 1) (- s) ltac:(lia)) as Hmod.
    fold q in Hdiv. split.
    + intros z Hz. destruct (Hmem z Hz) as (i & Hi & ->). nia.
    + replace (Z.of_nat (Z.to_nat q)) with (Z.max 0 q) by lia.
      destruct (Z.max_spec 0 q) as [[Hq ->]|[Hq ->]]; nia.
Qed.

(** X26: [range(lo, hi, step)] with integer operands [a], [b] and [s].  A step
    of 0 ends with the [ValueError] of the host, which is no runtime
    error.  Otherwise the result is a new array that holds the progression
    [a, a + s, ...]: with a positive step it runs up to the last term that
    is not above [b], so that [b] is included when it is a term; with a
    negative step it runs down to the last term that is not below [b + 2],
    so that neither [b] nor [b + 1] is ever included. *)
Theorem range_with_a_step (limit fuel depth : nat) (lo hi step : node)
    (st st1 st2 st3 : interp) (a b s : Z) :
  (depth < limit)%nat ->
  eval limit fuel (S depth) lo st = (Ok (VInt a), st1) ->
  eval limit fuel (S depth) hi st1 = (Ok (VInt b), st2) ->
  eval limit fuel (S depth) step st2 = (Ok (VInt s), st3) ->
  (s = 0 ->
   eval limit (S fuel) depth (RangeNode lo (Some hi) (Some step)) st
   = (Raise (HostException Host.ValueError), st3))
  /\ (s <> 0 ->
      exists zs,
        eval limit (S fuel) depth (RangeNode lo (Some hi) (Some step)) st
        = (Ok (VList (length (heap st3))), set_heap (heap st3 ++ [map VInt zs]) st3)
        /\ progression a s zs
        /\ (0 < s -> (forall z, z ∈ zs -> z <= b) /\ b < a + Z.of_nat (length zs) * s)
        /\ (s < 0 ->
            (forall z, z ∈ zs -> b + 2 <= z) /\ a + Z.of_nat (length zs) * s < b + 2)).
Proof.
  intros Hd Ha Hb Hstep.
  assert (Hrange : eval limit (S fuel) depth (RangeNode lo (Some hi) (Some step)) st
                   = (do items <- py_range a (b + 1) s; alloc_list (map VInt items)) st3).
  { rewrite eval_unfold. cbn [eval_node].
    rewrite (bind_ok _ _ st st1 (VInt a)) by (rewrite call_eval_granted by exact Hd; exact Ha).
    rewrite (bind_ok _ _ st1 st2 (VInt b)) by (rewrite call_eval_granted by exact Hd; exact Hb).
    rewrite (bind_ok _ _ st2 st3 (VInt s))
      by (rewrite call_eval_granted by exact Hd; exact Hstep).
    cbn [py_int].
    rewrite (bind_ok _ _ st3 st3 a) by reflexivity.
    rewrite (bind_ok _ _ st3 st3 b) by reflexivity.
    rewrite (bind_ok _ _ st3 st3 s) by reflexivity.
    reflexivity. }
  rewrite Hrange. split.
  - intros ->. reflexivity.
  - intros Hs. destruct (py_range_steps a b s st3 Hs) as (zs & Hzs & Hprog & Hup & Hdown).
    exists zs. rewrite (bind_ok _ _ st3 st3 zs) by exact Hzs.
    split; [reflexivity|]. split; [exact Hprog|]. split; assumption.
Qed.

Lemma range_with_a_step_witness :
  eval 1000 3 0
       (RangeNode (int_literal 1) (Some (int_literal 5)) (Some (int_literal 0))) new_interp
  = (Raise (HostException Host.ValueError), new_interp).
Proof.
  refine (proj1 (range_with_a_step 1000 2 0 (int_literal 1) (int_literal 5) (int_literal 0)
                   new_interp new_interp new_interp new_interp 1 5 0 _ _ _ _) _).
  - lia.
  - reflexivity.
  - reflexivity.
  - reflexivity.
  - reflexivity.
Defined.

(** The descending range [range(5, 1, -1)] from source text: the items
    5, 4 and 3. *)
Example descending_range_from_source :
  (let e := execute 1000 0 20 20 "range(5, 1, -1);" in
   match e with
   | Ran (Ok (VList l)) final => heap final !! l
   | _ => None
   end) = Some [VInt 5; VInt 4; VInt 3].
Proof. vm_compute. reflexivity. Qed.

(** ** Calls that cannot be made *)

(** The names that [eval_function_call] and [_handle_array_functions]
    compare the name of a call with. *)
Definition builtin_names : list string :=
  [ "len"; "set_add"; "set_remove"; "set_discard"; "set_clear"; "set_contains";
    "set_union"; "set_intersection"; "set_difference"; "set_symmetric_difference";
    "set_is_subset"; "set_is_superset"; "set_is_disjoint"; "set_copy"; "set_to_array";
    "array_to_set"; "keys"; "values"; "items"; "has_key"; "set"; "get"; "delete_key";
    "clear_dict"; "update"; "copy_dict"; "merge"; "push"; "pop"; "shift"; "unshift";
    "insert"; "remove"; "clear"; "reverse"; "sort"; "contains"; "index_of"; "slice";
    "join"; "sum"; "min"; "max" ].

Lemma not_a_builtin (limit : nat) (self_eval : nat -> node -> M value) (fuel depth : nat)
    (func_name : string) (args : list node) (bound : option value) :
  func_name ∉ builtin_names ->
  builtin_call limit self_eval fuel depth func_name args bound
  = match bound with
    | None => error "Function '{func_name}' not defined" [VStr func_name]
    | Some _ => error "'{func_name}' is not a function" [VStr func_name]
    end.
Proof.
  intros Hnot. unfold builtin_call, container_builtin, existsb. cbv zeta beta.
  repeat match goal with
         | |- context [String.eqb func_name ?s] =>
             destruct (String.eqb_spec func_name s) as [Heq|_];
             [exfalso; apply Hnot; rewrite Heq;
              refine (bool_decide_unpack _ _); vm_compute; exact I|]
         end.
  reflexivity.
Qed.

(** X27: A function or a lambda called with a number of arguments that is not
    its number of parameters evaluates the arguments and then raises a
    runtime error; a call by a name that is bound to nothing and names no
    builtin raises the function-not-defined error, and a call by such a
    name bound to a value that is no function or lambda raises the
    not-a-function error, both before any argument is evaluated. *)
Theorem calls_that_cannot_be_made (limit fuel depth : nat) (func_name : string)
    (args : list node) (st : interp) :
  (S depth < limit)%nat ->
  (forall id name params body vs st1,
      variables st !! func_name = Some (VFunction id name params body) ->
      eval_all limit (eval limit fuel) (S depth) args st = (Ok vs, st1) ->
      length vs <> length params ->
      eval limit (S fuel) depth (FunctionCallNode (CalleeName func_name) args) st
      = (Raise (PuffingRuntimeError
                  "Function '{self.name}' expects {len(self.params)} arguments, got {len(args)}"
                  [VStr name; VInt (Z.of_nat (length params)); VInt (Z.of_nat (length vs))]),
         st1))
  /\ (forall id params body is_expression vs st1,
         variables st !! func_name = Some (VLambda id params body is_expression) ->
         eval_all limit (eval limit fuel) (S depth) args st = (Ok vs, st1) ->
         length vs <> length params ->
         eval limit (S fuel) depth (FunctionCallNode (CalleeName func_name) args) st
         = (Raise (PuffingRuntimeError
                     "Lambda expects {len(self.params)} arguments, got {len(args)}"
                     [VInt (Z.of_nat (length params)); VInt (Z.of_nat (length vs))]),
            st1))
  /\ (func_name ∉ builtin_names ->
      is_user_callable (variables st !! func_name) = false ->
      eval limit (S fuel) depth (FunctionCallNode (CalleeName func_name) args) st
      = (Raise (PuffingRuntimeError
                  (match variables st !! func_name with
                   | None => "Function '{func_name}' not defined"
                   | Some _ => "'{func_name}' is not a function"
                   end) [VStr func_name]), st)).
Proof.
  intros Hd. repeat apply conj.
  - intros id name params body vs st1 Hbound Hargs Hlen.
    rewrite eval_unfold. cbn [eval_node]. rewrite enter_granted by lia.
    unfold eval_function_call.
    rewrite (bind_ok _ _ st st _) by (apply lookup_var_bound; exact Hbound).
    cbv beta iota.
    rewrite (bind_ok _ _ st st1 vs) by exact Hargs.
    unfold catch_return. rewrite enter_granted by lia.
    unfold PuffingFunction_call.
    destruct (Nat.eqb_spec (length vs) (length params)) as [Heq|_]; [contradiction|].
    reflexivity.
  - intros id params body is_expression vs st1 Hbound Hargs Hlen.
    rewrite eval_unfold. cbn [eval_node]. rewrite enter_granted by lia.
    unfold eval_function_call.
    rewrite (bind_ok _ _ st st _) by (apply lookup_var_bound; exact Hbound).
    cbv beta iota.
    rewrite (bind_ok _ _ st st1 vs) by exact Hargs.
    unfold catch_return. rewrite enter_granted by lia.
    unfold PuffingLambda_call.
    destruct (Nat.eqb_spec (length vs) (length params)) as [Heq|_]; [contradiction|].
    reflexivity.
  - intros Hnot Huser. rewrite eval_call_builtin by (lia || exact Huser).
    rewrite not_a_builtin by exact Hnot.
    destruct (variables st !! func_name); reflexivity.
Qed.

Lemma calls_that_cannot_be_made_witness :
  eval 1000 3 0 (FunctionCallNode (CalleeName "nothing") [VarAccessNode "ghost"]) new_interp
  = (Raise (PuffingRuntimeError "Function '{func_name}' not defined" [VStr "nothing"]),
     new_interp).
Proof.
  refine (proj2 (proj2 (calls_that_cannot_be_made 1000 2 0 "nothing" [VarAccessNode "ghost"]
                          new_interp _)) _ _).
  - lia.
  - refine (bool_decide_unpack _ _); vm_compute; exact I.
  - reflexivity.
Defined.

(** ** Destructuring declarations *)

Lemma destructure_binds (constant : bool) (names : list string) :
  forall (vs : list value) (st : interp),
    (length names <= length vs)%nat ->
    NoDup names ->
    exists st',
      destructure names vs constant st = (Ok tt, st')
      /\ (forall i name, names !! i = Some name -> variables st' !! name = vs !! i)
      /\ (forall x, x ∉ names -> variables st' !! x = variables st !! x)
      /\ constants st'
         = (if constant then list_to_set names ∪ constants st else constants st)
      /\ heap st' = heap st
      /\ stdout st' = stdout st.
Proof.
  induction names as [|name names IH]; intros vs st Hlen Hnodup.
  - exists st. split; [destruct vs; reflexivity|].
    split; [intros i name H; discriminate H|]. split; [reflexivity|].
    split; [destruct constant; [cbn; rewrite (left_id_L ∅ (∪)); reflexivity|reflexivity]|].
    split; reflexivity.
  - destruct vs as [|v vs]; [cbn in Hlen; lia|]. cbn [length] in Hlen.
    apply NoDup_cons in Hnodup. destruct Hnodup as [Hfresh Hnodup].
    cbn [destructure].
    set (st1 := set_variables (<[name := v]> (variables st)) st).
    set (st2 := if constant then set_constants ({[name]} ∪ constants st1) st1 else st1).
    rewrite (bind_ok _ _ st st1 tt) by reflexivity.
    rewrite (bind_ok _ _ st1 st2 tt) by (subst st2; destruct constant; reflexivity).
    destruct (IH vs st2 ltac:(lia) Hnodup)
      as (st' & Hrun & Hbound & Hother & Hconst & Hheap & Hout).
    exists st'. split; [exact Hrun|].
    assert (Hvars2 : variables st2 = <[name := v]> (variables st))
      by (subst st2 st1; destruct constant; reflexivity).
    split; [|split; [|split; [|split]]].
    + intros [|i] x Hx; cbn in Hx |- *.
      * injection Hx as <-. rewrite (Hother name Hfresh), Hvars2.
        apply lookup_insert_eq.
      * apply (Hbound i x Hx).
    + intros x Hx. apply not_elem_of_cons in Hx. destruct Hx as [Hne Hx].
      rewrite (Hother x Hx), Hvars2. apply lookup_insert_ne. congruence.
    + rewrite Hconst. subst st2 st1. destruct constant; cbn; [|reflexivity].
      rewrite (assoc_L (∪)), (comm_L (∪) (list_to_set names) {[name]}). reflexivity.
    + rewrite Hheap. subst st2 st1. destruct constant; reflexivity.
    + rewrite Hout. subst st2 st1. destruct constant; reflexivity.
Qed.

(** X28: A destructuring declaration of the names [names] from an array of the
    values [vs].  With fewer values than names it is a runtime error and
    binds nothing.  Otherwise it binds the [i]-th name to the [i]-th value
    (the names being distinct), ignores the values that are left over,
    touches no other name, marks the names constant when it is a [lock],
    and returns a new array of all the values. *)
Theorem destructuring_binds_in_order (limit fuel depth : nat) (names : list string)
    (value_node : node) (constant : bool) (st st1 : interp) (l : loc) (vs : list value) :
  (depth < limit)%nat ->
  eval limit fuel (S depth) value_node st = (Ok (VList l), st1) ->
  heap st1 !! l = Some vs ->
  ((length vs < length names)%nat ->
   eval limit (S fuel) depth (DestructureAssignNode names value_node constant) st
   = (Raise (PuffingRuntimeError
               "Not enough values to unpack: expected {len(node.var_names)}, got {len(value_list)}"
               [VInt (Z.of_nat (length names)); VInt (Z.of_nat (length vs))]), st1))
  /\ ((length names <= length vs)%nat ->
      NoDup names ->
      exists st2,
        eval limit (S fuel) depth (DestructureAssignNode names value_node constant) st
        = (Ok (VList (length (heap st1))), st2)
        /\ (forall i name, names !! i = Some name -> variables st2 !! name = vs !! i)
        /\ (forall x, x ∉ names -> variables st2 !! x = variables st1 !! x)
        /\ constants st2
           = (if constant then list_to_set names ∪ constants st1 else constants st1)
        /\ heap st2 = heap st1 ++ [vs]).
Proof.
  intros Hd Hvalue Hitems.
  assert (Hnode : eval limit (S fuel) depth
                    (DestructureAssignNode names value_node constant) st
                  = (if (length vs <? length names)%nat then
                       error "Not enough values to unpack: expected {len(node.var_names)}, got {len(value_list)}"
                             [VInt (Z.of_nat (length names)); VInt (Z.of_nat (length vs))]
                     else do_ destructure names vs constant; alloc_list vs) st1).
  { rewrite eval_unfold. cbn [eval_node].
    rewrite (bind_ok _ _ st st1 (VList l))
      by (rewrite call_eval_granted by exact Hd; exact Hvalue).
    cbn [items_of].
    rewrite (bind_ok _ _ st1 st1 vs)
      by (rewrite read_list_at, (list_at_some st1 l vs Hitems); reflexivity).
    reflexivity. }
  rewrite Hnode. split.
  - intros Hshort. apply Nat.ltb_lt in Hshort. rewrite Hshort. reflexivity.
  - intros Hlen Hnodup.
    destruct (length vs <? length names)%nat eqn:Hshort; [apply Nat.ltb_lt in Hshort; lia|].
    destruct (destructure_binds constant names vs st1 Hlen Hnodup)
      as (st' & Hrun & Hbound & Hother & Hconst & Hheap & _).
    exists (set_heap (heap st' ++ [vs]) st').
    rewrite (bind_ok _ _ st1 st' tt) by exact Hrun.
    unfold alloc_list. rewrite Hheap.
    split; [reflexivity|]. split; [exact Hbound|]. split; [exact Hother|].
    split; [exact Hconst|reflexivity].
Qed.

Lemma destructuring_binds_in_order_witness :
  exists st2,
    eval 1000 4 0
         (DestructureAssignNode ["a"; "b"]
            (ArrayNode [int_literal 1; int_literal 2; int_literal 3]) false) new_interp
    = (Ok (VList 1%nat), st2)
    /\ variables st2 !! "a" = Some (VInt 1)
    /\ variables st2 !! "b" = Some (VInt 2).
Proof.
  destruct (proj2 (destructuring_binds_in_order 1000 3 0 ["a"; "b"]
                     (ArrayNode [int_literal 1; int_literal 2; int_literal 3]) false
                     new_interp (mkInterp ∅ ∅ [[VInt 1; VInt 2; VInt 3]] 0 EmptyString)
                     0%nat [VInt 1; VInt 2; VInt 3] ltac:(lia) eq_refl eq_refl))
    as (st2 & Hrun & Hbound & _).
  - cbn. lia.
  - apply NoDup_cons. split; [|apply NoDup_singleton].
    intros H. apply list_elem_of_singleton in H. discriminate H.
  - exists st2. split; [exact Hrun|].
    split; [apply (Hbound 0%nat "a" eq_refl)|apply (Hbound 1%nat "b" eq_refl)].
Defined.

(** ** Exact division, and casts to [int] *)

(** The exact division [6 / 3] from source text: the float 2.0, not the
    integer 2. *)
Example exact_division_from_source :
  returned (execute 1000 0 20 20 "6 / 3;")
  = Some (VFloat (S754_finite false 4503599627370496 (-51)))
  /\ returned (execute 1000 0 20 20 "6 / 3 = 2;") = Some (VBool true).
Proof. split; vm_compute; reflexivity. Qed.





